(** * The record-mode runtime of xtern (lib/runtime/record-runtime.cpp)

    A shallow embedding of the wrappers of [RecorderRT<_S>] and of the
    helpers they use.  A wrapper runs on behalf of one thread.  What the
    thread calls outside this file (the turn scheduler [_S], the native
    pthread and semaphore primitives, the base [Runtime] class) is the
    environment: every such call is appended to a trace, and the calls that
    can block or fail take their answer from a finite script of responses. *)

From stdpp Require Import base numbers list option gmap.

Local Open Scope Z_scope.

(** ** Machine integers *)

Definition wrap_u32 (z : Z) : Z := z mod 2 ^ 32.
Definition wrap_s32 (z : Z) : Z := (z + 2 ^ 31) mod 2 ^ 32 - 2 ^ 31.
Definition wrap_u64 (z : Z) : Z := z mod 2 ^ 64.
Definition wrap_s64 (z : Z) : Z := (z + 2 ^ 63) mod 2 ^ 64 - 2 ^ 63.

Arguments wrap_u32 : simpl never.
Arguments wrap_s32 : simpl never.
Arguments wrap_u64 : simpl never.
Arguments wrap_s64 : simpl never.

(** ** Constants of the C library (Linux, glibc) *)

Definition EAGAIN : Z := 11.
Definition EBUSY : Z := 16.
Definition EDEADLK : Z := 35.
Definition ETIMEDOUT : Z := 110.
Definition PTHREAD_BARRIER_SERIAL_THREAD : Z := -1.

(** Modelled from the spec: the default deadline of [_S::wait], declared in
    record-scheduler.h; the spec gives [UINT_MAX] for an indefinite wait. *)
Definition NO_TIMEOUT : Z := 4294967295.

(** ** Time *)

Record timespec : Type := Timespec { tv_sec : Z; tv_nsec : Z }.

Definition time_diff (start end_ : timespec) : timespec :=
  if tv_nsec end_ - tv_nsec start <? 0
  then Timespec (tv_sec end_ - tv_sec start - 1)
                (1000000000 - tv_nsec start + tv_nsec end_)
  else Timespec (tv_sec end_ - tv_sec start)
                (tv_nsec end_ - tv_nsec start).

(** ** Options (tern/options.h), the ones this file reads *)

Record options : Type := Options {
  log_sync : bool;
  launch_idle_thread : bool;
  nanosec_per_turn : Z;
  enforce_non_det_annotations : bool;
  record_runtime_stat : bool;
  RR_ignore_rw_regular_file : bool;
  exec_sleep : bool
}.

(** ** Events: what a wrapper asks of its environment *)

Inductive syncfunc : Type :=
| sf_tern_idle | sf_pthread_mutex_lock | sf_pthread_mutex_trylock
| sf_pthread_mutex_timedlock | sf_pthread_mutex_unlock
| sf_pthread_rwlock_rdlock | sf_pthread_rwlock_wrlock
| sf_pthread_rwlock_tryrdlock | sf_pthread_rwlock_trywrlock
| sf_pthread_rwlock_unlock
| sf_pthread_barrier_init | sf_pthread_barrier_wait
| sf_pthread_cond_wait | sf_pthread_cond_timedwait
| sf_sem_wait | sf_sem_trywait | sf_sem_timedwait | sf_sem_post
| sf_recv.

(** Native primitives and pass-throughs of the base class [Runtime]. *)
Inductive native_op : Type :=
| pthread_mutex_trylock (mu : Z)
| pthread_mutex_unlock (mu : Z)
| pthread_mutex_timedlock (mu : Z) (abstime : option timespec)
| pthread_rwlock_tryrdlock (rw : Z)
| pthread_rwlock_trywrlock (rw : Z)
| pthread_rwlock_rdlock (rw : Z)
| pthread_rwlock_unlock (rw : Z)
| pthread_barrier_init (ba : Z) (count : Z)
| pthread_barrier_wait (ba : Z)
| pthread_cond_wait (cv mu : Z)
| pthread_cond_timedwait (cv mu : Z) (abstime : option timespec)
| sem_trywait (sem : Z)
| sem_timedwait (sem : Z) (abstime : option timespec)
| sem_post (sem : Z)
| clock_gettime_REALTIME
| Runtime__pthread_mutex_lock (mu : Z)
| Runtime__pthread_mutex_unlock (mu : Z)
| Runtime__sem_wait (sem : Z)
| Runtime__sem_post (sem : Z)
| Runtime__recv (sockfd len flags : Z).

Inductive warning : Type :=
| WARN_no_idle_thread
| WARN_non_det_timeout (f : syncfunc).

Inductive event : Type :=
| EvGetTurn
| EvPutTurn (end_of_thread : bool)
| EvIncTurnCount
| EvWait (chan : Z) (timeout : Z)
| EvSignal (chan : Z) (all : bool)
| EvBlock
| EvWakeup
| EvInterProStart
| EvInterProEnd
| EvIdleThreadCondWait
| EvNative (op : native_op)
| EvLogSync (ins : Z) (op : syncfunc) (turn : Z) (second_half : bool)
            (args : list Z)
| EvWarn (w : warning).

(** One answer of the environment: the value the call returns, the value
    it leaves in [errno] (if it writes [errno] at all) and, for a call
    during which this thread does not hold the turn, how many turns the
    other threads took meanwhile. *)
Record response : Type := Response {
  r_ret : Z;
  r_errno : option Z;
  r_turns : nat
}.

(** ** State *)

Record barrier_t : Type := Barrier { count : Z; narrived : Z }.

Record state : Type := State {
  st_errno : Z;                       (* errno of this thread *)
  st_error : Z;                       (* the cell behind [int &error] *)
  st_inNonDet : bool;                 (* __thread inNonDet *)
  st_my_base_time : timespec;         (* __thread my_base_time *)
  st_realtime : timespec;             (* what CLOCK_REALTIME reads *)
  st_is_idle_th : bool;               (* pthread_self() == idle_th *)
  st_turnCount : Z;                   (* _S::turnCount *)
  st_runq : list Z;                   (* _S::runq *)
  st_nthread : Z;                     (* _S::nthread *)
  st_barriers : gmap Z barrier_t;     (* RecorderRT::barriers *)
  st_nDetPthreadSyncOp : Z;           (* stat counters *)
  st_nNonDetPthreadSync : Z;
  st_nInterProcSyncOp : Z;
  st_trace : list event;
  st_script : list response
}.

Definition set_errno (v : Z) (s : state) : state :=
  State v (st_error s) (st_inNonDet s) (st_my_base_time s) (st_realtime s)
        (st_is_idle_th s) (st_turnCount s) (st_runq s) (st_nthread s)
        (st_barriers s) (st_nDetPthreadSyncOp s) (st_nNonDetPthreadSync s)
        (st_nInterProcSyncOp s) (st_trace s) (st_script s).

Definition set_error (v : Z) (s : state) : state :=
  State (st_errno s) v (st_inNonDet s) (st_my_base_time s) (st_realtime s)
        (st_is_idle_th s) (st_turnCount s) (st_runq s) (st_nthread s)
        (st_barriers s) (st_nDetPthreadSyncOp s) (st_nNonDetPthreadSync s)
        (st_nInterProcSyncOp s) (st_trace s) (st_script s).

Definition set_turnCount (v : Z) (s : state) : state :=
  State (st_errno s) (st_error s) (st_inNonDet s) (st_my_base_time s)
        (st_realtime s) (st_is_idle_th s) v (st_runq s) (st_nthread s)
        (st_barriers s) (st_nDetPthreadSyncOp s) (st_nNonDetPthreadSync s)
        (st_nInterProcSyncOp s) (st_trace s) (st_script s).

Definition set_barriers (v : gmap Z barrier_t) (s : state) : state :=
  State (st_errno s) (st_error s) (st_inNonDet s) (st_my_base_time s)
        (st_realtime s) (st_is_idle_th s) (st_turnCount s) (st_runq s)
        (st_nthread s) v (st_nDetPthreadSyncOp s) (st_nNonDetPthreadSync s)
        (st_nInterProcSyncOp s) (st_trace s) (st_script s).

Definition set_nDetPthreadSyncOp (v : Z) (s : state) : state :=
  State (st_errno s) (st_error s) (st_inNonDet s) (st_my_base_time s)
        (st_realtime s) (st_is_idle_th s) (st_turnCount s) (st_runq s)
        (st_nthread s) (st_barriers s) v (st_nNonDetPthreadSync s)
        (st_nInterProcSyncOp s) (st_trace s) (st_script s).

Definition set_nNonDetPthreadSync (v : Z) (s : state) : state :=
  State (st_errno s) (st_error s) (st_inNonDet s) (st_my_base_time s)
        (st_realtime s) (st_is_idle_th s) (st_turnCount s) (st_runq s)
        (st_nthread s) (st_barriers s) (st_nDetPthreadSyncOp s) v
        (st_nInterProcSyncOp s) (st_trace s) (st_script s).

Definition set_nInterProcSyncOp (v : Z) (s : state) : state :=
  State (st_errno s) (st_error s) (st_inNonDet s) (st_my_base_time s)
        (st_realtime s) (st_is_idle_th s) (st_turnCount s) (st_runq s)
        (st_nthread s) (st_barriers s) (st_nDetPthreadSyncOp s)
        (st_nNonDetPthreadSync s) v (st_trace s) (st_script s).

Definition set_trace (v : list event) (s : state) : state :=
  State (st_errno s) (st_error s) (st_inNonDet s) (st_my_base_time s)
        (st_realtime s) (st_is_idle_th s) (st_turnCount s) (st_runq s)
        (st_nthread s) (st_barriers s) (st_nDetPthreadSyncOp s)
        (st_nNonDetPthreadSync s) (st_nInterProcSyncOp s) v (st_script s).

Definition set_script (v : list response) (s : state) : state :=
  State (st_errno s) (st_error s) (st_inNonDet s) (st_my_base_time s)
        (st_realtime s) (st_is_idle_th s) (st_turnCount s) (st_runq s)
        (st_nthread s) (st_barriers s) (st_nDetPthreadSyncOp s)
        (st_nNonDetPthreadSync s) (st_nInterProcSyncOp s) (st_trace s) v.

(** ** The monad of wrappers: state, and the ways a call does not return *)

Inductive stop : Type :=
| AssertFail            (* assert(...) failed: abort() *)
| Exit (code : Z)       (* exit(code) *)
| DivByZero             (* integer division by zero *)
| Pending.              (* the script is over: the thread is still inside
                           the call it made last *)

Inductive outcome (A : Type) : Type :=
| Done (a : A) (s : state)
| Stop (why : stop) (s : state).
Arguments Done {A} a s.
Arguments Stop {A} why s.

Definition M (A : Type) : Type := state -> outcome A.

Definition ret {A} (a : A) : M A := fun s => Done a s.

Definition bind {A B} (m : M A) (k : A -> M B) : M B := fun s =>
  match m s with
  | Done a s' => k a s'
  | Stop w s' => Stop w s'
  end.

Notation "x <- m ;; k" := (bind m (fun x => k))
  (at level 100, m at next level, right associativity).
Notation "m ;; k" := (bind m (fun _ => k))
  (at level 100, right associativity).

Definition gets {A} (f : state -> A) : M A := fun s => Done (f s) s.
Definition modify (f : state -> state) : M unit := fun s => Done tt (f s).
Definition halt {A} (w : stop) : M A := fun s => Stop w s.
Definition assert (b : bool) : M unit :=
  if b then ret tt else halt AssertFail.
Definition when (b : bool) (m : M unit) : M unit :=
  if b then m else ret tt.

(** An event that cannot block and whose result the wrapper does not use. *)
Definition emit (e : event) : M unit :=
  modify (fun s => set_trace (st_trace s ++ [e]) s).

Definition answer (r : response) (s : state) : state :=
  let s1 := set_errno (default (st_errno s) (r_errno r)) s in
  set_turnCount (st_turnCount s1 + Z.of_nat (r_turns r)) s1.

(** A call that is answered by the script. *)
Definition call (e : event) : M Z := fun s =>
  let s1 := set_trace (st_trace s ++ [e]) s in
  match st_script s1 with
  | [] => Stop Pending s1
  | r :: rest => Done (r_ret r) (answer r (set_script rest s1))
  end.

(** [while] loops: the body answers [Some a] to leave the loop with [a].
    An iteration that goes round again has made a call, so one more round
    than the script has responses is always enough. *)
Fixpoint loop_n {A} (fuel : nat) (body : M (option A)) : M A :=
  match fuel with
  | O => halt Pending
  | S n => x <- body ;;
           match x with
           | Some a => ret a
           | None => loop_n n body
           end
  end.

Definition loop {A} (body : M (option A)) : M A := fun s =>
  loop_n (S (length (st_script s))) body s.

(** ** The scheduler interface [_S]

    record-scheduler.h is outside this file.  The calls during which the
    thread can block or errno can be written are answered by the script;
    [signal] only moves entries between the queues of the scheduler and
    is kept as an event. *)

Definition getTurn : M unit := call EvGetTurn ;; ret tt.
Definition putTurn (end_of_thread : bool) : M unit :=
  call (EvPutTurn end_of_thread) ;; ret tt.
Definition getTurnCount : M Z := gets st_turnCount.

(** Modelled from the spec: [incTurnCount] (record-scheduler.h) increments
    the global counter and returns the new value. *)
Definition incTurnCount : M Z :=
  emit EvIncTurnCount ;;
  modify (fun s => set_turnCount (st_turnCount s + 1) s) ;;
  gets st_turnCount.

Definition S_wait (chan : Z) (timeout : Z) : M Z := call (EvWait chan timeout).
Definition S_signal (chan : Z) (all : bool) : M unit :=
  emit (EvSignal chan all).
Definition block : M unit := call EvBlock ;; ret tt.
Definition wakeup : M unit := call EvWakeup ;; ret tt.
Definition interProStart : M bool :=
  r <- call EvInterProStart ;; ret (negb (r =? 0)).
Definition interProEnd : M bool :=
  r <- call EvInterProEnd ;; ret (negb (r =? 0)).
Definition idleThreadCondWait : M unit := call EvIdleThreadCondWait ;; ret tt.
Definition native (op : native_op) : M Z := call (EvNative op).

Section RecorderRT.

Context (opt : options).

(** template <typename _S> RecorderRT<_S>::wait and ::signal *)
Definition wait (chan : Z) (timeout : Z) : M Z := S_wait chan timeout.
Definition signal (chan : Z) (all : bool) : M unit := S_signal chan all.

(** ** Physical time to logical time *)

Definition MAX_REL : Z := 1000000.

Definition time2turn (nsec : Z) : M Z :=
  if negb (launch_idle_thread opt) then
    emit (EvWarn WARN_no_idle_thread) ;;
    halt (Exit 1)
  else
    let nsec := wrap_u64 nsec in
    let per := wrap_u64 (nanosec_per_turn opt) in
    if per =? 0 then halt DivByZero
    else
      let ret64 := nsec / per in
      ret (if ret64 >? MAX_REL then MAX_REL else wrap_s32 ret64).

Definition relTimeToTurn (reltime : option timespec) : M Z :=
  match reltime with
  | None => ret 0
  | Some t =>
      let ns := tv_sec t in
      let ns := wrap_s64 (wrap_s64 (ns * 1000000000) + tv_nsec t) in
      r <- time2turn ns ;;
      nthread <- gets st_nthread ;;
      let lower := wrap_s32 (5 * nthread + 1) in
      ret (if r <? lower then lower else r)
  end.

(** ** Taking and giving back the turn *)

(** [add_non_det_var] has an empty body in the source. *)
Definition add_non_det_var (var : Z) : M unit := ret tt.

Definition in_non_det : M bool :=
  nd <- gets st_inNonDet ;;
  ret (enforce_non_det_annotations opt && nd).

Definition count_non_det : M unit :=
  when (record_runtime_stat opt)
       (modify (fun s =>
                  set_nNonDetPthreadSync (st_nNonDetPthreadSync s + 1) s)).

(** The clock readings of [update_time] only feed the timing fields of a
    log record; those fields are left out of [EvLogSync]. *)
Definition sched_timer_start (log : bool) : M unit :=
  nd <- gets st_inNonDet ;;
  when (enforce_non_det_annotations opt) (assert (negb nd)) ;;
  getTurn ;;
  idle <- gets st_is_idle_th ;;
  when (record_runtime_stat opt && negb idle)
       (modify (fun s => set_nDetPthreadSyncOp (st_nDetPthreadSyncOp s + 1) s)).

Definition sched_timer_end_fh (log : bool) (ins : Z) (syncop : syncfunc)
    (args : list Z) : M unit :=
  if log then
    nturn <- incTurnCount ;;
    emit (EvLogSync ins syncop (wrap_u32 nturn) false args)
  else
    incTurnCount ;; ret tt.

Definition sched_timer_end (log : bool) (ins : Z) (syncop : syncfunc)
    (args : list Z) : M unit :=
  backup_errno <- gets st_errno ;;
  (if log then
     incTurnCount ;;
     turn <- getTurnCount ;;
     emit (EvLogSync ins syncop turn true args)
   else
     incTurnCount ;; ret tt) ;;
  putTurn false ;;
  modify (set_errno backup_errno).

Definition SCHED_GET_TURN : M unit := sched_timer_start (log_sync opt).
Definition SCHED_INC_TURN (ins : Z) (syncop : syncfunc) (args : list Z)
  : M unit := sched_timer_end_fh (log_sync opt) ins syncop args.
Definition SCHED_PUT_TURN (ins : Z) (syncop : syncfunc) (args : list Z)
  : M unit := sched_timer_end (log_sync opt) ins syncop args.

(** [BLOCK_TIMER_START] can return from the wrapper that uses it: the
    rest of the wrapper is its second argument. *)
Definition BLOCK_TIMER_START {A} (passthrough : M A) (rest : M A) : M A :=
  when (record_runtime_stat opt)
       (modify (fun s => set_nInterProcSyncOp (st_nInterProcSyncOp s + 1) s)) ;;
  nd <- in_non_det ;;
  if nd then passthrough
  else
    b <- interProStart ;;
    when b block ;;
    rest.

Definition BLOCK_TIMER_END : M unit :=
  backup_errno <- gets st_errno ;;
  b <- interProEnd ;;
  when b wakeup ;;
  modify (set_errno backup_errno).

(** ** The idle thread *)

Definition idle_cond_wait : M unit :=
  getTurn ;;
  turn <- incTurnCount ;;
  assert (wrap_s32 turn >=? 0) ;;
  runq <- gets st_runq ;;
  if Z.of_nat (length runq) >=? 2
  then idleThreadCondWait
  else putTurn false.

(** ** Mutex *)

(** One round of the [while] loop of [pthreadMutexLockHelper]. *)
Definition pthreadMutexLockHelper_body (mu : Z) (timeout : Z)
  : M (option Z) :=
  r <- native (pthread_mutex_trylock mu) ;;
  if r =? 0 then ret (Some 0)
  else
    assert (r =? EBUSY) ;;
    r <- wait mu timeout ;;
    if r =? ETIMEDOUT then ret (Some ETIMEDOUT) else ret None.

Definition pthreadMutexLockHelper (mu : Z) (timeout : Z) : M Z :=
  loop (pthreadMutexLockHelper_body mu timeout).

Definition errno_from_error : M unit :=
  e <- gets st_error ;; modify (set_errno e).
Definition error_from_errno : M unit :=
  e <- gets st_errno ;; modify (set_error e).

Definition pthreadMutexLock (ins : Z) (mu : Z) : M Z :=
  nd <- in_non_det ;;
  if nd then
    count_non_det ;;
    add_non_det_var mu ;;
    native (Runtime__pthread_mutex_lock mu)
  else
    SCHED_GET_TURN ;;
    errno_from_error ;;
    pthreadMutexLockHelper mu NO_TIMEOUT ;;
    error_from_errno ;;
    SCHED_PUT_TURN ins sf_pthread_mutex_lock [mu] ;;
    ret 0.

Definition pthreadMutexTryLock (ins : Z) (mu : Z) : M Z :=
  nd <- in_non_det ;;
  if nd then
    count_non_det ;;
    add_non_det_var mu ;;
    native (pthread_mutex_trylock mu)
  else
    SCHED_GET_TURN ;;
    errno_from_error ;;
    r <- native (pthread_mutex_trylock mu) ;;
    error_from_errno ;;
    assert ((r =? 0) || (r =? EBUSY)) ;;
    SCHED_PUT_TURN ins sf_pthread_mutex_trylock [mu; wrap_u64 r] ;;
    ret r.

Definition clock_gettime : M timespec :=
  emit (EvNative clock_gettime_REALTIME) ;; gets st_realtime.

(** The start of every timed wrapper: the time the deadline is measured
    from. *)
Definition base_or_now (f : syncfunc) : M timespec :=
  base <- gets st_my_base_time ;;
  if tv_sec base =? 0 then
    emit (EvWarn (WARN_non_det_timeout f)) ;;
    clock_gettime
  else ret (Timespec (tv_sec base) (tv_nsec base)).

Definition pthreadMutexTimedLock (ins : Z) (mu : Z)
    (abstime : option timespec) : M Z :=
  nd <- in_non_det ;;
  if nd then
    count_non_det ;;
    add_non_det_var mu ;;
    native (pthread_mutex_timedlock mu abstime)
  else
    match abstime with
    | None => pthreadMutexLock ins mu
    | Some abst =>
        cur_time <- base_or_now sf_pthread_mutex_timedlock ;;
        let rel_time := time_diff cur_time abst in
        SCHED_GET_TURN ;;
        tc <- getTurnCount ;;
        n <- relTimeToTurn (Some rel_time) ;;
        let timeout := wrap_u32 (tc + n) in
        errno_from_error ;;
        r <- pthreadMutexLockHelper mu timeout ;;
        error_from_errno ;;
        SCHED_PUT_TURN ins sf_pthread_mutex_timedlock [mu; wrap_u64 r] ;;
        ret r
    end.

Definition pthreadMutexUnlock (ins : Z) (mu : Z) : M Z :=
  nd <- in_non_det ;;
  if nd then
    count_non_det ;;
    add_non_det_var mu ;;
    native (Runtime__pthread_mutex_unlock mu)
  else
    SCHED_GET_TURN ;;
    errno_from_error ;;
    r <- native (pthread_mutex_unlock mu) ;;
    error_from_errno ;;
    assert (r =? 0) ;;
    signal mu false ;;
    SCHED_PUT_TURN ins sf_pthread_mutex_unlock [mu; wrap_u64 r] ;;
    ret r.

(** ** Read-write lock *)

Definition pthreadRWLockRdLockHelper (rwlock : Z) (timeout : Z) : M Z :=
  loop (r <- native (pthread_rwlock_tryrdlock rwlock) ;;
        if r =? 0 then ret (Some 0)
        else
          assert (r =? EBUSY) ;;
          r <- wait rwlock timeout ;;
          if r =? ETIMEDOUT then ret (Some ETIMEDOUT) else ret None).

Definition __pthread_rwlock_rdlock (ins : Z) (rwlock : Z) : M Z :=
  nd <- in_non_det ;;
  if nd then
    count_non_det ;;
    add_non_det_var rwlock ;;
    native (pthread_rwlock_rdlock rwlock)
  else
    SCHED_GET_TURN ;;
    errno_from_error ;;
    pthreadRWLockRdLockHelper rwlock NO_TIMEOUT ;;
    error_from_errno ;;
    SCHED_PUT_TURN ins sf_pthread_rwlock_rdlock [rwlock] ;;
    ret 0.

Definition __pthread_rwlock_tryrdlock (ins : Z) (rwlock : Z) : M Z :=
  nd <- in_non_det ;;
  if nd then
    count_non_det ;;
    add_non_det_var rwlock ;;
    native (pthread_rwlock_tryrdlock rwlock)
  else
    SCHED_GET_TURN ;;
    errno_from_error ;;
    r <- native (pthread_rwlock_trywrlock rwlock) ;;
    error_from_errno ;;
    SCHED_PUT_TURN ins sf_pthread_rwlock_tryrdlock [rwlock; wrap_u64 r] ;;
    ret r.

Definition __pthread_rwlock_trywrlock (ins : Z) (rwlock : Z) : M Z :=
  nd <- in_non_det ;;
  if nd then
    count_non_det ;;
    add_non_det_var rwlock ;;
    native (pthread_rwlock_trywrlock rwlock)
  else
    SCHED_GET_TURN ;;
    errno_from_error ;;
    r <- native (pthread_rwlock_trywrlock rwlock) ;;
    error_from_errno ;;
    SCHED_PUT_TURN ins sf_pthread_rwlock_trywrlock [rwlock; wrap_u64 r] ;;
    ret r.

(** ** Barrier *)

Definition pthreadBarrierInit (ins : Z) (barrier : Z) (cnt : Z) : M Z :=
  nd <- in_non_det ;;
  if nd then
    count_non_det ;;
    add_non_det_var barrier ;;
    native (pthread_barrier_init barrier cnt)
  else
    SCHED_GET_TURN ;;
    errno_from_error ;;
    r <- native (pthread_barrier_init barrier cnt) ;;
    error_from_errno ;;
    assert (r =? 0) ;;
    bs <- gets st_barriers ;;
    assert (bool_decide (bs !! barrier = None)) ;;
    modify (set_barriers (<[barrier := Barrier cnt 0]> bs)) ;;
    SCHED_PUT_TURN ins sf_pthread_barrier_init [barrier; cnt] ;;
    ret r.

Definition pthreadBarrierWait (ins : Z) (barrier : Z) : M Z :=
  nd <- in_non_det ;;
  if nd then
    count_non_det ;;
    add_non_det_var barrier ;;
    native (pthread_barrier_wait barrier)
  else
    SCHED_GET_TURN ;;
    SCHED_INC_TURN ins sf_pthread_barrier_wait [barrier] ;;
    bs <- gets st_barriers ;;
    match bs !! barrier with
    | None => halt AssertFail
    | Some b =>
        let b := Barrier (count b) (narrived b + 1) in
        modify (set_barriers (<[barrier := b]> bs)) ;;
        assert (narrived b <=? count b) ;;
        r <- (if count b =? narrived b then
                modify (set_barriers (<[barrier := Barrier (count b) 0]> bs)) ;;
                S_signal barrier true ;;
                putTurn false ;;
                getTurn ;;
                ret PTHREAD_BARRIER_SERIAL_THREAD
              else
                S_wait barrier NO_TIMEOUT ;;
                ret 0) ;;
        SCHED_PUT_TURN ins sf_pthread_barrier_wait [barrier] ;;
        ret r
    end.

(** ** Condition variable *)

Definition pthreadCondWait (ins : Z) (cv mu : Z) : M Z :=
  nd <- in_non_det ;;
  if nd then
    count_non_det ;;
    add_non_det_var cv ;;
    add_non_det_var mu ;;
    native (pthread_cond_wait cv mu)
  else
    SCHED_GET_TURN ;;
    native (pthread_mutex_unlock mu) ;;
    S_signal mu false ;;
    SCHED_INC_TURN ins sf_pthread_cond_wait [cv; mu] ;;
    S_wait cv NO_TIMEOUT ;;
    errno_from_error ;;
    pthreadMutexLockHelper mu NO_TIMEOUT ;;
    error_from_errno ;;
    SCHED_PUT_TURN ins sf_pthread_cond_wait [cv; mu] ;;
    ret 0.

Definition pthreadCondTimedWait (ins : Z) (cv mu : Z)
    (abstime : option timespec) : M Z :=
  match abstime with
  | None => pthreadCondWait ins cv mu
  | Some abst =>
      cur_time <- base_or_now sf_pthread_cond_timedwait ;;
      let rel_time := time_diff cur_time abst in
      nd <- in_non_det ;;
      if nd then
        count_non_det ;;
        add_non_det_var cv ;;
        add_non_det_var mu ;;
        native (pthread_cond_timedwait cv mu abstime)
      else
        SCHED_GET_TURN ;;
        native (pthread_mutex_unlock mu) ;;
        SCHED_INC_TURN ins sf_pthread_cond_timedwait [cv; mu; 0] ;;
        S_signal mu false ;;
        nTurns <- relTimeToTurn (Some rel_time) ;;
        let nTurns := wrap_u32 nTurns in
        tc <- getTurnCount ;;
        let timeout := wrap_u32 (tc + nTurns) in
        r <- S_wait cv timeout ;;
        let saved_ret := r in
        errno_from_error ;;
        pthreadMutexLockHelper mu NO_TIMEOUT ;;
        error_from_errno ;;
        SCHED_PUT_TURN ins sf_pthread_cond_timedwait
                       [cv; mu; wrap_u64 saved_ret] ;;
        ret saved_ret
  end.

(** ** Semaphore *)

Definition semWait (ins : Z) (sem : Z) : M Z :=
  nd <- in_non_det ;;
  if nd then
    count_non_det ;;
    add_non_det_var sem ;;
    native (Runtime__sem_wait sem)
  else
    SCHED_GET_TURN ;;
    loop (r <- native (sem_trywait sem) ;;
          if r =? 0 then ret (Some tt)
          else
            e <- gets st_errno ;;
            assert (e =? EAGAIN) ;;
            wait sem NO_TIMEOUT ;;
            ret None) ;;
    SCHED_PUT_TURN ins sf_sem_wait [sem] ;;
    ret 0.

(** One round of the [while] loop of [semTimedWait]; it leaves the loop
    with the pair ([ret], [saved_err]). *)
Definition semTimedWait_body (sem : Z) (timeout : Z) : M (option (Z * Z)) :=
  r <- native (sem_trywait sem) ;;
  if r =? 0 then ret (Some (r, 0))
  else
    e <- gets st_errno ;;
    assert (e =? EAGAIN) ;;
    r <- S_wait sem timeout ;;
    if r =? ETIMEDOUT then
      modify (set_error ETIMEDOUT) ;;
      ret (Some (-1, ETIMEDOUT))
    else ret None.

Definition semTimedWait (ins : Z) (sem : Z) (abstime : option timespec)
  : M Z :=
  nd <- in_non_det ;;
  if nd then
    count_non_det ;;
    add_non_det_var sem ;;
    native (sem_timedwait sem abstime)
  else
    match abstime with
    | None => semWait ins sem
    | Some abst =>
        cur_time <- base_or_now sf_sem_timedwait ;;
        let rel_time := time_diff cur_time abst in
        SCHED_GET_TURN ;;
        tc <- getTurnCount ;;
        n <- relTimeToTurn (Some rel_time) ;;
        let timeout := wrap_u32 (tc + n) in
        out <- loop (semTimedWait_body sem timeout) ;;
        let r := fst out in
        let saved_err := snd out in
        SCHED_PUT_TURN ins sf_sem_timedwait [sem; wrap_u64 r] ;;
        modify (set_errno saved_err) ;;
        ret r
    end.

Definition semPost (ins : Z) (sem : Z) : M Z :=
  nd <- in_non_det ;;
  if nd then
    count_non_det ;;
    add_non_det_var sem ;;
    native (Runtime__sem_post sem)
  else
    SCHED_GET_TURN ;;
    r <- native (sem_post sem) ;;
    assert (r =? 0) ;;
    signal sem false ;;
    SCHED_PUT_TURN ins sf_sem_post [sem; wrap_u64 r] ;;
    ret 0.

(** ** Calls that may block outside the process *)

Definition __recv (ins : Z) (sockfd len flags : Z) : M Z :=
  BLOCK_TIMER_START (native (Runtime__recv sockfd len flags))
    (r <- native (Runtime__recv sockfd len flags) ;;
     BLOCK_TIMER_END ;;
     ret r).

End RecorderRT.

(** ** Observations on a run *)

Definition final_state {A} (o : outcome A) : state :=
  match o with Done _ s => s | Stop _ s => s end.

(** The events a run adds to the trace of the state it starts from. *)
Definition new_events {A} (s : state) (o : outcome A) : list event :=
  drop (length (st_trace s)) (st_trace (final_state o)).

Definition proceeds {A} (o : outcome A) : Prop := exists a s, o = Done a s.

(** A thread is in a deterministic region when the non-det branch at the
    head of every wrapper is not taken. *)
Definition det_region (opt : options) (s : state) : Prop :=
  enforce_non_det_annotations opt && st_inNonDet s = false.

(** The calls into the scheduler that move threads between queues. *)
Definition is_sched (e : event) : bool :=
  match e with
  | EvGetTurn | EvPutTurn _ | EvWait _ _ | EvSignal _ _ | EvBlock
  | EvWakeup | EvIdleThreadCondWait => true
  | _ => false
  end.

(** Every [signal] of a trace is issued between a [getTurn] and the next
    [putTurn] of the thread; [held] says whether the thread holds the turn
    where the trace starts. *)
Fixpoint signals_under_turn (held : bool) (tr : list event) : bool :=
  match tr with
  | [] => true
  | EvGetTurn :: tr => signals_under_turn true tr
  | EvPutTurn _ :: tr => signals_under_turn false tr
  | EvSignal _ _ :: tr => held && signals_under_turn held tr
  | _ :: tr => signals_under_turn held tr
  end.

(** ** Several threads

    The fields of [state] that belong to one thread; the rest is shared. *)
Record thread_local : Type := ThreadLocal {
  tl_errno : Z;
  tl_error : Z;
  tl_inNonDet : bool;
  tl_my_base_time : timespec;
  tl_is_idle_th : bool;
  tl_script : list response
}.

Definition switch_to (t : thread_local) (s : state) : state :=
  State (tl_errno t) (tl_error t) (tl_inNonDet t) (tl_my_base_time t)
        (st_realtime s) (tl_is_idle_th t) (st_turnCount s) (st_runq s)
        (st_nthread s) (st_barriers s) (st_nDetPthreadSyncOp s)
        (st_nNonDetPthreadSync s) (st_nInterProcSyncOp s) (st_trace s)
        (tl_script t).

(** The calls of the list are made one after the other, each by its
    thread and on the shared state the previous one left: the order in
    which the threads take the turn.  A call that waits is run to its end
    before the next one starts; this leaves the shared tables as the real
    interleaving does as long as the wrapper does not touch them after its
    wait, which holds for the wrappers used with it below
    ([pthreadBarrierWait], [pthreadMutexUnlock]).  The result pairs what
    each call returned with the scheduler calls it made. *)
Fixpoint in_turn_order (calls : list (thread_local * M Z)) (s : state)
  : option (list (Z * list event) * state) :=
  match calls with
  | [] => Some ([], s)
  | (t, w) :: calls =>
      let s0 := switch_to t s in
      match w s0 with
      | Done r s1 =>
          match in_turn_order calls s1 with
          | Some (rs, s2) =>
              Some ((r, filter (fun e => is_sched e = true)
                               (new_events s0 (Done r s1))) :: rs, s2)
          | None => None
          end
      | Stop _ _ => None
      end
  end.

Definition all_call (w : M Z) (threads : list thread_local)
  : list (thread_local * M Z) := map (fun t => (t, w)) threads.

(** ** The relative-time conversion as the spec words it *)

Definition clamp (x lo hi : Z) : Z := Z.max lo (Z.min x hi).

Definition spec_turns (per nthread ns : Z) : Z :=
  clamp (ns `quot` per) (5 * nthread + 1) 1000000.

(** ** Scripts

    [after_call e s] is the state in which the call [e] returns (or, on an
    empty script, stays pending). *)
Definition after_call (e : event) (s : state) : state := final_state (call e s).

(** A round of a lock loop: the try-operation, then the wait. *)
Definition after_round (try_op : native_op) (chan timeout : Z) (s : state)
  : state := after_call (EvWait chan timeout) (after_call (EvNative try_op) s).

Fixpoint after_rounds (n : nat) (try_op : native_op) (chan timeout : Z)
    (s : state) : state :=
  match n with
  | O => s
  | S n => after_rounds n try_op chan timeout
             (after_round try_op chan timeout s)
  end.

(** The responses of a round after which the loop goes round again: the
    mutex is busy, the wait does not time out. *)
Definition mutex_retry (p : response * response) : Prop :=
  r_ret (fst p) = EBUSY /\ r_ret (snd p) <> ETIMEDOUT.

(** The same for a semaphore: [sem_trywait] fails with [EAGAIN]. *)
Definition sem_retry (p : response * response) : Prop :=
  r_ret (fst p) <> 0 /\ r_errno (fst p) = Some EAGAIN
  /\ r_ret (snd p) <> ETIMEDOUT.

Definition flat (rounds : list (response * response)) : list response :=
  flat_map (fun p => [fst p; snd p]) rounds.

(** The native try-operations among the events of a trace. *)
Definition is_try (e : event) : bool :=
  match e with
  | EvNative (pthread_mutex_trylock _) | EvNative (sem_trywait _)
  | EvNative (pthread_rwlock_tryrdlock _)
  | EvNative (pthread_rwlock_trywrlock _) => true
  | _ => false
  end.

Fixpoint tries (tr : list event) : nat :=
  match tr with
  | [] => 0
  | e :: tr => ((if is_try e then 1 else 0) + tries tr)%nat
  end.

(** The time a timed wrapper measures its deadline from, and what it
    adds to the trace to find it. *)
Definition measured_from (s : state) : timespec :=
  if tv_sec (st_my_base_time s) =? 0 then st_realtime s
  else st_my_base_time s.

Definition base_events (f : syncfunc) (s : state) : list event :=
  if tv_sec (st_my_base_time s) =? 0
  then [EvWarn (WARN_non_det_timeout f); EvNative clock_gettime_REALTIME]
  else [].

(** The events of a lock loop that goes round [n] times and then ends
    with a try-operation that succeeds ([locked]) or with one more round,
    whose wait times out. *)
Definition lock_events (try_op : native_op) (chan timeout : Z) (n : nat)
    (locked : bool) : list event :=
  mjoin (replicate n [EvNative try_op; EvWait chan timeout])
  ++ (if locked then [EvNative try_op]
      else [EvNative try_op; EvWait chan timeout]).

(** What [SCHED_INC_TURN] and [SCHED_PUT_TURN] add to the trace before
    the turn is given back. *)
Definition inc_events (opt : options) (ins : Z) (op : syncfunc)
    (turn : Z) (second_half : bool) (args : list Z) : list event :=
  EvIncTurnCount ::
  (if log_sync opt then [EvLogSync ins op turn second_half args] else []).

(** [post s s' evs rest]: the step from [s] to [s'] added [evs] to the
    trace, left [rest] of the script and did not touch the barriers. *)
Definition post (s s' : state) (evs : list event) (rest : list response)
  : Prop :=
  st_trace s' = st_trace s ++ evs
  /\ st_script s' = rest
  /\ st_barriers s' = st_barriers s.

(** The scheduler calls of a thread that waits at a barrier, and of the
    one that releases it. *)
Definition waiter_calls (barrier : Z) : list event :=
  [EvGetTurn; EvWait barrier NO_TIMEOUT; EvPutTurn false].

Definition releaser_calls (barrier : Z) : list event :=
  [EvGetTurn; EvSignal barrier true; EvPutTurn false; EvGetTurn;
   EvPutTurn false].

Definition det_thread (opt : options) (t : thread_local) : Prop :=
  enforce_non_det_annotations opt && tl_inNonDet t = false.

(** A thread whose calls all return: a barrier wait makes at most four. *)
Definition answered (t : thread_local) : Prop :=
  (4 <= length (tl_script t))%nat.

(** A loop body advances when each round that goes round again consumes
    a response. *)
Definition advances {A} (body : M (option A)) : Prop :=
  forall s s', body s = Done None s' ->
    (length (st_script s') < length (st_script s))%nat.

(** The events of a release ([pthreadMutexUnlock], [semPost]) that goes
    through, and the scheduler calls among them. *)
Definition release_events (opt : options) (ins : Z) (f : syncfunc)
    (op : native_op) (chan : Z) (turn : Z) : list event :=
  EvGetTurn :: EvNative op :: EvSignal chan false
  :: inc_events opt ins f turn true [chan; wrap_u64 0] ++ [EvPutTurn false].

Definition release_calls (chan : Z) : list event :=
  [EvGetTurn; EvSignal chan false; EvPutTurn false].

(** A thread whose release goes through: the three calls it makes return
    and the native release succeeds. *)
Definition releases (t : thread_local) : Prop :=
  exists rg rn rp rest, tl_script t = rg :: rn :: rp :: rest /\ r_ret rn = 0.

(** What a timed wrapper adds to the trace when no base time is set. *)
Definition no_base_events (f : syncfunc) : list event :=
  [EvWarn (WARN_non_det_timeout f); EvNative clock_gettime_REALTIME].

(** ** Example configurations *)

(** Logging on, idle thread on, 1000 ns per turn, annotations enforced. *)
Definition opt_1000 : options := Options true true 1000 true false true false.

(** The same without the idle thread. *)
Definition opt_no_idle : options :=
  Options true false 1000 true false true false.

(** A response that returns [v] and leaves errno and the turn count alone. *)
Definition quiet (v : Z) : response := Response v None 0.

(** One program thread and the idle thread in the run queue, base time
    100 s, wall clock 100.3 s, turn count 10. *)
Definition one_thread (script : list response) : state :=
  State 0 0 false (Timespec 100 0) (Timespec 100 300000000) false
        10 [0; 1] 1 ∅ 0 0 0 [] script.

(** The same with no base time set and the wall clock at 100 s. *)
Definition no_base_time (script : list response) : state :=
  State 0 0 false (Timespec 0 0) (Timespec 100 0) false
        10 [0; 1] 1 ∅ 0 0 0 [] script.

(** The idle thread (tid 1) alone in the run queue. *)
Definition idle_alone : state :=
  State 0 0 false (Timespec 0 0) (Timespec 100 0) true
        10 [1] 2 ∅ 0 0 0 [] [quiet 0; quiet 0].

Definition three_answers : thread_local :=
  ThreadLocal 0 0 false (Timespec 0 0) false [quiet 0; quiet 0; quiet 0].

Definition four_answers : thread_local :=
  ThreadLocal 0 0 false (Timespec 0 0) false
              [quiet 0; quiet 0; quiet 0; quiet 0].

Definition barrier_of_3 : state :=
  set_barriers {[ 55 := Barrier 3 0 ]} (one_thread []).

Definition errno_is_5 : state :=
  set_errno 5 (one_thread [quiet 0; quiet 0; quiet 0]).

(** errno is 5; the one call of the script sets it to 99. *)
Definition putTurn_clobbers_errno : state :=
  set_errno 5 (one_thread [Response 0 (Some 99) 3]).

(** ** Time, measured in nanoseconds *)

Definition ns_of (t : timespec) : Z := tv_sec t * 1000000000 + tv_nsec t.

(** A [timespec] as the C library hands it out. *)
Definition normalized (t : timespec) : Prop := 0 <= tv_nsec t < 1000000000.

(** ** The log records (recorder/logdefs.h) *)

Definition wrap_s16 (z : Z) : Z := (z + 2 ^ 15) mod 2 ^ 16 - 2 ^ 15.
Arguments wrap_s16 : simpl never.

Definition INSID_BITS : Z := 29.
Definition MAX_INLINE_ARGS : Z := 2.
Definition MAX_EXTRA_ARGS : Z := 3.
Definition INVALID_INSID : Z := wrap_u32 (-1).

Definition InsidRecTy : Z := 0.
Definition LoadRecTy : Z := 1.
Definition StoreRecTy : Z := 2.
Definition CallRecTy : Z := 3.
Definition ExtraArgsRecTy : Z := 4.
Definition ReturnRecTy : Z := 5.
Definition SyncRecTy : Z := 6.

Definition MAX_INSID : Z := Z.shiftl 1 INSID_BITS.
Definition INVALID_INSID_IN_REC : Z :=
  Z.land INVALID_INSID (Z.shiftl 1 INSID_BITS - 1).

(** [struct InsidRec]: two bit fields of 29 and 3 bits. *)
Record InsidRec : Type := mkInsidRec { insid : Z; type : Z }.

Definition validInsid (r : InsidRec) : bool :=
  negb (insid r =? INVALID_INSID_IN_REC).

Definition getInsid (r : InsidRec) : Z :=
  if validInsid r then insid r else INVALID_INSID.

(** [None]: the assertion fails. *)
Definition setInsid (id : Z) (r : InsidRec) : option InsidRec :=
  let id := if id =? INVALID_INSID then INVALID_INSID_IN_REC else id in
  if id <? MAX_INSID
  then Some (mkInsidRec (id mod 2 ^ INSID_BITS) (type r))
  else None.

(** The enumerators are unsigned, so the arithmetic is done on 32-bit
    unsigned numbers and the quotient is converted back to [int]. *)
Definition NumExtraArgsRecords (narg : Z) : Z :=
  wrap_s32
    (wrap_u32 (wrap_u32 (wrap_u32 (wrap_u32 narg - MAX_INLINE_ARGS)
                         + MAX_EXTRA_ARGS) - 1)
     / MAX_EXTRA_ARGS).

Definition NumSyncArgs (sync : syncfunc) : Z :=
  match sync with sf_pthread_cond_wait => 2 | _ => 1 end.

Definition NumRecordsForSync (sync : syncfunc) : Z :=
  match sync with
  | sf_pthread_cond_wait | sf_pthread_barrier_wait
  | sf_pthread_cond_timedwait => 2
  | _ => 1
  end.

(** [struct CallRecPrefix], the head of the records of a logged call. *)
Record CallRecPrefix : Type := mkCallRecPrefix {
  insidRec : InsidRec;
  flags : Z;
  seq : Z;
  narg : Z
}.

Definition CallRec_numArgsInRec (r : CallRecPrefix) : Z :=
  Z.min (narg r) (wrap_s16 MAX_INLINE_ARGS).

Definition ExtraArgsRec_numArgsInRec (r : CallRecPrefix) : Z :=
  let rec_narg :=
    wrap_s16 (wrap_u32 (wrap_u32 (wrap_u32 (narg r) - MAX_INLINE_ARGS)
                        - wrap_u32 (wrap_u32 (seq r - 1) * MAX_EXTRA_ARGS)))
  in Z.min rec_narg (wrap_s16 MAX_EXTRA_ARGS).

(** The extra records of one logged call with [n] arguments, as
    [numArgsInRec] reads them: each carries the [narg] of the call, and
    they are numbered from 1 in the 8-bit field [seq]. *)
Definition extra_recs (p : InsidRec) (fl n : Z) : list CallRecPrefix :=
  map (fun i => mkCallRecPrefix p fl (i mod 2 ^ 8) n)
      (seqZ 1 (NumExtraArgsRecords n)).

Definition sumZ (l : list Z) : Z := foldr Z.add 0 l.

(** ** More wrappers of [RecorderRT<_S>] *)

Section RecorderRT_more.

Context (opt : options).

(** The advance of the clock when all threads are blocked. *)
Definition idle_sleep : M unit :=
  getTurn ;;
  turn <- incTurnCount ;;
  let turn := wrap_s32 turn in
  assert (turn >=? 0) ;;
  when (log_sync opt) (emit (EvLogSync 0 sf_tern_idle turn true [])) ;;
  putTurn false.

Definition __pthread_rwlock_unlock (ins : Z) (rwlock : Z) : M Z :=
  nd <- in_non_det opt ;;
  if nd then
    count_non_det opt ;;
    add_non_det_var rwlock ;;
    native (pthread_rwlock_unlock rwlock)
  else
    SCHED_GET_TURN opt ;;
    errno_from_error ;;
    r <- native (pthread_rwlock_unlock rwlock) ;;
    error_from_errno ;;
    signal rwlock false ;;
    SCHED_PUT_TURN opt ins sf_pthread_rwlock_unlock [rwlock; wrap_u64 r] ;;
    ret r.

Definition semTryWait (ins : Z) (sem : Z) : M Z :=
  nd <- in_non_det opt ;;
  if nd then
    count_non_det opt ;;
    add_non_det_var sem ;;
    native (sem_trywait sem)
  else
    SCHED_GET_TURN opt ;;
    errno_from_error ;;
    r <- native (sem_trywait sem) ;;
    error_from_errno ;;
    (if negb (r =? 0) then
       e <- gets st_errno ;;
       assert (e =? EAGAIN)
     else ret tt) ;;
    SCHED_PUT_TURN opt ins sf_sem_trywait [sem; wrap_u64 r] ;;
    ret r.

(** The end of a thread: as [sched_timer_end], but the turn is given
    back for good. *)
Definition sched_thread_end (log : bool) (ins : Z) (syncop : syncfunc)
    (th : Z) : M unit :=
  backup_errno <- gets st_errno ;;
  (if log then
     incTurnCount ;;
     turn <- getTurnCount ;;
     emit (EvLogSync ins syncop turn true [th])
   else
     incTurnCount ;; ret tt) ;;
  putTurn true ;;
  modify (set_errno backup_errno).

Definition pthreadRWLockWrLockHelper (rwlock : Z) (timeout : Z) : M Z :=
  loop (r <- native (pthread_rwlock_trywrlock rwlock) ;;
        if r =? 0 then ret (Some 0)
        else
          assert (r =? EBUSY) ;;
          r <- wait rwlock timeout ;;
          if r =? ETIMEDOUT then ret (Some ETIMEDOUT) else ret None).

End RecorderRT_more.

(** The three helpers that take a lock, and the try-operation of each. *)
Inductive lock_helper : Type :=
| Helper_mutex | Helper_rdlock | Helper_wrlock.

Definition run_helper (h : lock_helper) (obj timeout : Z) : M Z :=
  match h with
  | Helper_mutex => pthreadMutexLockHelper obj timeout
  | Helper_rdlock => pthreadRWLockRdLockHelper obj timeout
  | Helper_wrlock => pthreadRWLockWrLockHelper obj timeout
  end.

Definition try_op_of (h : lock_helper) (obj : Z) : native_op :=
  match h with
  | Helper_mutex => pthread_mutex_trylock obj
  | Helper_rdlock => pthread_rwlock_tryrdlock obj
  | Helper_wrlock => pthread_rwlock_trywrlock obj
  end.

(** One round of the [while] loop of a lock helper, for any
    try-operation. *)
Definition lock_round (try_op : native_op) (chan timeout : Z)
  : M (option Z) :=
  r <- native try_op ;;
  if r =? 0 then ret (Some 0)
  else
    assert (r =? EBUSY) ;;
    r <- wait chan timeout ;;
    if r =? ETIMEDOUT then ret (Some ETIMEDOUT) else ret None.

(** One round of the [while] loop of [semWait]. *)
Definition semWait_body (sem : Z) : M (option unit) :=
  r <- native (sem_trywait sem) ;;
  if r =? 0 then ret (Some tt)
  else
    e <- gets st_errno ;;
    assert (e =? EAGAIN) ;;
    wait sem NO_TIMEOUT ;;
    ret None.

(** The responses of a round of [semWait] that finds the semaphore
    taken; the wait that follows may answer anything. *)
Definition sem_busy (p : response * response) : Prop :=
  r_ret (fst p) <> 0 /\ r_errno (fst p) = Some EAGAIN.

(** ** Protocols on traces

    A protocol is an automaton that reads the events of a thread;
    [accepts step q evs] is the state it ends in, if it does not get
    stuck. *)

Section Protocol.

Context {Q : Type} (step : Q -> event -> option Q).

Fixpoint accepts (q : Q) (evs : list event) : option Q :=
  match evs with
  | [] => Some q
  | e :: evs =>
      match step q e with
      | Some q' => accepts q' evs
      | None => None
      end
  end.

(** [obeys nd m q q']: run by a thread whose [inNonDet] flag is [nd],
    with the automaton in [q], [m] adds to the trace only events the
    automaton accepts, whether the run returns, stops or stays pending;
    a run that returns leaves the automaton in [q'] and the flag as it
    was. *)
Definition obeys {A} (nd : bool) (m : M A) (q q' : Q) : Prop :=
  forall s, st_inNonDet s = nd ->
    exists evs qf,
      st_trace (final_state (m s)) = st_trace s ++ evs
      /\ accepts q evs = Some qf
      /\ forall a s', m s = Done a s' -> qf = q' /\ st_inNonDet s' = nd.

End Protocol.

(** The native calls in which a thread can block. *)
Definition may_block (op : native_op) : bool :=
  match op with
  | pthread_mutex_timedlock _ _ | pthread_rwlock_rdlock _
  | pthread_barrier_wait _ | pthread_cond_wait _ _
  | pthread_cond_timedwait _ _ _ | sem_timedwait _ _
  | Runtime__pthread_mutex_lock _ | Runtime__sem_wait _
  | Runtime__recv _ _ _ => true
  | _ => false
  end.

(** The protocol of the turn.  The state says whether the thread is
    under the turn: between a [getTurn] of its own and the call that
    gives the turn back, [putTurn] or, for the idle thread,
    [idleThreadCondWait].  [getTurn] and [putTurn] alternate; the turn
    count, the log and the wait queues are touched under the turn only;
    under the turn the thread makes no native call that can block, and
    does not enter or leave a call that blocks outside the process. *)
Definition turn_step (held : bool) (e : event) : option bool :=
  match e with
  | EvGetTurn => if held then None else Some true
  | EvPutTurn _ | EvIdleThreadCondWait => if held then Some false else None
  | EvIncTurnCount | EvWait _ _ | EvSignal _ _ | EvLogSync _ _ _ _ _ =>
      if held then Some true else None
  | EvBlock | EvWakeup | EvInterProStart | EvInterProEnd =>
      if held then None else Some false
  | EvNative op => if held && may_block op then None else Some held
  | EvWarn _ => Some held
  end.

Definition keeps_turn_protocol {A} (m : M A) : Prop :=
  forall s, exists held,
    accepts turn_step false (new_events s (m s)) = Some held
    /\ (proceeds (m s) -> held = false).

(** The calls of a program thread into the runtime that take the turn. *)
Inductive sync_call : Type :=
| Call_pthreadMutexLock (mu : Z)
| Call_pthreadMutexTryLock (mu : Z)
| Call_pthreadMutexTimedLock (mu : Z) (abstime : option timespec)
| Call_pthreadMutexUnlock (mu : Z)
| Call_pthread_rwlock_rdlock (rwlock : Z)
| Call_pthread_rwlock_tryrdlock (rwlock : Z)
| Call_pthread_rwlock_trywrlock (rwlock : Z)
| Call_pthread_rwlock_unlock (rwlock : Z)
| Call_pthreadBarrierInit (barrier : Z) (cnt : Z)
| Call_pthreadBarrierWait (barrier : Z)
| Call_pthreadCondWait (cv mu : Z)
| Call_pthreadCondTimedWait (cv mu : Z) (abstime : option timespec)
| Call_semWait (sem : Z)
| Call_semTryWait (sem : Z)
| Call_semTimedWait (sem : Z) (abstime : option timespec)
| Call_semPost (sem : Z).

Definition run_call (opt : options) (ins : Z) (c : sync_call) : M Z :=
  match c with
  | Call_pthreadMutexLock mu => pthreadMutexLock opt ins mu
  | Call_pthreadMutexTryLock mu => pthreadMutexTryLock opt ins mu
  | Call_pthreadMutexTimedLock mu abstime =>
      pthreadMutexTimedLock opt ins mu abstime
  | Call_pthreadMutexUnlock mu => pthreadMutexUnlock opt ins mu
  | Call_pthread_rwlock_rdlock rwlock => __pthread_rwlock_rdlock opt ins rwlock
  | Call_pthread_rwlock_tryrdlock rwlock =>
      __pthread_rwlock_tryrdlock opt ins rwlock
  | Call_pthread_rwlock_trywrlock rwlock =>
      __pthread_rwlock_trywrlock opt ins rwlock
  | Call_pthread_rwlock_unlock rwlock => __pthread_rwlock_unlock opt ins rwlock
  | Call_pthreadBarrierInit barrier cnt =>
      pthreadBarrierInit opt ins barrier cnt
  | Call_pthreadBarrierWait barrier => pthreadBarrierWait opt ins barrier
  | Call_pthreadCondWait cv mu => pthreadCondWait opt ins cv mu
  | Call_pthreadCondTimedWait cv mu abstime =>
      pthreadCondTimedWait opt ins cv mu abstime
  | Call_semWait sem => semWait opt ins sem
  | Call_semTryWait sem => semTryWait opt ins sem
  | Call_semTimedWait sem abstime => semTimedWait opt ins sem abstime
  | Call_semPost sem => semPost opt ins sem
  end.

(** The op code a call is logged under: a timed call without a deadline
    is handed to the untimed wrapper. *)
Definition logged_as (c : sync_call) : syncfunc :=
  match c with
  | Call_pthreadMutexLock _ => sf_pthread_mutex_lock
  | Call_pthreadMutexTryLock _ => sf_pthread_mutex_trylock
  | Call_pthreadMutexTimedLock _ None => sf_pthread_mutex_lock
  | Call_pthreadMutexTimedLock _ (Some _) => sf_pthread_mutex_timedlock
  | Call_pthreadMutexUnlock _ => sf_pthread_mutex_unlock
  | Call_pthread_rwlock_rdlock _ => sf_pthread_rwlock_rdlock
  | Call_pthread_rwlock_tryrdlock _ => sf_pthread_rwlock_tryrdlock
  | Call_pthread_rwlock_trywrlock _ => sf_pthread_rwlock_trywrlock
  | Call_pthread_rwlock_unlock _ => sf_pthread_rwlock_unlock
  | Call_pthreadBarrierInit _ _ => sf_pthread_barrier_init
  | Call_pthreadBarrierWait _ => sf_pthread_barrier_wait
  | Call_pthreadCondWait _ _ => sf_pthread_cond_wait
  | Call_pthreadCondTimedWait _ _ None => sf_pthread_cond_wait
  | Call_pthreadCondTimedWait _ _ (Some _) => sf_pthread_cond_timedwait
  | Call_semWait _ => sf_sem_wait
  | Call_semTryWait _ => sf_sem_trywait
  | Call_semTimedWait _ None => sf_sem_wait
  | Call_semTimedWait _ (Some _) => sf_sem_timedwait
  | Call_semPost _ => sf_sem_post
  end.

#[global] Instance syncfunc_eq_dec : EqDecision syncfunc.
Proof. solve_decision. Defined.

(** The log records among the events of a trace: op code and
    [second_half] flag. *)
Definition log_records (evs : list event) : list (syncfunc * bool) :=
  omap (fun e => match e with
                 | EvLogSync _ op _ h _ => Some (op, h)
                 | _ => None
                 end) evs.

(** The records [NumRecordsForSync] announces for an op code. *)
Definition records_of (op : syncfunc) : list (syncfunc * bool) :=
  (if NumRecordsForSync op =? 2 then [(op, false)] else []) ++ [(op, true)].

(** The automaton that reads the records it expects, in order. *)
Definition log_step (q : list (syncfunc * bool)) (e : event)
  : option (list (syncfunc * bool)) :=
  match e with
  | EvLogSync _ op _ h _ =>
      match q with
      | r :: q' => if bool_decide ((op, h) = r) then Some q' else None
      | [] => None
      end
  | _ => Some q
  end.

(** The events at which a thread can be held up: a wait on a channel of
    the scheduler, leaving the run queue, or a native call that blocks. *)
Definition can_block (e : event) : bool :=
  match e with
  | EvWait _ _ | EvBlock | EvIdleThreadCondWait => true
  | EvNative op => may_block op
  | _ => false
  end.

Definition free_step (q : unit) (e : event) : option unit :=
  if can_block e then None else Some tt.

(** The try-operations, the releases and the barrier set-up. *)
Definition nonblocking_call (c : sync_call) : bool :=
  match c with
  | Call_pthreadMutexTryLock _ | Call_pthreadMutexUnlock _
  | Call_pthread_rwlock_tryrdlock _ | Call_pthread_rwlock_trywrlock _
  | Call_pthread_rwlock_unlock _ | Call_pthreadBarrierInit _ _
  | Call_semTryWait _ | Call_semPost _ => true
  | _ => false
  end.

(** The protocol of a pass-through: one native call, before it at most
    the warning and the clock reading of a timed wrapper, and no call
    into the scheduler or the log.  The state says whether the native
    call has been made. *)
Definition passthrough_step (made : bool) (e : event) : option bool :=
  match e with
  | EvWarn _ => Some made
  | EvNative clock_gettime_REALTIME => if made then None else Some false
  | EvNative _ => if made then None else Some true
  | _ => None
  end.

(** A thread is in a non-deterministic region when the branch at the
    head of every wrapper is taken. *)
Definition non_det_region (opt : options) (s : state) : Prop :=
  enforce_non_det_annotations opt && st_inNonDet s = true.

Definition is_native (e : event) : bool :=
  match e with
  | EvNative clock_gettime_REALTIME => false
  | EvNative _ => true
  | _ => false
  end.

Fixpoint natives (tr : list event) : nat :=
  match tr with
  | [] => 0
  | e :: tr => ((if is_native e then 1 else 0) + natives tr)%nat
  end.

(** A run that is a pass-through: no call into the scheduler, no log
    record and, if it returns, exactly one native call. *)
Definition passes_through {A} (s : state) (m : M A) : Prop :=
  let evs := new_events s (m s) in
  Forall (fun e => is_sched e = false) evs
  /\ log_records evs = []
  /\ (proceeds (m s) -> natives evs = 1%nat).

(** The events of a call that blocks outside the process: [blocked]
    and [woken] are the answers of [interProStart] and [interProEnd]. *)
Definition block_events (op : native_op) (blocked woken : bool)
  : list event :=
  EvInterProStart :: (if blocked then [EvBlock] else [])
  ++ EvNative op :: EvInterProEnd :: (if woken then [EvWakeup] else []).

(** The script that answers them. *)
Definition block_script (r1 rb rn r2 rw : response) (rest : list response)
  : list response :=
  r1 :: (if negb (r_ret r1 =? 0) then [rb] else [])
  ++ rn :: r2 :: (if negb (r_ret r2 =? 0) then [rw] else []) ++ rest.

(** The turns a thread takes: its calls of [incTurnCount]. *)
Fixpoint turns_taken (tr : list event) : nat :=
  match tr with
  | [] => 0
  | EvIncTurnCount :: tr => S (turns_taken tr)
  | _ :: tr => turns_taken tr
  end.

(** The automaton that counts them down. *)
Definition inc_step (q : nat) (e : event) : option nat :=
  match e with
  | EvIncTurnCount => match q with S q' => Some q' | O => None end
  | _ => Some q
  end.

(** A log record carries the arguments the log format keeps for its op
    code. *)
Definition enough_args (e : event) : bool :=
  match e with
  | EvLogSync _ op _ _ args => NumSyncArgs op <=? Z.of_nat (length args)
  | _ => true
  end.

Definition args_step (q : unit) (e : event) : option unit :=
  if enough_args e then Some tt else None.

(** ** Runs that are held up

    [settles m]: a run of [m] that has neither returned nor stopped the
    process is inside a call the environment has not answered, and every
    answer of the script has been used: no loop of [m] goes round
    without making a call. *)
Definition settles {A} (m : M A) : Prop :=
  forall s s', m s = Stop Pending s' -> st_script s' = [].

(** ** The wrappers specialised for [RecordSerializer]

    The scheduler that only records the order in which the operations
    happen.  The specialisations have no branch for non-det regions, and
    their waits on a condition variable use the native condition
    variable with the lock of the scheduler, [getLock]. *)

Module RecordSerializer.
Section RecorderRT.

Context (opt : options) (getLock : Z).

Definition pthreadBarrierWait (ins : Z) (barrier : Z) : M Z :=
  let r0 := 0 in
  SCHED_GET_TURN opt ;;
  SCHED_INC_TURN opt ins sf_pthread_barrier_wait [barrier; wrap_u64 r0] ;;
  putTurn false ;;
  getTurn ;;
  incTurnCount ;;
  putTurn false ;;
  errno_from_error ;;
  r <- native (pthread_barrier_wait barrier) ;;
  error_from_errno ;;
  assert ((r =? 0) || (r =? PTHREAD_BARRIER_SERIAL_THREAD)) ;;
  getTurn ;;
  SCHED_PUT_TURN opt ins sf_pthread_barrier_wait [barrier; wrap_u64 r] ;;
  ret r.

Definition pthreadCondWait (ins : Z) (cv mu : Z) : M Z :=
  SCHED_GET_TURN opt ;;
  native (pthread_mutex_unlock mu) ;;
  SCHED_INC_TURN opt ins sf_pthread_cond_wait [cv; mu] ;;
  errno_from_error ;;
  native (pthread_cond_wait cv getLock) ;;
  error_from_errno ;;
  loop (r <- native (pthread_mutex_trylock mu) ;;
        if r =? 0 then ret (Some tt)
        else
          assert (r =? EBUSY) ;;
          wait mu NO_TIMEOUT ;;
          ret None) ;;
  incTurnCount ;;
  SCHED_PUT_TURN opt ins sf_pthread_cond_wait [cv; mu] ;;
  ret 0.

Definition pthreadCondTimedWait (ins : Z) (cv mu : Z)
    (abstime : option timespec) : M Z :=
  SCHED_GET_TURN opt ;;
  native (pthread_mutex_unlock mu) ;;
  SCHED_INC_TURN opt ins sf_pthread_cond_timedwait [cv; mu] ;;
  errno_from_error ;;
  r <- native (pthread_cond_timedwait cv getLock abstime) ;;
  error_from_errno ;;
  assert ((r =? 0) || (r =? ETIMEDOUT)) ;;
  pthreadMutexLockHelper mu NO_TIMEOUT ;;
  SCHED_PUT_TURN opt ins sf_pthread_cond_timedwait [cv; mu; wrap_u64 r] ;;
  ret r.

End RecorderRT.
End RecordSerializer.

(** The calls that are specialised. *)
Inductive serializer_call : Type :=
| Serializer_pthreadBarrierWait (barrier : Z)
| Serializer_pthreadCondWait (cv mu : Z)
| Serializer_pthreadCondTimedWait (cv mu : Z) (abstime : option timespec).

Definition run_serializer_call (opt : options) (getLock ins : Z)
    (c : serializer_call) : M Z :=
  match c with
  | Serializer_pthreadBarrierWait barrier =>
      RecordSerializer.pthreadBarrierWait opt ins barrier
  | Serializer_pthreadCondWait cv mu =>
      RecordSerializer.pthreadCondWait opt getLock ins cv mu
  | Serializer_pthreadCondTimedWait cv mu abstime =>
      RecordSerializer.pthreadCondTimedWait opt getLock ins cv mu abstime
  end.

Definition serializer_op (c : serializer_call) : syncfunc :=
  match c with
  | Serializer_pthreadBarrierWait _ => sf_pthread_barrier_wait
  | Serializer_pthreadCondWait _ _ => sf_pthread_cond_wait
  | Serializer_pthreadCondTimedWait _ _ _ => sf_pthread_cond_timedwait
  end.

(** The turns a specialised call takes beyond its log records. *)
Definition serializer_extra_turns (c : serializer_call) : Z :=
  match c with
  | Serializer_pthreadCondTimedWait _ _ _ => 0
  | _ => 1
  end.

(** ** More example configurations *)

(** Two of three threads have arrived at barrier 55; the script answers
    the four calls of the one that arrives last. *)
Definition barrier_of_3_last : state :=
  set_barriers {[ 55 := Barrier 3 2 ]}
    (one_thread [quiet 0; quiet 0; quiet 0; quiet 0]).

(** A thread inside a non-det region, with no base time set. *)
Definition in_non_det_region (script : list response) : state :=
  State 0 0 true (Timespec 0 0) (Timespec 100 0) false
        10 [0; 1] 1 ∅ 0 0 0 [] script.

(** * Properties *)

(** ** Physical-to-logical conversion *)

Lemma wrap_u64_small z : 0 <= z < 2 ^ 64 -> wrap_u64 z = z.
Proof. intros H. unfold wrap_u64. by rewrite Z.mod_small. Qed.

Lemma wrap_s64_small z : - 2 ^ 63 <= z < 2 ^ 63 -> wrap_s64 z = z.
Proof. intros H. unfold wrap_s64. rewrite Z.mod_small; lia. Qed.

Lemma wrap_s32_small z : - 2 ^ 31 <= z < 2 ^ 31 -> wrap_s32 z = z.
Proof. intros H. unfold wrap_s32. rewrite Z.mod_small; lia. Qed.

(** Without the idle thread the conversion warns and ends the process. *)
Lemma time2turn_no_idle_thread opt nsec s :
  launch_idle_thread opt = false ->
  time2turn opt nsec s =
    Stop (Exit 1) (set_trace (st_trace s ++ [EvWarn WARN_no_idle_thread]) s).
Proof. intros H. unfold time2turn. rewrite H. reflexivity. Qed.

(** With the idle thread and a calibration that is not zero, the
    conversion returns and leaves the state as it was. *)
Lemma relTimeToTurn_returns opt t s :
  launch_idle_thread opt = true ->
  wrap_u64 (nanosec_per_turn opt) <> 0 ->
  exists n, relTimeToTurn opt (Some t) s = Done n s.
Proof.
  intros Hidle Hper. unfold relTimeToTurn, time2turn, bind, gets, ret.
  rewrite Hidle. cbn [negb].
  apply Z.eqb_neq in Hper. rewrite Hper. eauto.
Qed.

(** The result of the conversion depends on the state through [nthread]
    only. *)
Lemma relTimeToTurn_frame opt t s s' n :
  st_nthread s' = st_nthread s ->
  relTimeToTurn opt t s = Done n s ->
  relTimeToTurn opt t s' = Done n s'.
Proof.
  intros Hn. destruct t as [t|]; cbn.
  - unfold relTimeToTurn, time2turn, bind, gets, ret, halt, emit, modify.
    destruct (negb (launch_idle_thread opt)); [discriminate|].
    destruct (wrap_u64 (nanosec_per_turn opt) =? 0); [discriminate|].
    rewrite Hn. intros [= ->]. reflexivity.
  - unfold ret. intros [= ->]. reflexivity.
Qed.

(** X22.  On a relative time that is not negative the conversion is the
    clamp of the spec, as long as the lower bound does not pass
    [MAX_REL]. *)
Lemma relTimeToTurn_nonneg opt t s :
  launch_idle_thread opt = true ->
  0 < nanosec_per_turn opt < 2 ^ 64 ->
  0 <= tv_sec t -> 0 <= tv_nsec t ->
  tv_sec t * 1000000000 + tv_nsec t < 2 ^ 63 ->
  0 <= st_nthread s -> 5 * st_nthread s + 1 <= 1000000 ->
  relTimeToTurn opt (Some t) s =
    Done (spec_turns (nanosec_per_turn opt) (st_nthread s)
                     (tv_sec t * 1000000000 + tv_nsec t)) s.
Proof.
  intros Hidle Hper Hsec Hnsec Hfit Hn0 Hn1.
  unfold relTimeToTurn, time2turn, bind, gets, ret. rewrite Hidle. cbn [negb].
  set (ns := tv_sec t * 1000000000 + tv_nsec t) in *.
  assert (Hns : 0 <= ns) by (unfold ns; lia).
  rewrite (wrap_s64_small (tv_sec t * 1000000000)) by lia.
  fold ns. rewrite (wrap_s64_small ns) by lia.
  rewrite (wrap_u64_small ns) by lia.
  rewrite (wrap_u64_small (nanosec_per_turn opt)) by lia.
  destruct (nanosec_per_turn opt =? 0) eqn:E; [lia|].
  rewrite (wrap_s32_small (5 * st_nthread s + 1)) by lia.
  unfold spec_turns, clamp, MAX_REL. rewrite Z.quot_div_nonneg by lia.
  f_equal.
  assert (0 <= ns / nanosec_per_turn opt) by (apply Z.div_pos; lia).
  destruct (ns / nanosec_per_turn opt >? 1000000) eqn:E1.
  - destruct (1000000 <? 5 * st_nthread s + 1) eqn:E2; lia.
  - rewrite wrap_s32_small by lia.
    destruct (ns / nanosec_per_turn opt <? 5 * st_nthread s + 1) eqn:E2; lia.
Qed.

(** C2 (the code departs from the claim).  A relative time of -0.3 s, as
    [time_diff] gives it for a deadline that has passed, with one thread
    and 1000 ns per turn: the clamp of the claim is the lower bound
    5*1+1 = 6 turns, and the comment in [relTimeToTurn] says the same for a
    negative result; the code returns [MAX_REL] = 1,000,000 turns, since
    [time2turn] takes the nanoseconds as an unsigned number.  A 2 ms
    deadline gives the 2000 turns of the claim. *)
Theorem relTimeToTurn_expired_deadline :
  time_diff (Timespec 100 300000000) (Timespec 100 0)
    = Timespec (-1) 700000000
  /\ relTimeToTurn opt_1000 (Some (Timespec (-1) 700000000)) (one_thread [])
     = Done 1000000 (one_thread [])
  /\ spec_turns 1000 1 (-1 * 1000000000 + 700000000) = 6
  /\ relTimeToTurn opt_1000 (Some (Timespec 0 2000000)) (one_thread [])
     = Done (Z.max (5 * 1 + 1) 2000) (one_thread []).
Proof. repeat split; vm_compute; reflexivity. Qed.
(** ** Loops *)

Lemma loop_n_fuel {A} (body : M (option A)) :
  advances body ->
  forall n m s,
    (length (st_script s) < n)%nat -> (length (st_script s) < m)%nat ->
    loop_n n body s = loop_n m body s.
Proof.
  intros Hadv. induction n as [|n IH]; intros m s Hn Hm; [lia|].
  destruct m as [|m]; [lia|].
  cbn [loop_n]. unfold bind.
  destruct (body s) as [[a|] s'|w s'] eqn:E; try reflexivity.
  apply Hadv in E. apply IH; lia.
Qed.

Lemma loop_unfold {A} (body : M (option A)) s :
  advances body ->
  loop body s =
    (x <- body ;; match x with Some a => ret a | None => loop body end) s.
Proof.
  intros Hadv. unfold loop at 1. cbn [loop_n]. unfold bind.
  destruct (body s) as [[a|] s'|w s'] eqn:E; try reflexivity.
  unfold loop. apply loop_n_fuel; [done| |lia].
  apply Hadv in E. lia.
Qed.

Lemma call_script e s a s' :
  call e s = Done a s' ->
  (length (st_script s') < length (st_script s))%nat.
Proof.
  unfold call. destruct s as [? ? ? ? ? ? ? ? ? ? ? ? ? ? scr]. cbn.
  destruct scr as [|r rest]; [discriminate|]. intros [= <- <-]. cbn. lia.
Qed.

Lemma pthreadMutexLockHelper_body_advances mu t :
  advances (pthreadMutexLockHelper_body mu t).
Proof.
  intros s s'. unfold pthreadMutexLockHelper_body, native, bind.
  destruct (call _ s) as [r s1|] eqn:E; [|discriminate].
  apply call_script in E.
  destruct (r =? 0); [discriminate|]. unfold assert.
  destruct (r =? EBUSY); cbn; [|discriminate].
  unfold wait, S_wait.
  destruct (call _ s1) as [r' s2|] eqn:E'; [|discriminate].
  apply call_script in E'.
  destruct (r' =? ETIMEDOUT); cbn; [discriminate|]. intros [= <-]. lia.
Qed.

Lemma semTimedWait_body_advances sem t : advances (semTimedWait_body sem t).
Proof.
  intros s s'. unfold semTimedWait_body, native, bind.
  destruct (call _ s) as [r s1|] eqn:E; [|discriminate].
  apply call_script in E.
  destruct (r =? 0); [discriminate|]. unfold gets, assert.
  destruct (st_errno s1 =? EAGAIN); cbn; [|discriminate].
  unfold S_wait.
  destruct (call _ s1) as [r' s2|] eqn:E'; [|discriminate].
  apply call_script in E'.
  destruct (r' =? ETIMEDOUT); cbn; [discriminate|]. intros [= <-]. lia.
Qed.

Lemma call_cons e s r rest :
  st_script s = r :: rest ->
  call e s = Done (r_ret r) (after_call e s)
  /\ st_script (after_call e s) = rest
  /\ st_trace (after_call e s) = st_trace s ++ [e]
  /\ st_errno (after_call e s) = default (st_errno s) (r_errno r).
Proof.
  intros H. unfold after_call, call. destruct s. cbn in *. subst. cbn. done.
Qed.

(** A round in which the mutex is busy and the wait does not time out is
    followed by a fresh try. *)
Lemma pthreadMutexLockHelper_retry mu t s rb rw rest :
  st_script s = rb :: rw :: rest ->
  mutex_retry (rb, rw) ->
  pthreadMutexLockHelper mu t s =
    pthreadMutexLockHelper mu t (after_round (pthread_mutex_trylock mu) mu t s)
  /\ st_script (after_round (pthread_mutex_trylock mu) mu t s) = rest.
Proof.
  intros Hs [Hb Hw]. cbn in Hb, Hw.
  destruct (call_cons (EvNative (pthread_mutex_trylock mu)) s _ _ Hs)
    as (E1 & S1 & _).
  destruct (call_cons (EvWait mu t) _ _ _ S1) as (E2 & S2 & _).
  split; [|exact S2].
  unfold pthreadMutexLockHelper.
  rewrite loop_unfold by apply pthreadMutexLockHelper_body_advances.
  unfold pthreadMutexLockHelper_body at 1, native, wait, S_wait, bind.
  rewrite E1, Hb. cbn. rewrite E2.
  apply Z.eqb_neq in Hw. rewrite Hw. reflexivity.
Qed.

Lemma pthreadMutexLockHelper_rounds mu t rounds tail s :
  st_script s = flat rounds ++ tail ->
  Forall mutex_retry rounds ->
  pthreadMutexLockHelper mu t s =
    pthreadMutexLockHelper mu t
      (after_rounds (length rounds) (pthread_mutex_trylock mu) mu t s)
  /\ st_script (after_rounds (length rounds) (pthread_mutex_trylock mu) mu t s)
     = tail.
Proof.
  revert s. induction rounds as [|[rb rw] rounds IH]; intros s Hs Hall.
  - done.
  - apply Forall_cons in Hall as [Hr Hall]. cbn in Hs.
    destruct (pthreadMutexLockHelper_retry mu t s rb rw _ Hs Hr) as [E Hscr].
    cbn [length after_rounds]. rewrite E. by apply IH.
Qed.

(** The three ways the loop of [pthreadMutexLockHelper] ends. *)
Lemma pthreadMutexLockHelper_locked mu t s r0 rest :
  st_script s = r0 :: rest -> r_ret r0 = 0 ->
  pthreadMutexLockHelper mu t s =
    Done 0 (after_call (EvNative (pthread_mutex_trylock mu)) s).
Proof.
  intros Hs H0.
  destruct (call_cons (EvNative (pthread_mutex_trylock mu)) s _ _ Hs)
    as (E1 & _).
  unfold pthreadMutexLockHelper.
  rewrite loop_unfold by apply pthreadMutexLockHelper_body_advances.
  unfold pthreadMutexLockHelper_body at 1, native, bind.
  rewrite E1, H0. reflexivity.
Qed.

Lemma pthreadMutexLockHelper_timed_out mu t s rb rt rest :
  st_script s = rb :: rt :: rest ->
  r_ret rb = EBUSY -> r_ret rt = ETIMEDOUT ->
  pthreadMutexLockHelper mu t s =
    Done ETIMEDOUT (after_round (pthread_mutex_trylock mu) mu t s)
  /\ st_script (after_round (pthread_mutex_trylock mu) mu t s) = rest.
Proof.
  intros Hs Hb Ht.
  destruct (call_cons (EvNative (pthread_mutex_trylock mu)) s _ _ Hs)
    as (E1 & S1 & _).
  destruct (call_cons (EvWait mu t) _ _ _ S1) as (E2 & S2 & _).
  split; [|exact S2].
  unfold pthreadMutexLockHelper.
  rewrite loop_unfold by apply pthreadMutexLockHelper_body_advances.
  unfold pthreadMutexLockHelper_body at 1, native, wait, S_wait, bind.
  rewrite E1, Hb. cbn. rewrite E2, Ht. reflexivity.
Qed.

Lemma pthreadMutexLockHelper_failed mu t s rbad rest :
  st_script s = rbad :: rest ->
  r_ret rbad <> 0 -> r_ret rbad <> EBUSY ->
  pthreadMutexLockHelper mu t s =
    Stop AssertFail (after_call (EvNative (pthread_mutex_trylock mu)) s).
Proof.
  intros Hs H0 Hb.
  destruct (call_cons (EvNative (pthread_mutex_trylock mu)) s _ _ Hs)
    as (E1 & _).
  unfold pthreadMutexLockHelper.
  rewrite loop_unfold by apply pthreadMutexLockHelper_body_advances.
  unfold pthreadMutexLockHelper_body at 1, native, bind.
  rewrite E1. apply Z.eqb_neq in H0, Hb. rewrite H0. unfold assert.
  rewrite Hb. reflexivity.
Qed.

(** ** Symbolic runs of the wrappers

    Each step is a lemma: what the call returns and what it leaves. *)

Lemma post_trans s1 s2 s3 evs1 evs2 rest1 rest2 :
  post s1 s2 evs1 rest1 -> post s2 s3 evs2 rest2 ->
  post s1 s3 (evs1 ++ evs2) rest2.
Proof.
  intros (T1 & _ & B1) (T2 & S2 & B2). repeat split.
  - by rewrite T2, T1, app_assoc.
  - done.
  - by rewrite B2.
Qed.

Lemma bind_eq {A B} (m : M A) (k : A -> M B) s :
  bind m k s =
    match m s with Done a s' => k a s' | Stop w s' => Stop w s' end.
Proof. reflexivity. Qed.

Lemma bind_Done {A B} (m : M A) (k : A -> M B) s r s' :
  bind m k s = Done r s' ->
  exists a s1, m s = Done a s1 /\ k a s1 = Done r s'.
Proof. unfold bind. destruct (m s); [eauto|discriminate]. Qed.

Lemma in_non_det_det opt s :
  det_region opt s -> in_non_det opt s = Done false s.
Proof. unfold det_region, in_non_det, bind, gets, ret. by intros ->. Qed.

Lemma drop_new {X} (tr l : list X) : drop (length tr) (tr ++ l) = l.
Proof. by rewrite drop_app_length. Qed.

Lemma new_events_post {A} s s' (a : A) evs rest :
  post s s' evs rest -> new_events s (Done a s') = evs.
Proof. intros (T & _). unfold new_events. cbn. by rewrite T, drop_new. Qed.

Lemma call_post e s r rest :
  st_script s = r :: rest ->
  exists s', call e s = Done (r_ret r) s'
    /\ post s s' [e] rest
    /\ st_errno s' = default (st_errno s) (r_errno r)
    /\ st_error s' = st_error s
    /\ st_turnCount s' = st_turnCount s + Z.of_nat (r_turns r)
    /\ st_nthread s' = st_nthread s.
Proof.
  intros H. unfold call, post. destruct s. cbn in *. subst. cbn.
  eexists. split; [reflexivity|]. cbn. done.
Qed.

Lemma call_pending e s :
  st_script s = [] ->
  exists s', call e s = Stop Pending s' /\ post s s' [e] [].
Proof.
  intros H. unfold call, post. destruct s. cbn in *. subst. cbn.
  eexists. split; [reflexivity|]. cbn. done.
Qed.

Lemma emit_post e s scr :
  st_script s = scr ->
  exists s', emit e s = Done tt s' /\ post s s' [e] scr
    /\ st_errno s' = st_errno s /\ st_error s' = st_error s
    /\ st_turnCount s' = st_turnCount s
    /\ st_nthread s' = st_nthread s.
Proof. intros <-. unfold emit, modify, post. destruct s. cbn. eauto 10. Qed.

Lemma SCHED_GET_TURN_post opt s rg rest :
  det_region opt s ->
  st_script s = rg :: rest ->
  exists s', SCHED_GET_TURN opt s = Done tt s'
    /\ post s s' [EvGetTurn] rest
    /\ st_error s' = st_error s
    /\ st_turnCount s' = st_turnCount s + Z.of_nat (r_turns rg)
    /\ st_nthread s' = st_nthread s.
Proof.
  unfold det_region, post. intros Hdet Hs.
  destruct opt as [lg ? ? enf rs ? ?], s as [? ? nd ? ? idl ? ? ? ? ? ? ? ? ?].
  cbn in *. subst.
  destruct enf, nd; try discriminate; destruct rs, idl; cbn;
    (eexists; split; [reflexivity|]; cbn; done).
Qed.

Lemma SCHED_GET_TURN_pending opt s :
  det_region opt s ->
  st_script s = [] ->
  exists s', SCHED_GET_TURN opt s = Stop Pending s'
    /\ post s s' [EvGetTurn] [].
Proof.
  unfold det_region, post. intros Hdet Hs.
  destruct opt as [lg ? ? enf rs ? ?], s as [? ? nd ? ? idl ? ? ? ? ? ? ? ? ?].
  cbn in *. subst.
  destruct enf, nd; try discriminate; cbn;
    (eexists; split; [reflexivity|]; cbn; done).
Qed.

Lemma SCHED_INC_TURN_post opt ins op args s scr :
  st_script s = scr ->
  exists s', SCHED_INC_TURN opt ins op args s = Done tt s'
    /\ post s s' (inc_events opt ins op (wrap_u32 (st_turnCount s + 1))
                    false args) scr
    /\ st_turnCount s' = st_turnCount s + 1
    /\ st_nthread s' = st_nthread s.
Proof.
  intros <-. unfold post, inc_events. destruct opt as [lg ? ? ? ? ? ?], s.
  destruct lg; cbn; (eexists; split; [reflexivity|]; cbn);
    by rewrite <- ?app_assoc.
Qed.

Lemma SCHED_PUT_TURN_post opt ins op args s rp rest :
  st_script s = rp :: rest ->
  exists s', SCHED_PUT_TURN opt ins op args s = Done tt s'
    /\ post s s' (inc_events opt ins op (st_turnCount s + 1) true args
                    ++ [EvPutTurn false]) rest
    /\ st_errno s' = st_errno s
    /\ st_error s' = st_error s.
Proof.
  unfold post, inc_events. intros Hs. destruct opt as [lg ? ? ? ? ? ?], s.
  cbn in *. subst.
  destruct lg; cbn; (eexists; split; [reflexivity|]; cbn);
    by rewrite <- ?app_assoc.
Qed.

Lemma SCHED_PUT_TURN_pending opt ins op args s :
  st_script s = [] ->
  exists s', SCHED_PUT_TURN opt ins op args s = Stop Pending s'
    /\ post s s' (inc_events opt ins op (st_turnCount s + 1) true args
                    ++ [EvPutTurn false]) [].
Proof.
  unfold post, inc_events. intros Hs. destruct opt as [lg ? ? ? ? ? ?], s.
  cbn in *. subst.
  destruct lg; cbn; (eexists; split; [reflexivity|]; cbn);
    by rewrite <- ?app_assoc.
Qed.

Lemma errno_from_error_post s scr :
  st_script s = scr ->
  exists s', errno_from_error s = Done tt s' /\ post s s' [] scr
    /\ st_error s' = st_error s /\ st_turnCount s' = st_turnCount s.
Proof.
  intros <-. unfold post. destruct s. cbn. eexists. split; [reflexivity|]. cbn.
  by rewrite app_nil_r.
Qed.

Lemma error_from_errno_post s scr :
  st_script s = scr ->
  exists s', error_from_errno s = Done tt s' /\ post s s' [] scr
    /\ st_errno s' = st_errno s /\ st_turnCount s' = st_turnCount s.
Proof.
  intros <-. unfold post. destruct s. cbn. eexists. split; [reflexivity|]. cbn.
  by rewrite app_nil_r.
Qed.

Lemma base_or_now_post f s scr :
  st_script s = scr ->
  exists s' cur, base_or_now f s = Done cur s'
    /\ post s s' (base_events f s) scr
    /\ cur = measured_from s
    /\ st_inNonDet s' = st_inNonDet s
    /\ st_turnCount s' = st_turnCount s
    /\ st_nthread s' = st_nthread s.
Proof.
  intros <-. unfold post, base_or_now, base_events, measured_from, bind, gets.
  destruct s as [? ? ? [sec nsec] ? ? ? ? ? ? ? ? ? ? ?].
  cbn. destruct (sec =? 0); cbn.
  - do 2 eexists. split; [reflexivity|]. cbn. by rewrite <- app_assoc.
  - do 2 eexists. split; [reflexivity|]. cbn. by rewrite app_nil_r.
Qed.

Lemma after_call_post e s r rest :
  st_script s = r :: rest -> post s (after_call e s) [e] rest.
Proof.
  intros H. unfold after_call, call, post. destruct s. cbn in *. subst.
  cbn. done.
Qed.

Lemma after_rounds_post op chan t rounds tail s :
  st_script s = flat rounds ++ tail ->
  post s (after_rounds (length rounds) op chan t s)
       (mjoin (replicate (length rounds) [EvNative op; EvWait chan t])) tail.
Proof.
  revert s. induction rounds as [|[rb rw] rounds IH]; intros s Hs.
  - cbn. unfold post. by rewrite app_nil_r.
  - cbn in Hs. cbn [length after_rounds]. unfold after_round.
    pose proof (after_call_post (EvNative op) s _ _ Hs) as P1.
    pose proof (after_call_post (EvWait chan t) _ _ _ (proj1 (proj2 P1)))
      as P2.
    pose proof (IH _ (proj1 (proj2 P2))) as P3.
    exact (post_trans _ _ _ _ _ _ _ (post_trans _ _ _ _ _ _ _ P1 P2) P3).
Qed.

Lemma pthreadMutexLockHelper_locked_post mu t s rounds r0 rest :
  st_script s = flat rounds ++ r0 :: rest ->
  Forall mutex_retry rounds -> r_ret r0 = 0 ->
  exists s', pthreadMutexLockHelper mu t s = Done 0 s'
    /\ post s s' (lock_events (pthread_mutex_trylock mu) mu t
                    (length rounds) true) rest.
Proof.
  intros Hs Hall H0.
  destruct (pthreadMutexLockHelper_rounds mu t rounds _ s Hs Hall) as [E Hscr].
  pose proof (after_rounds_post (pthread_mutex_trylock mu) mu t rounds _ s Hs)
    as P1.
  rewrite E, (pthreadMutexLockHelper_locked mu t _ r0 _ Hscr H0).
  eexists. split; [reflexivity|].
  exact (post_trans _ _ _ _ _ _ _ P1 (after_call_post _ _ _ _ Hscr)).
Qed.

Lemma pthreadMutexLockHelper_timed_out_post mu t s rounds rb rt rest :
  st_script s = flat rounds ++ rb :: rt :: rest ->
  Forall mutex_retry rounds -> r_ret rb = EBUSY -> r_ret rt = ETIMEDOUT ->
  exists s', pthreadMutexLockHelper mu t s = Done ETIMEDOUT s'
    /\ post s s' (lock_events (pthread_mutex_trylock mu) mu t
                    (length rounds) false) rest.
Proof.
  intros Hs Hall Hb Ht.
  destruct (pthreadMutexLockHelper_rounds mu t rounds _ s Hs Hall) as [E Hscr].
  pose proof (after_rounds_post (pthread_mutex_trylock mu) mu t rounds _ s Hs)
    as P1.
  destruct (pthreadMutexLockHelper_timed_out mu t _ rb rt _ Hscr Hb Ht)
    as [E2 _].
  rewrite E, E2. eexists. split; [reflexivity|].
  unfold after_round.
  pose proof (after_call_post (EvNative (pthread_mutex_trylock mu)) _ _ _ Hscr)
    as P2.
  pose proof (after_call_post (EvWait mu t) _ _ _ (proj1 (proj2 P2))) as P3.
  exact (post_trans _ _ _ _ _ _ _ P1 (post_trans _ _ _ _ _ _ _ P2 P3)).
Qed.

Lemma pthreadMutexLockHelper_failed_post mu t s rounds rbad rest :
  st_script s = flat rounds ++ rbad :: rest ->
  Forall mutex_retry rounds -> r_ret rbad <> 0 -> r_ret rbad <> EBUSY ->
  exists s', pthreadMutexLockHelper mu t s = Stop AssertFail s'
    /\ post s s' (lock_events (pthread_mutex_trylock mu) mu t
                    (length rounds) true) rest.
Proof.
  intros Hs Hall H0 Hb.
  destruct (pthreadMutexLockHelper_rounds mu t rounds _ s Hs Hall) as [E Hscr].
  pose proof (after_rounds_post (pthread_mutex_trylock mu) mu t rounds _ s Hs)
    as P1.
  rewrite E, (pthreadMutexLockHelper_failed mu t _ rbad _ Hscr H0 Hb).
  eexists. split; [reflexivity|].
  exact (post_trans _ _ _ _ _ _ _ P1 (after_call_post _ _ _ _ Hscr)).
Qed.

(** ** [pthreadMutexLock] *)

Ltac scr P := exact (proj1 (proj2 P)).

Lemma pthreadMutexLock_finishes opt ins mu s rg rounds tail rp rest :
  det_region opt s ->
  st_script s = rg :: flat rounds ++ tail ++ rp :: rest ->
  Forall mutex_retry rounds ->
  (exists r0, tail = [r0] /\ r_ret r0 = 0)
  \/ (exists rb rt, tail = [rb; rt] /\ r_ret rb = EBUSY
                    /\ r_ret rt = ETIMEDOUT) ->
  exists s', pthreadMutexLock opt ins mu s = Done 0 s'.
Proof.
  intros Hdet Hs Hall Htail.
  unfold pthreadMutexLock. rewrite bind_eq, (in_non_det_det _ _ Hdet).
  destruct (SCHED_GET_TURN_post opt s rg _ Hdet Hs) as (s1 & E1 & P1 & _).
  rewrite bind_eq, E1.
  destruct (errno_from_error_post s1 _ ltac:(scr P1)) as (s2 & E2 & P2 & _).
  rewrite bind_eq, E2.
  assert (exists r s3, pthreadMutexLockHelper mu NO_TIMEOUT s2 = Done r s3
                       /\ st_script s3 = rp :: rest) as (r & s3 & E3 & S3).
  { destruct Htail as [(r0 & -> & H0)|(rb & rt & -> & Hb & Ht)].
    - destruct (pthreadMutexLockHelper_locked_post mu NO_TIMEOUT s2 rounds r0
                  (rp :: rest) ltac:(scr P2) Hall H0) as (s3 & E3 & P3).
      exists 0, s3. split; [done|scr P3].
    - destruct (pthreadMutexLockHelper_timed_out_post mu NO_TIMEOUT s2 rounds
                  rb rt (rp :: rest) ltac:(scr P2) Hall Hb Ht)
        as (s3 & E3 & P3).
      exists ETIMEDOUT, s3. split; [done|scr P3]. }
  rewrite bind_eq, E3.
  destruct (error_from_errno_post s3 _ S3) as (s4 & E4 & P4 & _).
  rewrite bind_eq, E4.
  destruct (SCHED_PUT_TURN_post opt ins sf_pthread_mutex_lock [mu] s4 rp rest
              ltac:(scr P4)) as (s5 & E5 & _).
  rewrite bind_eq, E5. by eexists.
Qed.

Lemma pthreadMutexLock_aborts opt ins mu s rg rounds rbad rest :
  det_region opt s ->
  st_script s = rg :: flat rounds ++ rbad :: rest ->
  Forall mutex_retry rounds ->
  r_ret rbad <> 0 -> r_ret rbad <> EBUSY ->
  exists s', pthreadMutexLock opt ins mu s = Stop AssertFail s'
    /\ last (st_trace s') = Some (EvNative (pthread_mutex_trylock mu)).
Proof.
  intros Hdet Hs Hall H0 Hb.
  unfold pthreadMutexLock. rewrite bind_eq, (in_non_det_det _ _ Hdet).
  destruct (SCHED_GET_TURN_post opt s rg _ Hdet Hs) as (s1 & E1 & P1 & _).
  rewrite bind_eq, E1.
  destruct (errno_from_error_post s1 _ ltac:(scr P1)) as (s2 & E2 & P2 & _).
  rewrite bind_eq, E2.
  destruct (pthreadMutexLockHelper_failed_post mu NO_TIMEOUT s2 rounds rbad
              rest ltac:(scr P2) Hall H0 Hb) as (s3 & E3 & P3).
  rewrite bind_eq, E3. eexists. split; [reflexivity|].
  rewrite (proj1 P3). unfold lock_events. rewrite app_assoc. apply last_snoc.
Qed.
(** C10.  In a deterministic region [pthreadMutexLock] never returns
    anything but 0.  It returns 0 when every native trylock succeeds or
    fails with [EBUSY] (the waits in between may end either way) and the
    calls it makes return; a trylock that fails with another code stops
    the process at the assertion, right after that trylock. *)
Theorem pthreadMutexLock_returns_zero opt ins mu s :
  det_region opt s ->
  (forall r s', pthreadMutexLock opt ins mu s = Done r s' -> r = 0)
  /\ (forall rg rounds tail rp rest,
        st_script s = rg :: flat rounds ++ tail ++ rp :: rest ->
        Forall mutex_retry rounds ->
        (exists r0, tail = [r0] /\ r_ret r0 = 0)
        \/ (exists rb rt, tail = [rb; rt] /\ r_ret rb = EBUSY
                          /\ r_ret rt = ETIMEDOUT) ->
        exists s', pthreadMutexLock opt ins mu s = Done 0 s')
  /\ (forall rg rounds rbad rest,
        st_script s = rg :: flat rounds ++ rbad :: rest ->
        Forall mutex_retry rounds ->
        r_ret rbad <> 0 -> r_ret rbad <> EBUSY ->
        exists s', pthreadMutexLock opt ins mu s = Stop AssertFail s'
          /\ last (st_trace s') = Some (EvNative (pthread_mutex_trylock mu))).
Proof.
  intros Hdet. split; [|split].
  - intros r s'. unfold pthreadMutexLock. rewrite bind_eq.
    rewrite (in_non_det_det _ _ Hdet). intros H.
    repeat (apply bind_Done in H as (? & ? & _ & H)).
    by injection H as <- _.
  - intros. by eapply pthreadMutexLock_finishes.
  - intros. by eapply pthreadMutexLock_aborts.
Qed.

Lemma pthreadMutexLock_returns_zero_witness :
  det_region opt_1000 (one_thread
    [quiet 0; quiet EBUSY; quiet 0; quiet 0; quiet 0])
  /\ (exists s', pthreadMutexLock opt_1000 7 55 (one_thread
        [quiet 0; quiet EBUSY; quiet 0; quiet 0; quiet 0]) = Done 0 s')
  /\ (exists s', pthreadMutexLock opt_1000 7 55 (one_thread
        [quiet 0; quiet EDEADLK]) = Stop AssertFail s'
        /\ last (st_trace s') = Some (EvNative (pthread_mutex_trylock 55))).
Proof.
  split; [reflexivity|]. split.
  - destruct (pthreadMutexLock_returns_zero opt_1000 7 55
      (one_thread [quiet 0; quiet EBUSY; quiet 0; quiet 0; quiet 0]) eq_refl)
      as (_ & H & _).
    apply (H (quiet 0) [(quiet EBUSY, quiet 0)] [quiet 0] (quiet 0) []).
    + reflexivity.
    + repeat constructor; cbn; discriminate.
    + left. by eexists.
  - destruct (pthreadMutexLock_returns_zero opt_1000 7 55
      (one_thread [quiet 0; quiet EDEADLK]) eq_refl) as (_ & _ & H).
    apply (H (quiet 0) [] (quiet EDEADLK) []);
      [reflexivity|constructor|discriminate|discriminate].
Defined.

(** ** The loop of [semTimedWait] *)

Lemma semTimedWait_retry sem t s rb rw rest :
  st_script s = rb :: rw :: rest ->
  sem_retry (rb, rw) ->
  loop (semTimedWait_body sem t) s =
    loop (semTimedWait_body sem t) (after_round (sem_trywait sem) sem t s)
  /\ st_script (after_round (sem_trywait sem) sem t s) = rest.
Proof.
  intros Hs (Hb & He & Hw). cbn in Hb, He, Hw.
  destruct (call_cons (EvNative (sem_trywait sem)) s _ _ Hs)
    as (E1 & S1 & _ & N1).
  destruct (call_cons (EvWait sem t) _ _ _ S1) as (E2 & S2 & _).
  split; [|exact S2].
  rewrite loop_unfold by apply semTimedWait_body_advances.
  unfold semTimedWait_body at 1, native, S_wait, bind, gets.
  rewrite E1. apply Z.eqb_neq in Hb. rewrite Hb.
  rewrite N1, He. cbn. rewrite E2.
  apply Z.eqb_neq in Hw. rewrite Hw. reflexivity.
Qed.

Lemma semTimedWait_rounds sem t rounds tail s :
  st_script s = flat rounds ++ tail ->
  Forall sem_retry rounds ->
  loop (semTimedWait_body sem t) s =
    loop (semTimedWait_body sem t)
      (after_rounds (length rounds) (sem_trywait sem) sem t s)
  /\ st_script (after_rounds (length rounds) (sem_trywait sem) sem t s) = tail.
Proof.
  revert s. induction rounds as [|[rb rw] rounds IH]; intros s Hs Hall.
  - done.
  - apply Forall_cons in Hall as [Hr Hall]. cbn in Hs.
    destruct (semTimedWait_retry sem t s rb rw _ Hs Hr) as [E Hscr].
    cbn [length after_rounds]. rewrite E. by apply IH.
Qed.

Lemma semTimedWait_acquired sem t s r0 rest :
  st_script s = r0 :: rest -> r_ret r0 = 0 ->
  loop (semTimedWait_body sem t) s =
    Done (0, 0) (after_call (EvNative (sem_trywait sem)) s).
Proof.
  intros Hs H0.
  destruct (call_cons (EvNative (sem_trywait sem)) s _ _ Hs) as (E1 & _).
  rewrite loop_unfold by apply semTimedWait_body_advances.
  unfold semTimedWait_body at 1, native, bind.
  rewrite E1, H0. reflexivity.
Qed.

Lemma semTimedWait_timed_out sem t s rb rt rest :
  st_script s = rb :: rt :: rest ->
  r_ret rb <> 0 -> r_errno rb = Some EAGAIN -> r_ret rt = ETIMEDOUT ->
  loop (semTimedWait_body sem t) s =
    Done (-1, ETIMEDOUT)
         (set_error ETIMEDOUT (after_round (sem_trywait sem) sem t s))
  /\ st_script (after_round (sem_trywait sem) sem t s) = rest.
Proof.
  intros Hs Hb He Ht.
  destruct (call_cons (EvNative (sem_trywait sem)) s _ _ Hs)
    as (E1 & S1 & _ & N1).
  destruct (call_cons (EvWait sem t) _ _ _ S1) as (E2 & S2 & _).
  split; [|exact S2].
  rewrite loop_unfold by apply semTimedWait_body_advances.
  unfold semTimedWait_body at 1, native, S_wait, bind, gets.
  rewrite E1. apply Z.eqb_neq in Hb. rewrite Hb.
  rewrite N1, He. cbn. rewrite E2, Ht. reflexivity.
Qed.

(** Whatever the script, the loop of [semTimedWait] leaves with
    ([0], [0]) or with ([-1], [ETIMEDOUT]). *)
Lemma semTimedWait_loop_result sem t s out s' :
  loop (semTimedWait_body sem t) s = Done out s' ->
  out = (0, 0) \/ out = (-1, ETIMEDOUT).
Proof.
  unfold loop.
  generalize (S (length (st_script s))). intros n. revert s.
  induction n as [|n IH]; intros s; cbn [loop_n]; [discriminate|].
  unfold bind. destruct (semTimedWait_body sem t s) as [[a|] s1|] eqn:E;
    [|by apply IH|discriminate].
  unfold ret. intros [= <- <-]. revert E.
  unfold semTimedWait_body, native, S_wait, bind, assert, gets, ret, halt,
    modify.
  destruct (call _ s) as [x s2|]; [|discriminate].
  destruct (x =? 0) eqn:Ex; [intros [= <-]; left; f_equal; lia|].
  destruct (st_errno s2 =? EAGAIN); [|discriminate].
  destruct (call _ s2) as [y s3|]; [|discriminate].
  destruct (y =? ETIMEDOUT); [intros [= <-]; by right|discriminate].
Qed.

Lemma tries_app tr1 tr2 : tries (tr1 ++ tr2) = (tries tr1 + tries tr2)%nat.
Proof. induction tr1 as [|e tr1 IH]; cbn; [done|]. rewrite IH. lia. Qed.

Lemma tries_rounds n op chan t :
  is_try (EvNative op) = true ->
  tries (mjoin (replicate n [EvNative op; EvWait chan t])) = n.
Proof.
  intros H. induction n as [|n IH]; [done|].
  change (tries ([EvNative op; EvWait chan t]
           ++ mjoin (replicate n [EvNative op; EvWait chan t])) = S n).
  rewrite tries_app, IH. cbn [tries]. rewrite H. reflexivity.
Qed.

Lemma semTimedWait_acquired_post sem t s rounds r0 rest :
  st_script s = flat rounds ++ r0 :: rest ->
  Forall sem_retry rounds -> r_ret r0 = 0 ->
  exists s', loop (semTimedWait_body sem t) s = Done (0, 0) s'
    /\ post s s' (lock_events (sem_trywait sem) sem t (length rounds) true)
            rest.
Proof.
  intros Hs Hall H0.
  destruct (semTimedWait_rounds sem t rounds _ s Hs Hall) as [E Hscr].
  pose proof (after_rounds_post (sem_trywait sem) sem t rounds _ s Hs) as P1.
  rewrite E, (semTimedWait_acquired sem t _ r0 _ Hscr H0).
  eexists. split; [reflexivity|].
  exact (post_trans _ _ _ _ _ _ _ P1 (after_call_post _ _ _ _ Hscr)).
Qed.

Lemma semTimedWait_timed_out_post sem t s rounds rb rt rest :
  st_script s = flat rounds ++ rb :: rt :: rest ->
  Forall sem_retry rounds ->
  r_ret rb <> 0 -> r_errno rb = Some EAGAIN -> r_ret rt = ETIMEDOUT ->
  exists s', loop (semTimedWait_body sem t) s = Done (-1, ETIMEDOUT) s'
    /\ post s s' (lock_events (sem_trywait sem) sem t (length rounds) false)
            rest
    /\ st_error s' = ETIMEDOUT.
Proof.
  intros Hs Hall Hb He Ht.
  destruct (semTimedWait_rounds sem t rounds _ s Hs Hall) as [E Hscr].
  pose proof (after_rounds_post (sem_trywait sem) sem t rounds _ s Hs) as P1.
  destruct (semTimedWait_timed_out sem t _ rb rt _ Hscr Hb He Ht) as [E2 _].
  rewrite E, E2. eexists. split; [reflexivity|].
  unfold after_round.
  pose proof (after_call_post (EvNative (sem_trywait sem)) _ _ _ Hscr) as P2.
  pose proof (after_call_post (EvWait sem t) _ _ _ (proj1 (proj2 P2))) as P3.
  pose proof (post_trans _ _ _ _ _ _ _ P1 (post_trans _ _ _ _ _ _ _ P2 P3))
    as (T & S & B).
  split; [|reflexivity]. repeat split; assumption.
Qed.

(** ** Timed wrappers *)

Lemma tries_base_events f s : tries (base_events f s) = 0%nat.
Proof. unfold base_events. by destruct (_ =? _). Qed.

Lemma tries_inc_events opt ins op turn h args :
  tries (inc_events opt ins op turn h args) = 0%nat.
Proof. unfold inc_events. by destruct (log_sync opt). Qed.

Lemma tries_lock_events op chan t n locked :
  is_try (EvNative op) = true ->
  tries (lock_events op chan t n locked) = S n.
Proof.
  intros H. unfold lock_events. rewrite tries_app, tries_rounds by done.
  destruct locked; cbn [tries]; rewrite H; cbn; lia.
Qed.

Lemma pthreadMutexTimedLock_run opt ins mu abst s rg rounds tail rp rest v :
  det_region opt s ->
  launch_idle_thread opt = true ->
  wrap_u64 (nanosec_per_turn opt) <> 0 ->
  st_script s = rg :: flat rounds ++ tail ++ rp :: rest ->
  Forall mutex_retry rounds ->
  (exists r0, tail = [r0] /\ r_ret r0 = 0 /\ v = 0)
  \/ (exists rb rt, tail = [rb; rt] /\ r_ret rb = EBUSY
                    /\ r_ret rt = ETIMEDOUT /\ v = ETIMEDOUT) ->
  exists s' n turn,
    pthreadMutexTimedLock opt ins mu (Some abst) s = Done v s'
    /\ relTimeToTurn opt (Some (time_diff (measured_from s) abst)) s = Done n s
    /\ new_events s (Done v s')
       = base_events sf_pthread_mutex_timedlock s
         ++ EvGetTurn
         :: lock_events (pthread_mutex_trylock mu) mu
              (wrap_u32 (st_turnCount s + Z.of_nat (r_turns rg) + n))
              (length rounds) (v =? 0)
         ++ inc_events opt ins sf_pthread_mutex_timedlock turn true
              [mu; wrap_u64 v]
         ++ [EvPutTurn false].
Proof.
  intros Hdet Hidle Hper Hs Hall Htail.
  unfold pthreadMutexTimedLock. rewrite bind_eq, (in_non_det_det _ _ Hdet).
  destruct (base_or_now_post sf_pthread_mutex_timedlock s _ Hs)
    as (s0 & cur & E0 & P0 & -> & Hnd & Htc0 & Hn0).
  rewrite bind_eq, E0.
  assert (Hdet0 : det_region opt s0) by (unfold det_region; by rewrite Hnd).
  destruct (SCHED_GET_TURN_post opt s0 rg _ Hdet0 ltac:(scr P0))
    as (s1 & E1 & P1 & _ & Htc1 & Hn1).
  rewrite bind_eq, E1. unfold getTurnCount at 1. rewrite bind_eq. cbn [gets].
  destruct (relTimeToTurn_returns opt (time_diff (measured_from s) abst) s
              Hidle Hper) as [n En].
  rewrite bind_eq.
  rewrite (relTimeToTurn_frame opt _ s s1 n ltac:(by rewrite Hn1, Hn0) En).
  destruct (errno_from_error_post s1 _ ltac:(scr P1)) as (s2 & E2 & P2 & _).
  rewrite bind_eq, E2. rewrite Htc1, Htc0.
  set (t := wrap_u32 (st_turnCount s + Z.of_nat (r_turns rg) + n)).
  assert (exists s3, pthreadMutexLockHelper mu t s2 = Done v s3
            /\ post s2 s3 (lock_events (pthread_mutex_trylock mu) mu t
                             (length rounds) (v =? 0)) (rp :: rest))
    as (s3 & E3 & P3).
  { destruct Htail as [(r0 & -> & H0 & ->)|(rb & rt & -> & Hb & Ht & ->)].
    - destruct (pthreadMutexLockHelper_locked_post mu t s2 rounds r0
                  (rp :: rest) ltac:(scr P2) Hall H0) as (s3 & E3 & P3).
      by exists s3.
    - destruct (pthreadMutexLockHelper_timed_out_post mu t s2 rounds
                  rb rt (rp :: rest) ltac:(scr P2) Hall Hb Ht)
        as (s3 & E3 & P3).
      by exists s3. }
  rewrite bind_eq, E3.
  destruct (error_from_errno_post s3 _ ltac:(scr P3)) as (s4 & E4 & P4 & _).
  rewrite bind_eq, E4.
  destruct (SCHED_PUT_TURN_post opt ins sf_pthread_mutex_timedlock
              [mu; wrap_u64 v] s4 rp rest ltac:(scr P4)) as (s5 & E5 & P5 & _).
  rewrite bind_eq, E5. exists s5, n, (st_turnCount s4 + 1).
  split; [reflexivity|]. split; [exact En|].
  pose proof (post_trans _ _ _ _ _ _ _ P0
               (post_trans _ _ _ _ _ _ _ P1
                 (post_trans _ _ _ _ _ _ _ P2
                   (post_trans _ _ _ _ _ _ _ P3
                     (post_trans _ _ _ _ _ _ _ P4 P5))))) as P.
  rewrite (new_events_post _ _ _ _ _ P). reflexivity.
Qed.

Lemma set_errno_post v s scr :
  st_script s = scr ->
  exists s', modify (set_errno v) s = Done tt s' /\ post s s' [] scr
    /\ st_errno s' = v /\ st_error s' = st_error s.
Proof.
  intros <-. unfold post. destruct s. cbn. eexists. split; [reflexivity|].
  cbn. by rewrite app_nil_r.
Qed.

Lemma semTimedWait_run opt ins sem abst s rg rounds tail rp rest v e :
  det_region opt s ->
  launch_idle_thread opt = true ->
  wrap_u64 (nanosec_per_turn opt) <> 0 ->
  st_script s = rg :: flat rounds ++ tail ++ rp :: rest ->
  Forall sem_retry rounds ->
  (exists r0, tail = [r0] /\ r_ret r0 = 0 /\ v = 0 /\ e = 0)
  \/ (exists rb rt, tail = [rb; rt] /\ r_ret rb <> 0
        /\ r_errno rb = Some EAGAIN /\ r_ret rt = ETIMEDOUT
        /\ v = -1 /\ e = ETIMEDOUT) ->
  exists s' n turn,
    semTimedWait opt ins sem (Some abst) s = Done v s'
    /\ relTimeToTurn opt (Some (time_diff (measured_from s) abst)) s = Done n s
    /\ new_events s (Done v s')
       = base_events sf_sem_timedwait s
         ++ EvGetTurn
         :: lock_events (sem_trywait sem) sem
              (wrap_u32 (st_turnCount s + Z.of_nat (r_turns rg) + n))
              (length rounds) (v =? 0)
         ++ inc_events opt ins sf_sem_timedwait turn true [sem; wrap_u64 v]
         ++ [EvPutTurn false]
    /\ st_errno s' = e
    /\ (v = -1 -> st_error s' = ETIMEDOUT).
Proof.
  intros Hdet Hidle Hper Hs Hall Htail.
  unfold semTimedWait. rewrite bind_eq, (in_non_det_det _ _ Hdet).
  destruct (base_or_now_post sf_sem_timedwait s _ Hs)
    as (s0 & cur & E0 & P0 & -> & Hnd & Htc0 & Hn0).
  rewrite bind_eq, E0.
  assert (Hdet0 : det_region opt s0) by (unfold det_region; by rewrite Hnd).
  destruct (SCHED_GET_TURN_post opt s0 rg _ Hdet0 ltac:(scr P0))
    as (s1 & E1 & P1 & _ & Htc1 & Hn1).
  rewrite bind_eq, E1. unfold getTurnCount at 1. rewrite bind_eq. cbn [gets].
  destruct (relTimeToTurn_returns opt (time_diff (measured_from s) abst) s
              Hidle Hper) as [n En].
  rewrite bind_eq.
  rewrite (relTimeToTurn_frame opt _ s s1 n ltac:(by rewrite Hn1, Hn0) En).
  rewrite Htc1, Htc0.
  set (t := wrap_u32 (st_turnCount s + Z.of_nat (r_turns rg) + n)).
  assert (exists s3, loop (semTimedWait_body sem t) s1 = Done (v, e) s3
            /\ (v = -1 -> st_error s3 = ETIMEDOUT)
            /\ post s1 s3 (lock_events (sem_trywait sem) sem t
                             (length rounds) (v =? 0)) (rp :: rest))
    as (s3 & E3 & Herr & P3).
  { destruct Htail as [(r0 & -> & H0 & -> & ->)
                      |(rb & rt & -> & Hb & He & Ht & -> & ->)].
    - destruct (semTimedWait_acquired_post sem t s1 rounds r0
                  (rp :: rest) ltac:(scr P1) Hall H0) as (s3 & E3 & P3).
      by exists s3.
    - destruct (semTimedWait_timed_out_post sem t s1 rounds rb rt (rp :: rest)
                  ltac:(scr P1) Hall Hb He Ht) as (s3 & E3 & P3 & Herr).
      by exists s3. }
  rewrite bind_eq, E3. cbn [fst snd].
  destruct (SCHED_PUT_TURN_post opt ins sf_sem_timedwait
              [sem; wrap_u64 v] s3 rp rest ltac:(scr P3))
    as (s4 & E4 & P4 & _ & Herr4).
  rewrite bind_eq, E4.
  destruct (set_errno_post e s4 _ ltac:(scr P4))
    as (s5 & E5 & P5 & Hno & Herr5).
  rewrite bind_eq, E5. exists s5, n, (st_turnCount s3 + 1).
  split; [reflexivity|]. split; [exact En|].
  pose proof (post_trans _ _ _ _ _ _ _ P0
               (post_trans _ _ _ _ _ _ _ P1
                 (post_trans _ _ _ _ _ _ _ P3
                   (post_trans _ _ _ _ _ _ _ P4 P5)))) as P.
  rewrite (new_events_post _ _ _ _ _ P).
  split; [by rewrite app_nil_r|]. split; [done|].
  intros Hv. rewrite Herr5, Herr4. by apply Herr.
Qed.

Lemma tries_timed_wrapper f s op chan t n locked opt ins turn args :
  is_try (EvNative op) = true ->
  tries (base_events f s
         ++ EvGetTurn :: lock_events op chan t n locked
         ++ inc_events opt ins f turn true args ++ [EvPutTurn false]) = S n.
Proof.
  intros H. rewrite tries_app, tries_base_events. cbn [tries is_try].
  rewrite !tries_app, (tries_lock_events _ _ _ _ _ H), tries_inc_events.
  cbn. lia.
Qed.

(** C4.  In a deterministic region, with the idle thread and a
    calibration, a timed wrapper whose wait ends with [ETIMEDOUT] reports
    the timeout: [pthreadMutexTimedLock] returns [ETIMEDOUT];
    [semTimedWait] returns -1 and leaves [ETIMEDOUT] in the error cell (and
    in errno).  After a wait that ends otherwise the wrapper makes the
    native try-operation again: with [length rounds] such waits it makes
    [S (length rounds)] try-operations, and it returns 0 when the last of
    them succeeds. *)
Theorem timed_wrappers_surface_timeout opt ins obj abst s rg rp rest :
  det_region opt s ->
  launch_idle_thread opt = true ->
  wrap_u64 (nanosec_per_turn opt) <> 0 ->
  (forall rounds rb rt,
      st_script s = rg :: flat rounds ++ [rb; rt] ++ rp :: rest ->
      Forall mutex_retry rounds ->
      r_ret rb = EBUSY -> r_ret rt = ETIMEDOUT ->
      exists s', pthreadMutexTimedLock opt ins obj (Some abst) s
                   = Done ETIMEDOUT s'
        /\ tries (new_events s (Done ETIMEDOUT s')) = S (length rounds))
  /\ (forall rounds r0,
      st_script s = rg :: flat rounds ++ [r0] ++ rp :: rest ->
      Forall mutex_retry rounds ->
      r_ret r0 = 0 ->
      exists s', pthreadMutexTimedLock opt ins obj (Some abst) s = Done 0 s'
        /\ tries (new_events s (Done 0 s')) = S (length rounds))
  /\ (forall rounds rb rt,
      st_script s = rg :: flat rounds ++ [rb; rt] ++ rp :: rest ->
      Forall sem_retry rounds ->
      r_ret rb <> 0 -> r_errno rb = Some EAGAIN -> r_ret rt = ETIMEDOUT ->
      exists s', semTimedWait opt ins obj (Some abst) s = Done (-1) s'
        /\ st_error s' = ETIMEDOUT /\ st_errno s' = ETIMEDOUT
        /\ tries (new_events s (Done (-1) s')) = S (length rounds))
  /\ (forall rounds r0,
      st_script s = rg :: flat rounds ++ [r0] ++ rp :: rest ->
      Forall sem_retry rounds ->
      r_ret r0 = 0 ->
      exists s', semTimedWait opt ins obj (Some abst) s = Done 0 s'
        /\ tries (new_events s (Done 0 s')) = S (length rounds)).
Proof.
  intros Hdet Hidle Hper. repeat split.
  - intros rounds rb rt Hs Hall Hb Ht.
    destruct (pthreadMutexTimedLock_run opt ins obj abst s rg rounds [rb; rt]
                rp rest ETIMEDOUT) as (s' & n & turn & E & _ & T); try done.
    { right. by exists rb, rt. }
    exists s'. split; [done|]. rewrite T. by apply tries_timed_wrapper.
  - intros rounds r0 Hs Hall H0.
    destruct (pthreadMutexTimedLock_run opt ins obj abst s rg rounds [r0]
                rp rest 0) as (s' & n & turn & E & _ & T); try done.
    { left. by exists r0. }
    exists s'. split; [done|]. rewrite T. by apply tries_timed_wrapper.
  - intros rounds rb rt Hs Hall Hb He Ht.
    destruct (semTimedWait_run opt ins obj abst s rg rounds [rb; rt]
                rp rest (-1) ETIMEDOUT)
      as (s' & n & turn & E & _ & T & Hno & Herr); try done.
    { right. by exists rb, rt. }
    exists s'. repeat split; auto. rewrite T. by apply tries_timed_wrapper.
  - intros rounds r0 Hs Hall H0.
    destruct (semTimedWait_run opt ins obj abst s rg rounds [r0]
                rp rest 0 0) as (s' & n & turn & E & _ & T & _); try done.
    { left. by exists r0. }
    exists s'. split; [done|]. rewrite T. by apply tries_timed_wrapper.
Qed.

Lemma timed_wrappers_surface_timeout_witness :
  det_region opt_1000 (one_thread [])
  /\ launch_idle_thread opt_1000 = true
  /\ wrap_u64 (nanosec_per_turn opt_1000) <> 0
  /\ (exists s', pthreadMutexTimedLock opt_1000 7 55
        (Some (Timespec 100 2000000))
        (one_thread [quiet 0; quiet EBUSY; quiet 0; quiet EBUSY;
                     quiet ETIMEDOUT; quiet 0]) = Done ETIMEDOUT s'
      /\ tries (new_events (one_thread [quiet 0; quiet EBUSY; quiet 0;
                   quiet EBUSY; quiet ETIMEDOUT; quiet 0])
                  (Done ETIMEDOUT s')) = 2%nat)
  /\ (exists s', semTimedWait opt_1000 7 55 (Some (Timespec 100 2000000))
        (one_thread [quiet 0; Response (-1) (Some EAGAIN) 0;
                     quiet ETIMEDOUT; quiet 0]) = Done (-1) s'
      /\ st_error s' = ETIMEDOUT /\ st_errno s' = ETIMEDOUT
      /\ tries (new_events (one_thread [quiet 0;
                   Response (-1) (Some EAGAIN) 0; quiet ETIMEDOUT; quiet 0])
                  (Done (-1) s')) = 1%nat).
Proof.
  split; [reflexivity|]. split; [reflexivity|]. split; [by vm_compute|].
  split.
  - destruct (timed_wrappers_surface_timeout opt_1000 7 55
                (Timespec 100 2000000)
                (one_thread [quiet 0; quiet EBUSY; quiet 0; quiet EBUSY;
                             quiet ETIMEDOUT; quiet 0])
                (quiet 0) (quiet 0) [] eq_refl eq_refl)
      as (H & _); [by vm_compute|].
    apply (H [(quiet EBUSY, quiet 0)] (quiet EBUSY) (quiet ETIMEDOUT));
      [reflexivity| |reflexivity|reflexivity].
    repeat constructor; cbn; discriminate.
  - destruct (timed_wrappers_surface_timeout opt_1000 7 55
                (Timespec 100 2000000)
                (one_thread [quiet 0; Response (-1) (Some EAGAIN) 0;
                             quiet ETIMEDOUT; quiet 0])
                (quiet 0) (quiet 0) [] eq_refl eq_refl)
      as (_ & _ & H & _); [by vm_compute|].
    apply (H [] (Response (-1) (Some EAGAIN) 0) (quiet ETIMEDOUT));
      [reflexivity|constructor|discriminate|reflexivity|reflexivity].
Defined.

(** ** Barrier *)

Lemma set_barriers_run v s :
  exists s', modify (set_barriers v) s = Done tt s'
    /\ st_trace s' = st_trace s /\ st_script s' = st_script s
    /\ st_barriers s' = v /\ st_turnCount s' = st_turnCount s.
Proof. destruct s. cbn. eauto 10. Qed.

Lemma filter_sched_inc opt ins op turn h args :
  filter (fun e => is_sched e = true) (inc_events opt ins op turn h args) = [].
Proof. unfold inc_events. by destruct (log_sync opt). Qed.

(** [pthreadBarrierInit] on a barrier that is not in the table enters it
    with its count and no arrival. *)
Lemma pthreadBarrierInit_run opt ins barrier cnt s rg rn rp rest :
  det_region opt s ->
  st_barriers s !! barrier = None ->
  st_script s = rg :: rn :: rp :: rest ->
  r_ret rn = 0 ->
  exists s', pthreadBarrierInit opt ins barrier cnt s = Done 0 s'
    /\ st_barriers s' = <[barrier := Barrier cnt 0]> (st_barriers s).
Proof.
  intros Hdet Hb Hs Hr.
  unfold pthreadBarrierInit. rewrite bind_eq, (in_non_det_det _ _ Hdet).
  destruct (SCHED_GET_TURN_post opt s rg _ Hdet Hs) as (s1 & E1 & P1 & _).
  rewrite bind_eq, E1.
  destruct (errno_from_error_post s1 _ ltac:(scr P1)) as (s2 & E2 & P2 & _).
  rewrite bind_eq, E2.
  destruct (call_post (EvNative (pthread_barrier_init barrier cnt)) s2 rn _
              ltac:(scr P2)) as (s3 & E3 & P3 & _).
  unfold native. rewrite bind_eq, E3.
  destruct (error_from_errno_post s3 _ ltac:(scr P3)) as (s4 & E4 & P4 & _).
  rewrite bind_eq, E4. rewrite bind_eq. unfold assert. rewrite Hr.
  cbn [Z.eqb ret].
  pose proof (post_trans _ _ _ _ _ _ _ P1
               (post_trans _ _ _ _ _ _ _ P2
                 (post_trans _ _ _ _ _ _ _ P3 P4))) as (T4 & S4 & B4).
  rewrite bind_eq. cbn [gets]. rewrite bind_eq, B4, Hb.
  rewrite bool_decide_eq_true_2 by done. cbn [ret].
  destruct (set_barriers_run (<[barrier := Barrier cnt 0]> (st_barriers s)) s4)
    as (s5 & E5 & T5 & S5 & B5 & _).
  rewrite bind_eq, E5.
  destruct (SCHED_PUT_TURN_post opt ins sf_pthread_barrier_init
              [barrier; cnt] s5 rp rest ltac:(by rewrite S5, S4))
    as (s6 & E6 & P6 & _).
  rewrite bind_eq, E6. eexists. split; [reflexivity|].
  by rewrite (proj2 (proj2 P6)), B5.
Qed.

Lemma pthreadBarrierWait_waits opt ins barrier s n a rg rw rp rest :
  det_region opt s ->
  st_barriers s !! barrier = Some (Barrier n a) ->
  a + 1 < n ->
  st_script s = rg :: rw :: rp :: rest ->
  exists s', pthreadBarrierWait opt ins barrier s = Done 0 s'
    /\ st_barriers s' = <[barrier := Barrier n (a + 1)]> (st_barriers s)
    /\ filter (fun e => is_sched e = true) (new_events s (Done 0 s'))
       = waiter_calls barrier.
Proof.
  intros Hdet Hb Ha Hs.
  unfold pthreadBarrierWait. rewrite bind_eq, (in_non_det_det _ _ Hdet).
  destruct (SCHED_GET_TURN_post opt s rg _ Hdet Hs) as (s1 & E1 & P1 & _).
  rewrite bind_eq, E1.
  destruct (SCHED_INC_TURN_post opt ins sf_pthread_barrier_wait [barrier] s1 _
              ltac:(scr P1)) as (s2 & E2 & P2 & _).
  rewrite bind_eq, E2.
  pose proof (post_trans _ _ _ _ _ _ _ P1 P2) as (T2 & S2 & B2).
  rewrite bind_eq. cbn [gets]. rewrite B2, Hb. cbn [count narrived].
  destruct (set_barriers_run (<[barrier := Barrier n (a + 1)]> (st_barriers s))
              s2) as (s3 & E3 & T3 & S3 & B3 & _).
  rewrite bind_eq, E3. rewrite bind_eq. unfold assert.
  destruct (a + 1 <=? n) eqn:Hle; [|lia]. cbn [ret].
  destruct (n =? a + 1) eqn:Hne; [lia|].
  rewrite bind_eq, bind_eq. unfold S_wait.
  destruct (call_post (EvWait barrier NO_TIMEOUT) s3 rw (rp :: rest))
    as (s4 & E4 & P4 & _); [by rewrite S3, S2|].
  rewrite E4. cbn [ret].
  destruct (SCHED_PUT_TURN_post opt ins sf_pthread_barrier_wait [barrier] s4
              rp rest ltac:(scr P4)) as (s5 & E5 & P5 & _).
  rewrite bind_eq, E5. eexists. split; [reflexivity|].
  destruct (post_trans _ _ _ _ _ _ _ P4 P5) as (T5 & S5 & B5).
  split; [by rewrite B5, B3|].
  unfold new_events. cbn [final_state]. rewrite T5, T3, T2.
  rewrite <- !app_assoc, drop_new.
  rewrite !filter_app, !filter_sched_inc. reflexivity.
Qed.

Lemma pthreadBarrierWait_releases opt ins barrier s n a rg r1 r2 rp rest :
  det_region opt s ->
  st_barriers s !! barrier = Some (Barrier n a) ->
  a + 1 = n ->
  st_script s = rg :: r1 :: r2 :: rp :: rest ->
  exists s', pthreadBarrierWait opt ins barrier s
             = Done PTHREAD_BARRIER_SERIAL_THREAD s'
    /\ st_barriers s' = <[barrier := Barrier n 0]> (st_barriers s)
    /\ filter (fun e => is_sched e = true)
         (new_events s (Done PTHREAD_BARRIER_SERIAL_THREAD s'))
       = releaser_calls barrier.
Proof.
  intros Hdet Hb Ha Hs.
  unfold pthreadBarrierWait. rewrite bind_eq, (in_non_det_det _ _ Hdet).
  destruct (SCHED_GET_TURN_post opt s rg _ Hdet Hs) as (s1 & E1 & P1 & _).
  rewrite bind_eq, E1.
  destruct (SCHED_INC_TURN_post opt ins sf_pthread_barrier_wait [barrier] s1 _
              ltac:(scr P1)) as (s2 & E2 & P2 & _).
  rewrite bind_eq, E2.
  pose proof (post_trans _ _ _ _ _ _ _ P1 P2) as (T2 & S2 & B2).
  rewrite bind_eq. cbn [gets]. rewrite B2, Hb. cbn [count narrived].
  destruct (set_barriers_run (<[barrier := Barrier n (a + 1)]> (st_barriers s))
              s2) as (s3 & E3 & T3 & S3 & B3 & _).
  rewrite bind_eq, E3. rewrite bind_eq. unfold assert.
  destruct (a + 1 <=? n) eqn:Hle; [|lia]. cbn [ret].
  destruct (n =? a + 1) eqn:Hne; [|lia].
  rewrite bind_eq, bind_eq.
  destruct (set_barriers_run (<[barrier := Barrier n 0]> (st_barriers s)) s3)
    as (s4 & E4 & T4 & S4 & B4 & _).
  rewrite E4. rewrite bind_eq. unfold S_signal.
  destruct (emit_post (EvSignal barrier true) s4 (r1 :: r2 :: rp :: rest))
    as (s5 & E5 & P5 & _); [by rewrite S4, S3, S2|].
  rewrite E5.
  destruct (call_post (EvPutTurn false) s5 r1 _ ltac:(scr P5))
    as (s6 & E6 & P6 & _).
  rewrite bind_eq. unfold putTurn at 1. rewrite bind_eq, E6. cbn [ret].
  destruct (call_post EvGetTurn s6 r2 _ ltac:(scr P6)) as (s7 & E7 & P7 & _).
  rewrite bind_eq. unfold getTurn at 1. rewrite bind_eq, E7. cbn [ret].
  destruct (SCHED_PUT_TURN_post opt ins sf_pthread_barrier_wait [barrier] s7
              rp rest ltac:(scr P7)) as (s8 & E8 & P8 & _).
  rewrite bind_eq, E8. eexists. split; [reflexivity|].
  destruct (post_trans _ _ _ _ _ _ _ P5
             (post_trans _ _ _ _ _ _ _ P6
               (post_trans _ _ _ _ _ _ _ P7 P8))) as (T8 & S8 & B8).
  split; [by rewrite B8, B4|].
  unfold new_events. cbn [final_state]. rewrite T8, T4, T3, T2.
  rewrite <- !app_assoc, drop_new.
  rewrite !filter_app, !filter_sched_inc. reflexivity.
Qed.

Lemma barrier_round_from opt ins barrier threads : forall a s,
  threads <> [] ->
  st_barriers s !! barrier
    = Some (Barrier (a + Z.of_nat (length threads)) a) ->
  Forall (det_thread opt) threads ->
  Forall answered threads ->
  exists s',
    in_turn_order (all_call (pthreadBarrierWait opt ins barrier) threads) s
      = Some (replicate (length threads - 1) (0, waiter_calls barrier)
              ++ [(PTHREAD_BARRIER_SERIAL_THREAD, releaser_calls barrier)],
              s')
    /\ st_barriers s' !! barrier
       = Some (Barrier (a + Z.of_nat (length threads)) 0).
Proof.
  induction threads as [|t threads IH]; intros a s Hne Hb Hdet Hans; [done|].
  apply Forall_cons in Hdet as [Hdt Hdet].
  apply Forall_cons in Hans as [Hat Hans].
  assert (Hd0 : det_region opt (switch_to t s)) by exact Hdt.
  assert (Hb0 : st_barriers (switch_to t s) !! barrier
                = Some (Barrier (a + Z.of_nat (length (t :: threads))) a))
    by exact Hb.
  unfold answered in Hat.
  destruct (tl_script t) as [|rg [|r1 [|r2 [|r3 tail]]]] eqn:Hscr;
    cbn in Hat; try lia.
  assert (Hs0 : st_script (switch_to t s) = rg :: r1 :: r2 :: r3 :: tail)
    by exact Hscr.
  change (all_call ?w (t :: threads)) with ((t, w) :: all_call w threads).
  cbn [in_turn_order].
  destruct threads as [|t' threads'].
  - destruct (pthreadBarrierWait_releases opt ins barrier _ _ a rg r1 r2 r3
                tail Hd0 Hb0 ltac:(cbn; lia) Hs0) as (s1 & E & B & F).
    rewrite E. cbn [in_turn_order]. rewrite F. eexists. split; [reflexivity|].
    rewrite B. apply lookup_insert_eq.
  - destruct (pthreadBarrierWait_waits opt ins barrier _ _ a rg r1 r2
                (r3 :: tail) Hd0 Hb0 ltac:(cbn [length]; lia) Hs0)
      as (s1 & E & B & F).
    rewrite E, F.
    destruct (IH (a + 1) s1) as (s2 & E2 & B2); [done| |done|done|].
    { rewrite B, lookup_insert_eq. do 2 f_equal. cbn [length]. lia. }
    rewrite E2. eexists. split.
    + cbn [length]. rewrite Nat.sub_succ, Nat.sub_0_r.
      replace (S (length threads') - 1)%nat with (length threads') by lia.
      reflexivity.
    + rewrite B2. do 2 f_equal. cbn [length]. lia.
Qed.

(** C3.  The threads of a non-empty list arrive, in this order, at a
    barrier whose count is their number and at which nobody has arrived
    yet; all are in a deterministic region and all their calls return.
    Then every thread but the last returns 0, having waited on the barrier
    channel with no deadline; the last one returns
    [PTHREAD_BARRIER_SERIAL_THREAD], having signalled all waiters of the
    channel and then given the turn back and taken it again; and the
    counter of arrivals is back at 0. *)
Theorem pthreadBarrierWait_one_serial_thread opt ins barrier threads s :
  threads <> [] ->
  st_barriers s !! barrier
    = Some (Barrier (Z.of_nat (length threads)) 0) ->
  Forall (det_thread opt) threads ->
  Forall answered threads ->
  exists s',
    in_turn_order (all_call (pthreadBarrierWait opt ins barrier) threads) s
      = Some (replicate (length threads - 1) (0, waiter_calls barrier)
              ++ [(PTHREAD_BARRIER_SERIAL_THREAD, releaser_calls barrier)],
              s')
    /\ st_barriers s' !! barrier
       = Some (Barrier (Z.of_nat (length threads)) 0).
Proof.
  intros Hne Hb Hdet Hans.
  exact (barrier_round_from opt ins barrier threads 0 s Hne Hb Hdet Hans).
Qed.

Lemma pthreadBarrierWait_one_serial_thread_witness :
  st_barriers barrier_of_3 !! 55 = Some (Barrier 3 0)
  /\ Forall (det_thread opt_1000) [four_answers; four_answers; four_answers]
  /\ Forall answered [four_answers; four_answers; four_answers]
  /\ exists s',
    in_turn_order
      (all_call (pthreadBarrierWait opt_1000 7 55)
                [four_answers; four_answers; four_answers]) barrier_of_3
    = Some ([(0, waiter_calls 55); (0, waiter_calls 55);
             (PTHREAD_BARRIER_SERIAL_THREAD, releaser_calls 55)], s')
    /\ st_barriers s' !! 55 = Some (Barrier 3 0).
Proof.
  assert (Hdet : Forall (det_thread opt_1000)
                   [four_answers; four_answers; four_answers])
    by repeat constructor.
  assert (Hans : Forall answered [four_answers; four_answers; four_answers])
    by (repeat constructor; unfold answered; cbn; lia).
  split; [reflexivity|]. split; [exact Hdet|]. split; [exact Hans|].
  apply (pthreadBarrierWait_one_serial_thread opt_1000 7 55
           [four_answers; four_answers; four_answers] barrier_of_3);
    [discriminate|reflexivity|exact Hdet|exact Hans].
Defined.

(** ** The idle thread *)

(** C5 (the claim fails).  The run queue holds the idle thread only:
    [idle_cond_wait] gives the turn back with [putTurn]; it does not call
    [idleThreadCondWait], the call that blocks on the condition
    variable. *)
Lemma idle_cond_wait_alone_yields :
  length (st_runq idle_alone) = 1%nat
  /\ new_events idle_alone (idle_cond_wait idle_alone)
     = [EvGetTurn; EvIncTurnCount; EvPutTurn false]
  /\ ~ EvIdleThreadCondWait
       ∈ new_events idle_alone (idle_cond_wait idle_alone).
Proof.
  split; [reflexivity|]. split; [reflexivity|].
  change (new_events idle_alone (idle_cond_wait idle_alone))
    with [EvGetTurn; EvIncTurnCount; EvPutTurn false].
  intros H. repeat (apply elem_of_cons in H as [H|H]; [discriminate|]).
  by apply elem_of_nil in H.
Qed.

Lemma getTurn_post s r rest :
  st_script s = r :: rest ->
  exists s', getTurn s = Done tt s'
    /\ post s s' [EvGetTurn] rest
    /\ st_turnCount s' = st_turnCount s + Z.of_nat (r_turns r)
    /\ st_runq s' = st_runq s.
Proof.
  intros H. unfold getTurn, call, bind, post. destruct s. cbn in *. subst.
  cbn. eexists. split; [reflexivity|]. cbn. done.
Qed.

Lemma incTurnCount_post s scr :
  st_script s = scr ->
  exists s', incTurnCount s = Done (st_turnCount s + 1) s'
    /\ post s s' [EvIncTurnCount] scr
    /\ st_runq s' = st_runq s.
Proof.
  intros <-. unfold post. destruct s. cbn. eexists. split; [reflexivity|].
  cbn. done.
Qed.

(** C5 (as the code has it).  When the calls of [idle_cond_wait] return
    and the turn count fits an [int], the idle thread takes the turn and
    counts it; then, if the run queue has two entries or more (a thread
    of the program is runnable besides the idle thread), it calls
    [idleThreadCondWait], and if the run queue has the idle thread only,
    it gives the turn back with [putTurn]. *)
Theorem idle_cond_wait_blocks_when_others_run s rg r2 rest :
  st_script s = rg :: r2 :: rest ->
  0 <= wrap_s32 (st_turnCount s + Z.of_nat (r_turns rg) + 1) ->
  exists s', idle_cond_wait s = Done tt s'
    /\ new_events s (Done tt s')
       = [EvGetTurn; EvIncTurnCount;
          if (2 <=? length (st_runq s))%nat then EvIdleThreadCondWait
          else EvPutTurn false].
Proof.
  intros Hs Ht. unfold idle_cond_wait.
  destruct (getTurn_post s rg _ Hs) as (s1 & E1 & P1 & Htc1 & Hq1).
  rewrite bind_eq, E1.
  destruct (incTurnCount_post s1 _ ltac:(scr P1)) as (s2 & E2 & P2 & Hq2).
  rewrite bind_eq, E2, Htc1. rewrite bind_eq. unfold assert.
  rewrite (proj2 (Z.geb_le _ _) Ht). cbn [ret].
  rewrite bind_eq. cbn [gets]. rewrite Hq2, Hq1.
  pose proof (post_trans _ _ _ _ _ _ _ P1 P2) as P12.
  destruct (2 <=? length (st_runq s))%nat eqn:Hlen.
  - apply Nat.leb_le in Hlen.
    rewrite (proj2 (Z.geb_le _ 2)) by lia.
    destruct (call_post EvIdleThreadCondWait s2 r2 rest ltac:(scr P2))
      as (s3 & E3 & P3 & _).
    unfold idleThreadCondWait. rewrite bind_eq, E3. cbn [ret].
    eexists. split; [reflexivity|].
    exact (new_events_post _ _ _ _ _ (post_trans _ _ _ _ _ _ _ P12 P3)).
  - apply Nat.leb_gt in Hlen.
    destruct (Z.of_nat (length (st_runq s)) >=? 2) eqn:Hz.
    { apply Z.geb_le in Hz. lia. }
    destruct (call_post (EvPutTurn false) s2 r2 rest ltac:(scr P2))
      as (s3 & E3 & P3 & _).
    unfold putTurn. rewrite bind_eq, E3. cbn [ret].
    eexists. split; [reflexivity|].
    exact (new_events_post _ _ _ _ _ (post_trans _ _ _ _ _ _ _ P12 P3)).
Qed.

Lemma idle_cond_wait_blocks_when_others_run_witness :
  0 <= wrap_s32 (st_turnCount (one_thread [quiet 0; quiet 0])
                 + Z.of_nat (r_turns (quiet 0)) + 1)
  /\ exists s', idle_cond_wait (one_thread [quiet 0; quiet 0]) = Done tt s'
    /\ new_events (one_thread [quiet 0; quiet 0]) (Done tt s')
       = [EvGetTurn; EvIncTurnCount; EvIdleThreadCondWait].
Proof.
  assert (H : 0 <= wrap_s32 (st_turnCount (one_thread [quiet 0; quiet 0])
                             + Z.of_nat (r_turns (quiet 0)) + 1))
    by (by vm_compute).
  split; [exact H|].
  exact (idle_cond_wait_blocks_when_others_run
           (one_thread [quiet 0; quiet 0]) (quiet 0) (quiet 0) [] eq_refl H).
Defined.

(** ** Read-write lock: the try-read wrapper *)

(** C6 (the code departs from the claim).  In a deterministic region,
    when its calls return, [__pthread_rwlock_tryrdlock] returns what the
    native call returned, and the one native call it makes is
    [pthread_rwlock_trywrlock], the try-operation of the write lock, not
    [pthread_rwlock_tryrdlock]. *)
Theorem tryrdlock_calls_trywrlock opt ins rwlock s rg rn rp rest :
  det_region opt s ->
  st_script s = rg :: rn :: rp :: rest ->
  exists s' turn,
    __pthread_rwlock_tryrdlock opt ins rwlock s = Done (r_ret rn) s'
    /\ new_events s (Done (r_ret rn) s')
       = EvGetTurn :: EvNative (pthread_rwlock_trywrlock rwlock)
         :: inc_events opt ins sf_pthread_rwlock_tryrdlock turn true
              [rwlock; wrap_u64 (r_ret rn)]
         ++ [EvPutTurn false]
    /\ ~ EvNative (pthread_rwlock_tryrdlock rwlock)
         ∈ new_events s (Done (r_ret rn) s').
Proof.
  intros Hdet Hs.
  unfold __pthread_rwlock_tryrdlock. rewrite bind_eq, (in_non_det_det _ _ Hdet).
  destruct (SCHED_GET_TURN_post opt s rg _ Hdet Hs) as (s1 & E1 & P1 & _).
  rewrite bind_eq, E1.
  destruct (errno_from_error_post s1 _ ltac:(scr P1)) as (s2 & E2 & P2 & _).
  rewrite bind_eq, E2.
  destruct (call_post (EvNative (pthread_rwlock_trywrlock rwlock)) s2 rn _
              ltac:(scr P2)) as (s3 & E3 & P3 & _).
  unfold native. rewrite bind_eq, E3.
  destruct (error_from_errno_post s3 _ ltac:(scr P3)) as (s4 & E4 & P4 & _).
  rewrite bind_eq, E4.
  destruct (SCHED_PUT_TURN_post opt ins sf_pthread_rwlock_tryrdlock
              [rwlock; wrap_u64 (r_ret rn)] s4 rp rest ltac:(scr P4))
    as (s5 & E5 & P5 & _).
  rewrite bind_eq, E5. exists s5, (st_turnCount s4 + 1).
  split; [reflexivity|].
  pose proof (post_trans _ _ _ _ _ _ _ P1
               (post_trans _ _ _ _ _ _ _ P2
                 (post_trans _ _ _ _ _ _ _ P3
                   (post_trans _ _ _ _ _ _ _ P4 P5)))) as P.
  rewrite (new_events_post _ _ _ _ _ P). split; [reflexivity|].
  cbn [app]. unfold inc_events. intros H.
  destruct (log_sync opt); cbn [app] in H;
    repeat (apply elem_of_cons in H as [H|H]; [discriminate|]);
    by apply elem_of_nil in H.
Qed.

Lemma tryrdlock_calls_trywrlock_witness :
  det_region opt_1000 (one_thread [quiet 0; quiet EBUSY; quiet 0])
  /\ exists s' turn,
    __pthread_rwlock_tryrdlock opt_1000 7 55
      (one_thread [quiet 0; quiet EBUSY; quiet 0]) = Done EBUSY s'
    /\ new_events (one_thread [quiet 0; quiet EBUSY; quiet 0]) (Done EBUSY s')
       = EvGetTurn :: EvNative (pthread_rwlock_trywrlock 55)
         :: inc_events opt_1000 7 sf_pthread_rwlock_tryrdlock turn true
              [55; wrap_u64 EBUSY]
         ++ [EvPutTurn false]
    /\ ~ EvNative (pthread_rwlock_tryrdlock 55)
         ∈ new_events (one_thread [quiet 0; quiet EBUSY; quiet 0])
             (Done EBUSY s').
Proof.
  split; [reflexivity|].
  exact (tryrdlock_calls_trywrlock opt_1000 7 55
           (one_thread [quiet 0; quiet EBUSY; quiet 0])
           (quiet 0) (quiet EBUSY) (quiet 0) [] eq_refl eq_refl).
Defined.

(** The sibling paths use the read lock: the wrapper itself in a non-det
    region, and the loop of the blocking read lock. *)
Lemma tryrdlock_in_non_det_region opt ins rwlock s r rest :
  enforce_non_det_annotations opt && st_inNonDet s = true ->
  st_script s = r :: rest ->
  exists s', __pthread_rwlock_tryrdlock opt ins rwlock s = Done (r_ret r) s'
    /\ new_events s (Done (r_ret r) s')
       = [EvNative (pthread_rwlock_tryrdlock rwlock)].
Proof.
  intros Hnd Hs. unfold __pthread_rwlock_tryrdlock, in_non_det.
  rewrite !bind_eq. cbn [gets ret]. rewrite Hnd.
  unfold count_non_det, add_non_det_var, when, native, new_events.
  destruct (record_runtime_stat opt), s; cbn in *; subst; cbn;
    (eexists; split; [reflexivity|]; cbn; by rewrite drop_new).
Qed.

(** ** Releases: [pthreadMutexUnlock] and [semPost] *)

Lemma signals_under_turn_release opt ins f op chan turn :
  signals_under_turn false (release_events opt ins f op chan turn) = true.
Proof. unfold release_events, inc_events. by destruct (log_sync opt). Qed.

Lemma new_events_stop {A} s s' w evs rest :
  post s s' evs rest -> new_events s (@Stop A w s') = evs.
Proof. intros (T & _). unfold new_events. cbn. by rewrite T, drop_new. Qed.

(** Every run of [pthreadMutexUnlock] in a deterministic region, however
    far the script lets it go, is a prefix of one shape. *)
Lemma pthreadMutexUnlock_events opt ins mu s :
  det_region opt s ->
  let o := pthreadMutexUnlock opt ins mu s in
  new_events s o = [EvGetTurn]
  \/ new_events s o = [EvGetTurn; EvNative (pthread_mutex_unlock mu)]
  \/ exists turn,
       new_events s o
       = release_events opt ins sf_pthread_mutex_unlock
           (pthread_mutex_unlock mu) mu turn.
Proof.
  intros Hdet. cbn zeta.
  unfold pthreadMutexUnlock. rewrite bind_eq, (in_non_det_det _ _ Hdet).
  destruct (st_script s) as [|rg scr] eqn:Hs.
  { destruct (SCHED_GET_TURN_pending opt s Hdet Hs) as (s1 & E1 & P1).
    rewrite bind_eq, E1. left. exact (new_events_stop _ _ _ _ _ P1). }
  destruct (SCHED_GET_TURN_post opt s rg _ Hdet Hs) as (s1 & E1 & P1 & _).
  rewrite bind_eq, E1.
  destruct (errno_from_error_post s1 _ ltac:(scr P1)) as (s2 & E2 & P2 & _).
  rewrite bind_eq, E2. unfold native. rewrite bind_eq.
  pose proof (post_trans _ _ _ _ _ _ _ P1 P2) as P12.
  destruct scr as [|rn scr].
  { destruct (call_pending (EvNative (pthread_mutex_unlock mu)) s2
                ltac:(scr P2)) as (s3 & E3 & P3).
    rewrite E3. right. left.
    exact (new_events_stop _ _ _ _ _ (post_trans _ _ _ _ _ _ _ P12 P3)). }
  destruct (call_post (EvNative (pthread_mutex_unlock mu)) s2 rn _
              ltac:(scr P2)) as (s3 & E3 & P3 & _).
  rewrite E3.
  destruct (error_from_errno_post s3 _ ltac:(scr P3)) as (s4 & E4 & P4 & _).
  rewrite bind_eq, E4. rewrite bind_eq. unfold assert.
  pose proof (post_trans _ _ _ _ _ _ _ P12
               (post_trans _ _ _ _ _ _ _ P3 P4)) as P14.
  destruct (r_ret rn =? 0) eqn:Hr.
  2: { right. left. exact (new_events_stop _ _ _ _ _ P14). }
  apply Z.eqb_eq in Hr. rewrite Hr. cbn [ret].
  destruct (emit_post (EvSignal mu false) s4 _ ltac:(scr P4))
    as (s5 & E5 & P5 & _).
  unfold signal, S_signal. rewrite bind_eq, E5.
  pose proof (post_trans _ _ _ _ _ _ _ P14 P5) as P15.
  right. right. exists (st_turnCount s5 + 1).
  destruct scr as [|rp rest].
  - destruct (SCHED_PUT_TURN_pending opt ins sf_pthread_mutex_unlock
                [mu; wrap_u64 0] s5 ltac:(scr P5)) as (s6 & E6 & P6).
    rewrite bind_eq, E6.
    exact (new_events_stop _ _ _ _ _ (post_trans _ _ _ _ _ _ _ P15 P6)).
  - destruct (SCHED_PUT_TURN_post opt ins sf_pthread_mutex_unlock
                [mu; wrap_u64 0] s5 rp rest ltac:(scr P5))
      as (s6 & E6 & P6 & _).
    rewrite bind_eq, E6.
    exact (new_events_post _ _ _ _ _ (post_trans _ _ _ _ _ _ _ P15 P6)).
Qed.

Lemma pthreadMutexUnlock_run opt ins mu s rg rn rp rest :
  det_region opt s ->
  st_script s = rg :: rn :: rp :: rest ->
  r_ret rn = 0 ->
  exists s' turn,
    pthreadMutexUnlock opt ins mu s = Done 0 s'
    /\ new_events s (Done 0 s')
       = release_events opt ins sf_pthread_mutex_unlock
           (pthread_mutex_unlock mu) mu turn
    /\ st_trace s' = st_trace s ++ new_events s (Done 0 s').
Proof.
  intros Hdet Hs Hr.
  unfold pthreadMutexUnlock. rewrite bind_eq, (in_non_det_det _ _ Hdet).
  destruct (SCHED_GET_TURN_post opt s rg _ Hdet Hs) as (s1 & E1 & P1 & _).
  rewrite bind_eq, E1.
  destruct (errno_from_error_post s1 _ ltac:(scr P1)) as (s2 & E2 & P2 & _).
  rewrite bind_eq, E2. unfold native. rewrite bind_eq.
  destruct (call_post (EvNative (pthread_mutex_unlock mu)) s2 rn _
              ltac:(scr P2)) as (s3 & E3 & P3 & _).
  rewrite E3.
  destruct (error_from_errno_post s3 _ ltac:(scr P3)) as (s4 & E4 & P4 & _).
  rewrite bind_eq, E4. rewrite bind_eq. unfold assert. rewrite Hr.
  cbn [Z.eqb ret].
  destruct (emit_post (EvSignal mu false) s4 _ ltac:(scr P4))
    as (s5 & E5 & P5 & _).
  unfold signal, S_signal. rewrite bind_eq, E5.
  destruct (SCHED_PUT_TURN_post opt ins sf_pthread_mutex_unlock
              [mu; wrap_u64 0] s5 rp rest ltac:(scr P5))
    as (s6 & E6 & P6 & _).
  rewrite bind_eq, E6. exists s6, (st_turnCount s5 + 1).
  split; [reflexivity|].
  pose proof (post_trans _ _ _ _ _ _ _ P1
               (post_trans _ _ _ _ _ _ _ P2
                 (post_trans _ _ _ _ _ _ _ P3
                   (post_trans _ _ _ _ _ _ _ P4
                     (post_trans _ _ _ _ _ _ _ P5 P6))))) as P.
  rewrite (new_events_post _ _ _ _ _ P). split; [reflexivity|]. exact (proj1 P).
Qed.

Lemma semPost_events opt ins sem s :
  det_region opt s ->
  let o := semPost opt ins sem s in
  new_events s o = [EvGetTurn]
  \/ new_events s o = [EvGetTurn; EvNative (sem_post sem)]
  \/ exists turn,
       new_events s o
       = release_events opt ins sf_sem_post (sem_post sem) sem turn.
Proof.
  intros Hdet. cbn zeta.
  unfold semPost. rewrite bind_eq, (in_non_det_det _ _ Hdet).
  destruct (st_script s) as [|rg scr] eqn:Hs.
  { destruct (SCHED_GET_TURN_pending opt s Hdet Hs) as (s1 & E1 & P1).
    rewrite bind_eq, E1. left. exact (new_events_stop _ _ _ _ _ P1). }
  destruct (SCHED_GET_TURN_post opt s rg _ Hdet Hs) as (s1 & E1 & P1 & _).
  rewrite bind_eq, E1. unfold native. rewrite bind_eq.
  destruct scr as [|rn scr].
  { destruct (call_pending (EvNative (sem_post sem)) s1 ltac:(scr P1))
      as (s3 & E3 & P3).
    rewrite E3. right. left.
    exact (new_events_stop _ _ _ _ _ (post_trans _ _ _ _ _ _ _ P1 P3)). }
  destruct (call_post (EvNative (sem_post sem)) s1 rn _ ltac:(scr P1))
    as (s3 & E3 & P3 & _).
  rewrite E3. rewrite bind_eq. unfold assert.
  pose proof (post_trans _ _ _ _ _ _ _ P1 P3) as P13.
  destruct (r_ret rn =? 0) eqn:Hr.
  2: { right. left. exact (new_events_stop _ _ _ _ _ P13). }
  apply Z.eqb_eq in Hr. rewrite Hr. cbn [ret].
  destruct (emit_post (EvSignal sem false) s3 _ ltac:(scr P3))
    as (s5 & E5 & P5 & _).
  unfold signal, S_signal. rewrite bind_eq, E5.
  pose proof (post_trans _ _ _ _ _ _ _ P13 P5) as P15.
  right. right. exists (st_turnCount s5 + 1).
  destruct scr as [|rp rest].
  - destruct (SCHED_PUT_TURN_pending opt ins sf_sem_post
                [sem; wrap_u64 0] s5 ltac:(scr P5)) as (s6 & E6 & P6).
    rewrite bind_eq, E6.
    exact (new_events_stop _ _ _ _ _ (post_trans _ _ _ _ _ _ _ P15 P6)).
  - destruct (SCHED_PUT_TURN_post opt ins sf_sem_post
                [sem; wrap_u64 0] s5 rp rest ltac:(scr P5))
      as (s6 & E6 & P6 & _).
    rewrite bind_eq, E6.
    exact (new_events_post _ _ _ _ _ (post_trans _ _ _ _ _ _ _ P15 P6)).
Qed.

Lemma semPost_run opt ins sem s rg rn rp rest :
  det_region opt s ->
  st_script s = rg :: rn :: rp :: rest ->
  r_ret rn = 0 ->
  exists s' turn,
    semPost opt ins sem s = Done 0 s'
    /\ new_events s (Done 0 s')
       = release_events opt ins sf_sem_post (sem_post sem) sem turn.
Proof.
  intros Hdet Hs Hr.
  unfold semPost. rewrite bind_eq, (in_non_det_det _ _ Hdet).
  destruct (SCHED_GET_TURN_post opt s rg _ Hdet Hs) as (s1 & E1 & P1 & _).
  rewrite bind_eq, E1. unfold native. rewrite bind_eq.
  destruct (call_post (EvNative (sem_post sem)) s1 rn _ ltac:(scr P1))
    as (s3 & E3 & P3 & _).
  rewrite E3. rewrite bind_eq. unfold assert. rewrite Hr. cbn [Z.eqb ret].
  destruct (emit_post (EvSignal sem false) s3 _ ltac:(scr P3))
    as (s5 & E5 & P5 & _).
  unfold signal, S_signal. rewrite bind_eq, E5.
  destruct (SCHED_PUT_TURN_post opt ins sf_sem_post
              [sem; wrap_u64 0] s5 rp rest ltac:(scr P5))
    as (s6 & E6 & P6 & _).
  rewrite bind_eq, E6. exists s6, (st_turnCount s5 + 1).
  split; [reflexivity|].
  pose proof (post_trans _ _ _ _ _ _ _ P1
               (post_trans _ _ _ _ _ _ _ P3
                 (post_trans _ _ _ _ _ _ _ P5 P6))) as P.
  exact (new_events_post _ _ _ _ _ P).
Qed.

Lemma filter_sched_release opt ins f op chan turn :
  filter (fun e => is_sched e = true) (release_events opt ins f op chan turn)
  = release_calls chan.
Proof. unfold release_events, inc_events. by destruct (log_sync opt). Qed.

(** C7.  In a deterministic region, every run of [pthreadMutexUnlock] and
    of [semPost], complete or not, issues its [signal] between [getTurn]
    and [putTurn], never after the turn is given back.  A run whose calls
    return and whose native release succeeds is: [getTurn], the native
    release, [signal] on the object (one waiter), the turn count and log
    record, [putTurn].  Two threads that release two objects one turn
    after the other make their scheduler calls in this order: the signal
    of the first comes before its [putTurn], which comes before the
    [getTurn] and the signal of the second. *)
Theorem release_signals_before_putTurn opt ins obj s :
  det_region opt s ->
  (signals_under_turn false (new_events s (pthreadMutexUnlock opt ins obj s))
     = true
   /\ signals_under_turn false (new_events s (semPost opt ins obj s)) = true)
  /\ (forall rg rn rp rest,
        st_script s = rg :: rn :: rp :: rest -> r_ret rn = 0 ->
        exists s1 s2 turn1 turn2,
          pthreadMutexUnlock opt ins obj s = Done 0 s1
          /\ new_events s (Done 0 s1)
             = release_events opt ins sf_pthread_mutex_unlock
                 (pthread_mutex_unlock obj) obj turn1
          /\ semPost opt ins obj s = Done 0 s2
          /\ new_events s (Done 0 s2)
             = release_events opt ins sf_sem_post (sem_post obj) obj turn2)
  /\ (forall t1 t2 m1 m2,
        det_thread opt t1 -> det_thread opt t2 ->
        releases t1 -> releases t2 ->
        exists s',
          in_turn_order [(t1, pthreadMutexUnlock opt ins m1);
                         (t2, pthreadMutexUnlock opt ins m2)] s
            = Some ([(0, release_calls m1); (0, release_calls m2)], s')
          /\ filter (fun e => is_sched e = true)
               (drop (length (st_trace s)) (st_trace s'))
             = release_calls m1 ++ release_calls m2).
Proof.
  intros Hdet. split; [split|split].
  - destruct (pthreadMutexUnlock_events opt ins obj s Hdet)
      as [-> | [-> | [turn ->]]]; try reflexivity.
    apply signals_under_turn_release.
  - destruct (semPost_events opt ins obj s Hdet)
      as [-> | [-> | [turn ->]]]; try reflexivity.
    apply signals_under_turn_release.
  - intros rg rn rp rest Hs Hr.
    destruct (pthreadMutexUnlock_run opt ins obj s rg rn rp rest Hdet Hs Hr)
      as (s1 & turn1 & E1 & T1 & _).
    destruct (semPost_run opt ins obj s rg rn rp rest Hdet Hs Hr)
      as (s2 & turn2 & E2 & T2).
    by exists s1, s2, turn1, turn2.
  - intros t1 t2 m1 m2 Hd1 Hd2 (rg1 & rn1 & rp1 & rest1 & Hs1 & Hr1)
      (rg2 & rn2 & rp2 & rest2 & Hs2 & Hr2).
    cbn [in_turn_order].
    destruct (pthreadMutexUnlock_run opt ins m1 (switch_to t1 s)
                rg1 rn1 rp1 rest1 Hd1 Hs1 Hr1) as (s1 & turn1 & E1 & T1 & Tr1).
    rewrite E1.
    destruct (pthreadMutexUnlock_run opt ins m2 (switch_to t2 s1)
                rg2 rn2 rp2 rest2 Hd2 Hs2 Hr2) as (s2 & turn2 & E2 & T2 & Tr2).
    rewrite E2. rewrite T1, T2, !filter_sched_release.
    eexists. split; [reflexivity|].
    rewrite Tr2, T2. change (st_trace (switch_to t2 s1)) with (st_trace s1).
    rewrite Tr1, T1. change (st_trace (switch_to t1 s)) with (st_trace s).
    rewrite <- app_assoc, drop_new, filter_app, !filter_sched_release.
    reflexivity.
Qed.

Lemma release_signals_before_putTurn_witness :
  det_region opt_1000 (one_thread [quiet 0; quiet 0; quiet 0])
  /\ signals_under_turn false
       (new_events (one_thread [quiet 0; quiet 0; quiet 0])
          (pthreadMutexUnlock opt_1000 7 55
             (one_thread [quiet 0; quiet 0; quiet 0]))) = true
  /\ exists s',
       in_turn_order [(three_answers, pthreadMutexUnlock opt_1000 7 55);
                      (three_answers, pthreadMutexUnlock opt_1000 7 66)]
         (one_thread [quiet 0; quiet 0; quiet 0])
         = Some ([(0, release_calls 55); (0, release_calls 66)], s')
       /\ filter (fun e => is_sched e = true)
            (drop (length (st_trace (one_thread [quiet 0; quiet 0; quiet 0])))
                  (st_trace s'))
          = release_calls 55 ++ release_calls 66.
Proof.
  split; [reflexivity|].
  destruct (release_signals_before_putTurn opt_1000 7 55
              (one_thread [quiet 0; quiet 0; quiet 0]) eq_refl)
    as ((H1 & _) & _ & H3).
  split; [exact H1|].
  apply (H3 three_answers three_answers 55 66); try reflexivity.
  - by exists (quiet 0), (quiet 0), (quiet 0), [].
  - by exists (quiet 0), (quiet 0), (quiet 0), [].
Defined.

(** ** Timed waits without a base time, conversions without the idle
    thread *)

Lemma relTimeToTurn_exits opt t s scr :
  launch_idle_thread opt = false ->
  st_script s = scr ->
  exists s', relTimeToTurn opt (Some t) s = Stop (Exit 1) s'
    /\ post s s' [EvWarn WARN_no_idle_thread] scr.
Proof.
  intros Hidle <-. unfold relTimeToTurn. rewrite bind_eq.
  rewrite (time2turn_no_idle_thread _ _ _ Hidle).
  eexists. split; [reflexivity|]. unfold post. by destruct s.
Qed.

Lemma pthreadCondTimedWait_run opt ins cv mu abst s rg ru rw r0 rp rest :
  det_region opt s ->
  launch_idle_thread opt = true ->
  wrap_u64 (nanosec_per_turn opt) <> 0 ->
  st_script s = rg :: ru :: rw :: r0 :: rp :: rest ->
  r_ret r0 = 0 ->
  exists s' n turn1 turn2,
    pthreadCondTimedWait opt ins cv mu (Some abst) s = Done (r_ret rw) s'
    /\ relTimeToTurn opt (Some (time_diff (measured_from s) abst)) s = Done n s
    /\ new_events s (Done (r_ret rw) s')
       = base_events sf_pthread_cond_timedwait s
         ++ [EvGetTurn; EvNative (pthread_mutex_unlock mu)]
         ++ inc_events opt ins sf_pthread_cond_timedwait turn1 false
              [cv; mu; 0]
         ++ [EvSignal mu false;
             EvWait cv (wrap_u32 (st_turnCount s + Z.of_nat (r_turns rg)
                                  + Z.of_nat (r_turns ru) + 1 + wrap_u32 n));
             EvNative (pthread_mutex_trylock mu)]
         ++ inc_events opt ins sf_pthread_cond_timedwait turn2 true
              [cv; mu; wrap_u64 (r_ret rw)]
         ++ [EvPutTurn false].
Proof.
  intros Hdet Hidle Hper Hs H0.
  unfold pthreadCondTimedWait.
  destruct (base_or_now_post sf_pthread_cond_timedwait s _ Hs)
    as (s0 & cur & E0 & P0 & -> & Hnd & Htc0 & Hn0).
  rewrite bind_eq, E0.
  assert (Hdet0 : det_region opt s0) by (unfold det_region; by rewrite Hnd).
  rewrite bind_eq, (in_non_det_det _ _ Hdet0).
  destruct (SCHED_GET_TURN_post opt s0 rg _ Hdet0 ltac:(scr P0))
    as (s1 & E1 & P1 & _ & Htc1 & Hn1).
  rewrite bind_eq, E1.
  destruct (call_post (EvNative (pthread_mutex_unlock mu)) s1 ru _
              ltac:(scr P1)) as (s2 & E2 & P2 & _ & _ & Htc2 & Hn2).
  unfold native at 1. rewrite bind_eq, E2.
  destruct (SCHED_INC_TURN_post opt ins sf_pthread_cond_timedwait [cv; mu; 0]
              s2 _ ltac:(scr P2)) as (s3 & E3 & P3 & Htc3 & Hn3).
  rewrite bind_eq, E3.
  destruct (emit_post (EvSignal mu false) s3 _ ltac:(scr P3))
    as (s4 & E4 & P4 & _ & _ & Htc4 & Hn4).
  unfold S_signal at 1. rewrite bind_eq, E4.
  destruct (relTimeToTurn_returns opt (time_diff (measured_from s) abst) s
              Hidle Hper) as [n En].
  rewrite bind_eq.
  rewrite (relTimeToTurn_frame opt _ s s4 n
             ltac:(by rewrite Hn4, Hn3, Hn2, Hn1, Hn0) En).
  unfold getTurnCount at 1. rewrite bind_eq. cbn [gets].
  rewrite Htc4, Htc3, Htc2, Htc1, Htc0.
  set (t := wrap_u32 (_ + wrap_u32 n)).
  destruct (call_post (EvWait cv t) s4 rw _ ltac:(scr P4))
    as (s5 & E5 & P5 & _).
  unfold S_wait at 1. rewrite bind_eq, E5.
  destruct (errno_from_error_post s5 _ ltac:(scr P5)) as (s6 & E6 & P6 & _).
  rewrite bind_eq, E6.
  destruct (pthreadMutexLockHelper_locked_post mu NO_TIMEOUT s6 [] r0
              (rp :: rest) ltac:(scr P6) ltac:(constructor) H0)
    as (s7 & E7 & P7).
  rewrite bind_eq, E7.
  destruct (error_from_errno_post s7 _ ltac:(scr P7)) as (s8 & E8 & P8 & _).
  rewrite bind_eq, E8.
  destruct (SCHED_PUT_TURN_post opt ins sf_pthread_cond_timedwait
              [cv; mu; wrap_u64 (r_ret rw)] s8 rp rest ltac:(scr P8))
    as (s9 & E9 & P9 & _).
  rewrite bind_eq, E9.
  exists s9, n, (wrap_u32 (st_turnCount s2 + 1)), (st_turnCount s8 + 1).
  split; [reflexivity|]. split; [exact En|].
  pose proof (post_trans _ _ _ _ _ _ _ P0
               (post_trans _ _ _ _ _ _ _ P1
                 (post_trans _ _ _ _ _ _ _ P2
                   (post_trans _ _ _ _ _ _ _ P3
                     (post_trans _ _ _ _ _ _ _ P4
                       (post_trans _ _ _ _ _ _ _ P5
                         (post_trans _ _ _ _ _ _ _ P6
                           (post_trans _ _ _ _ _ _ _ P7
                             (post_trans _ _ _ _ _ _ _ P8 P9))))))))) as P.
  rewrite (new_events_post _ _ _ _ _ P).
  unfold lock_events. cbn [length replicate mjoin app].
  rewrite <- ?app_assoc. reflexivity.
Qed.

Lemma pthreadMutexTimedLock_exits opt ins mu abst s rg rest :
  det_region opt s ->
  launch_idle_thread opt = false ->
  st_script s = rg :: rest ->
  exists s', pthreadMutexTimedLock opt ins mu (Some abst) s = Stop (Exit 1) s'
    /\ new_events s (Stop (Exit 1) s' : outcome Z)
       = base_events sf_pthread_mutex_timedlock s
         ++ [EvGetTurn; EvWarn WARN_no_idle_thread].
Proof.
  intros Hdet Hidle Hs.
  unfold pthreadMutexTimedLock. rewrite bind_eq, (in_non_det_det _ _ Hdet).
  destruct (base_or_now_post sf_pthread_mutex_timedlock s _ Hs)
    as (s0 & cur & E0 & P0 & -> & Hnd & _).
  rewrite bind_eq, E0.
  assert (Hdet0 : det_region opt s0) by (unfold det_region; by rewrite Hnd).
  destruct (SCHED_GET_TURN_post opt s0 rg _ Hdet0 ltac:(scr P0))
    as (s1 & E1 & P1 & _).
  rewrite bind_eq, E1. unfold getTurnCount at 1. rewrite bind_eq. cbn [gets].
  destruct (relTimeToTurn_exits opt (time_diff (measured_from s) abst) s1 _
              Hidle ltac:(scr P1)) as (s2 & E2 & P2).
  rewrite bind_eq, E2. eexists. split; [reflexivity|].
  exact (new_events_stop _ _ _ _ _
           (post_trans _ _ _ _ _ _ _ P0 (post_trans _ _ _ _ _ _ _ P1 P2))).
Qed.

Lemma semTimedWait_exits opt ins sem abst s rg rest :
  det_region opt s ->
  launch_idle_thread opt = false ->
  st_script s = rg :: rest ->
  exists s', semTimedWait opt ins sem (Some abst) s = Stop (Exit 1) s'
    /\ new_events s (Stop (Exit 1) s' : outcome Z)
       = base_events sf_sem_timedwait s
         ++ [EvGetTurn; EvWarn WARN_no_idle_thread].
Proof.
  intros Hdet Hidle Hs.
  unfold semTimedWait. rewrite bind_eq, (in_non_det_det _ _ Hdet).
  destruct (base_or_now_post sf_sem_timedwait s _ Hs)
    as (s0 & cur & E0 & P0 & -> & Hnd & _).
  rewrite bind_eq, E0.
  assert (Hdet0 : det_region opt s0) by (unfold det_region; by rewrite Hnd).
  destruct (SCHED_GET_TURN_post opt s0 rg _ Hdet0 ltac:(scr P0))
    as (s1 & E1 & P1 & _).
  rewrite bind_eq, E1. unfold getTurnCount at 1. rewrite bind_eq. cbn [gets].
  destruct (relTimeToTurn_exits opt (time_diff (measured_from s) abst) s1 _
              Hidle ltac:(scr P1)) as (s2 & E2 & P2).
  rewrite bind_eq, E2. eexists. split; [reflexivity|].
  exact (new_events_stop _ _ _ _ _
           (post_trans _ _ _ _ _ _ _ P0 (post_trans _ _ _ _ _ _ _ P1 P2))).
Qed.

Lemma pthreadCondTimedWait_exits opt ins cv mu abst s rg ru rest :
  det_region opt s ->
  launch_idle_thread opt = false ->
  st_script s = rg :: ru :: rest ->
  exists s' turn,
    pthreadCondTimedWait opt ins cv mu (Some abst) s = Stop (Exit 1) s'
    /\ new_events s (Stop (Exit 1) s' : outcome Z)
       = base_events sf_pthread_cond_timedwait s
         ++ [EvGetTurn; EvNative (pthread_mutex_unlock mu)]
         ++ inc_events opt ins sf_pthread_cond_timedwait turn false
              [cv; mu; 0]
         ++ [EvSignal mu false; EvWarn WARN_no_idle_thread].
Proof.
  intros Hdet Hidle Hs.
  unfold pthreadCondTimedWait.
  destruct (base_or_now_post sf_pthread_cond_timedwait s _ Hs)
    as (s0 & cur & E0 & P0 & -> & Hnd & _).
  rewrite bind_eq, E0.
  assert (Hdet0 : det_region opt s0) by (unfold det_region; by rewrite Hnd).
  rewrite bind_eq, (in_non_det_det _ _ Hdet0).
  destruct (SCHED_GET_TURN_post opt s0 rg _ Hdet0 ltac:(scr P0))
    as (s1 & E1 & P1 & _).
  rewrite bind_eq, E1.
  destruct (call_post (EvNative (pthread_mutex_unlock mu)) s1 ru _
              ltac:(scr P1)) as (s2 & E2 & P2 & _).
  unfold native at 1. rewrite bind_eq, E2.
  destruct (SCHED_INC_TURN_post opt ins sf_pthread_cond_timedwait [cv; mu; 0]
              s2 _ ltac:(scr P2)) as (s3 & E3 & P3 & _).
  rewrite bind_eq, E3.
  destruct (emit_post (EvSignal mu false) s3 _ ltac:(scr P3))
    as (s4 & E4 & P4 & _).
  unfold S_signal at 1. rewrite bind_eq, E4.
  destruct (relTimeToTurn_exits opt (time_diff (measured_from s) abst) s4 _
              Hidle ltac:(scr P4)) as (s5 & E5 & P5).
  rewrite bind_eq, E5. exists s5, (wrap_u32 (st_turnCount s2 + 1)).
  split; [reflexivity|].
  pose proof (post_trans _ _ _ _ _ _ _ P0
               (post_trans _ _ _ _ _ _ _ P1
                 (post_trans _ _ _ _ _ _ _ P2
                   (post_trans _ _ _ _ _ _ _ P3
                     (post_trans _ _ _ _ _ _ _ P4 P5))))) as P.
  rewrite (new_events_stop _ _ _ _ _ P). by rewrite <- ?app_assoc.
Qed.

(** C8 (the claim fails).  Without the idle thread ([launch_idle_thread]
    off) the conversion does not fall back to anything: it warns and calls
    [exit(1)], and so does a timed wrapper that reaches it. *)
Lemma conversion_without_idle_thread_exits :
  time2turn opt_no_idle 2000000 (no_base_time [])
    = Stop (Exit 1)
        (set_trace [EvWarn WARN_no_idle_thread] (no_base_time []))
  /\ ~ proceeds (time2turn opt_no_idle 2000000 (no_base_time []))
  /\ ~ proceeds (semTimedWait opt_no_idle 7 55 (Some (Timespec 100 2000000))
                   (no_base_time [quiet 0; quiet 0; quiet 0])).
Proof.
  split; [reflexivity|]. split.
  - intros (a & s' & H). discriminate H.
  - intros (a & s' & H).
    destruct (semTimedWait_exits opt_no_idle 7 55 (Timespec 100 2000000)
                (no_base_time [quiet 0; quiet 0; quiet 0]) (quiet 0)
                [quiet 0; quiet 0] eq_refl eq_refl eq_refl) as (s1 & E & _).
    rewrite E in H. discriminate H.
Qed.

Lemma base_events_none f s :
  tv_sec (st_my_base_time s) = 0 -> base_events f s = no_base_events f.
Proof. intros H. unfold base_events. by rewrite H. Qed.

Lemma measured_from_none s :
  tv_sec (st_my_base_time s) = 0 -> measured_from s = st_realtime s.
Proof. intros H. unfold measured_from. by rewrite H. Qed.

(** C8 (as the code has it).  A timed wrapper called in a deterministic
    region with an absolute deadline and no base time first logs a warning
    and reads the wall clock.  With the idle thread (and a calibration
    that is not zero) the run goes on: the deadline of the wait is the
    turn count plus the conversion of the time from the wall clock to the
    deadline, and the wrapper returns.  Without the idle thread the
    conversion logs a second warning and ends the process with
    [exit(1)], in [time2turn] and so in each of the three wrappers. *)
Theorem timed_wait_without_base_time opt ins obj mu abst s rg ru rest :
  det_region opt s ->
  tv_sec (st_my_base_time s) = 0 ->
  st_script s = rg :: ru :: rest ->
  (launch_idle_thread opt = true ->
   wrap_u64 (nanosec_per_turn opt) <> 0 ->
   exists n,
     relTimeToTurn opt (Some (time_diff (st_realtime s) abst)) s = Done n s
     /\ (forall rt rp rest',
           rest = rt :: rp :: rest' ->
           r_ret ru = EBUSY -> r_ret rt = ETIMEDOUT ->
           exists s' turn,
             pthreadMutexTimedLock opt ins obj (Some abst) s
               = Done ETIMEDOUT s'
             /\ new_events s (Done ETIMEDOUT s')
                = no_base_events sf_pthread_mutex_timedlock
                  ++ [EvGetTurn; EvNative (pthread_mutex_trylock obj);
                      EvWait obj (wrap_u32 (st_turnCount s
                                            + Z.of_nat (r_turns rg) + n))]
                  ++ inc_events opt ins sf_pthread_mutex_timedlock turn true
                       [obj; wrap_u64 ETIMEDOUT]
                  ++ [EvPutTurn false])
     /\ (forall rt rp rest',
           rest = rt :: rp :: rest' ->
           r_ret ru <> 0 -> r_errno ru = Some EAGAIN ->
           r_ret rt = ETIMEDOUT ->
           exists s' turn,
             semTimedWait opt ins obj (Some abst) s = Done (-1) s'
             /\ new_events s (Done (-1) s')
                = no_base_events sf_sem_timedwait
                  ++ [EvGetTurn; EvNative (sem_trywait obj);
                      EvWait obj (wrap_u32 (st_turnCount s
                                            + Z.of_nat (r_turns rg) + n))]
                  ++ inc_events opt ins sf_sem_timedwait turn true
                       [obj; wrap_u64 (-1)]
                  ++ [EvPutTurn false])
     /\ (forall rw r0 rp rest',
           rest = rw :: r0 :: rp :: rest' ->
           r_ret r0 = 0 ->
           exists s' turn1 turn2,
             pthreadCondTimedWait opt ins obj mu (Some abst) s
               = Done (r_ret rw) s'
             /\ new_events s (Done (r_ret rw) s')
                = no_base_events sf_pthread_cond_timedwait
                  ++ [EvGetTurn; EvNative (pthread_mutex_unlock mu)]
                  ++ inc_events opt ins sf_pthread_cond_timedwait turn1 false
                       [obj; mu; 0]
                  ++ [EvSignal mu false;
                      EvWait obj (wrap_u32 (st_turnCount s
                                            + Z.of_nat (r_turns rg)
                                            + Z.of_nat (r_turns ru) + 1
                                            + wrap_u32 n));
                      EvNative (pthread_mutex_trylock mu)]
                  ++ inc_events opt ins sf_pthread_cond_timedwait turn2 true
                       [obj; mu; wrap_u64 (r_ret rw)]
                  ++ [EvPutTurn false]))
  /\ (launch_idle_thread opt = false ->
      (forall nsec s0,
          time2turn opt nsec s0
          = Stop (Exit 1)
              (set_trace (st_trace s0 ++ [EvWarn WARN_no_idle_thread]) s0))
      /\ (exists s',
           pthreadMutexTimedLock opt ins obj (Some abst) s = Stop (Exit 1) s'
           /\ new_events s (Stop (Exit 1) s' : outcome Z)
              = no_base_events sf_pthread_mutex_timedlock
                ++ [EvGetTurn; EvWarn WARN_no_idle_thread])
      /\ (exists s',
           semTimedWait opt ins obj (Some abst) s = Stop (Exit 1) s'
           /\ new_events s (Stop (Exit 1) s' : outcome Z)
              = no_base_events sf_sem_timedwait
                ++ [EvGetTurn; EvWarn WARN_no_idle_thread])
      /\ (exists s' turn,
           pthreadCondTimedWait opt ins obj mu (Some abst) s
             = Stop (Exit 1) s'
           /\ new_events s (Stop (Exit 1) s' : outcome Z)
              = no_base_events sf_pthread_cond_timedwait
                ++ [EvGetTurn; EvNative (pthread_mutex_unlock mu)]
                ++ inc_events opt ins sf_pthread_cond_timedwait turn false
                     [obj; mu; 0]
                ++ [EvSignal mu false; EvWarn WARN_no_idle_thread])).
Proof.
  intros Hdet Hbase Hs. split.
  - intros Hidle Hper.
    destruct (relTimeToTurn_returns opt (time_diff (st_realtime s) abst) s
                Hidle Hper) as [n En].
    exists n. split; [exact En|]. split; [|split].
    + intros rt rp rest' -> Hb Ht.
      destruct (pthreadMutexTimedLock_run opt ins obj abst s rg [] [ru; rt] rp
                  rest' ETIMEDOUT Hdet Hidle Hper Hs ltac:(constructor))
        as (s' & n' & turn & E & En' & T).
      { right. by exists ru, rt. }
      rewrite (measured_from_none _ Hbase), En in En'. injection En' as <-.
      exists s', turn. split; [exact E|].
      rewrite T, (base_events_none _ _ Hbase). reflexivity.
    + intros rt rp rest' -> Hb He Ht.
      destruct (semTimedWait_run opt ins obj abst s rg [] [ru; rt] rp
                  rest' (-1) ETIMEDOUT Hdet Hidle Hper Hs ltac:(constructor))
        as (s' & n' & turn & E & En' & T & _).
      { right. by exists ru, rt. }
      rewrite (measured_from_none _ Hbase), En in En'. injection En' as <-.
      exists s', turn. split; [exact E|].
      rewrite T, (base_events_none _ _ Hbase). reflexivity.
    + intros rw r0 rp rest' -> H0.
      destruct (pthreadCondTimedWait_run opt ins obj mu abst s rg ru rw r0 rp
                  rest' Hdet Hidle Hper Hs H0)
        as (s' & n' & turn1 & turn2 & E & En' & T).
      rewrite (measured_from_none _ Hbase), En in En'. injection En' as <-.
      exists s', turn1, turn2. split; [exact E|].
      rewrite T, (base_events_none _ _ Hbase). reflexivity.
  - intros Hidle. split; [|split; [|split]].
    + intros nsec s0. by apply time2turn_no_idle_thread.
    + destruct (pthreadMutexTimedLock_exits opt ins obj abst s rg _ Hdet
                  Hidle Hs) as (s' & E & T).
      exists s'. split; [exact E|]. by rewrite T, (base_events_none _ _ Hbase).
    + destruct (semTimedWait_exits opt ins obj abst s rg _ Hdet Hidle Hs)
        as (s' & E & T).
      exists s'. split; [exact E|]. by rewrite T, (base_events_none _ _ Hbase).
    + destruct (pthreadCondTimedWait_exits opt ins obj mu abst s rg ru rest
                  Hdet Hidle Hs) as (s' & turn & E & T).
      exists s', turn. split; [exact E|].
      by rewrite T, (base_events_none _ _ Hbase).
Qed.

Lemma timed_wait_without_base_time_witness :
  det_region opt_1000
    (no_base_time [quiet 0; quiet EBUSY; quiet ETIMEDOUT; quiet 0])
  /\ tv_sec (st_my_base_time
       (no_base_time [quiet 0; quiet EBUSY; quiet ETIMEDOUT; quiet 0])) = 0
  /\ exists n,
       relTimeToTurn opt_1000
         (Some (time_diff (Timespec 100 0) (Timespec 100 2000000)))
         (no_base_time [quiet 0; quiet EBUSY; quiet ETIMEDOUT; quiet 0])
       = Done n (no_base_time [quiet 0; quiet EBUSY; quiet ETIMEDOUT; quiet 0])
       /\ exists s' turn,
            pthreadMutexTimedLock opt_1000 7 55 (Some (Timespec 100 2000000))
              (no_base_time [quiet 0; quiet EBUSY; quiet ETIMEDOUT; quiet 0])
            = Done ETIMEDOUT s'
            /\ new_events
                 (no_base_time [quiet 0; quiet EBUSY; quiet ETIMEDOUT; quiet 0])
                 (Done ETIMEDOUT s')
               = no_base_events sf_pthread_mutex_timedlock
                 ++ [EvGetTurn; EvNative (pthread_mutex_trylock 55);
                     EvWait 55 (wrap_u32 (10 + 0 + n))]
                 ++ inc_events opt_1000 7 sf_pthread_mutex_timedlock turn true
                      [55; wrap_u64 ETIMEDOUT]
                 ++ [EvPutTurn false].
Proof.
  split; [reflexivity|]. split; [reflexivity|].
  destruct (timed_wait_without_base_time opt_1000 7 55 66
              (Timespec 100 2000000)
              (no_base_time [quiet 0; quiet EBUSY; quiet ETIMEDOUT; quiet 0])
              (quiet 0) (quiet EBUSY) [quiet ETIMEDOUT; quiet 0]
              eq_refl eq_refl eq_refl) as [H _].
  destruct (H eq_refl ltac:(by vm_compute)) as (n & En & Hm & _).
  exists n. split; [exact En|].
  exact (Hm (quiet ETIMEDOUT) (quiet 0) [] eq_refl eq_refl eq_refl).
Defined.

(** ** errno *)

Lemma gets_inv {A} (f : state -> A) s a s' :
  gets f s = Done a s' -> a = f s /\ s' = s.
Proof. unfold gets. by intros [= <- <-]. Qed.

Lemma modify_inv f s a s' : modify f s = Done a s' -> s' = f s.
Proof. unfold modify. by intros [= <-]. Qed.

Lemma ret_inv {A} (a b : A) s s' : ret a s = Done b s' -> b = a /\ s' = s.
Proof. unfold ret. by intros [= <- <-]. Qed.

Lemma assert_inv b s a s' : assert b s = Done a s' -> s' = s.
Proof. unfold assert. destruct b; [|discriminate]. by intros [= <-]. Qed.

Lemma sched_timer_end_errno log ins op args s s' :
  sched_timer_end log ins op args s = Done tt s' -> st_errno s' = st_errno s.
Proof.
  unfold sched_timer_end. intros H.
  apply bind_Done in H as (b & s1 & [-> ->]%gets_inv & H).
  apply bind_Done in H as (u1 & s2 & _ & H).
  apply bind_Done in H as (u2 & s3 & _ & H).
  apply modify_inv in H. subst. by destruct s3.
Qed.

Lemma BLOCK_TIMER_END_errno s s' :
  BLOCK_TIMER_END s = Done tt s' -> st_errno s' = st_errno s.
Proof.
  unfold BLOCK_TIMER_END. intros H.
  apply bind_Done in H as (b & s1 & [-> ->]%gets_inv & H).
  apply bind_Done in H as (u3 & s2 & _ & H).
  apply bind_Done in H as (u4 & s3 & _ & H).
  apply modify_inv in H. subst. by destruct s3.
Qed.

Lemma semTimedWait_errno opt ins sem abst s r s' :
  det_region opt s ->
  semTimedWait opt ins sem (Some abst) s = Done r s' ->
  (r = 0 /\ st_errno s' = 0) \/ (r = -1 /\ st_errno s' = ETIMEDOUT).
Proof.
  intros Hdet. unfold semTimedWait. rewrite bind_eq, (in_non_det_det _ _ Hdet).
  intros H.
  apply bind_Done in H as (cur & s0 & _ & H).
  apply bind_Done in H as (u5 & s1 & _ & H).
  apply bind_Done in H as (tc & s2 & _ & H).
  apply bind_Done in H as (n & s3 & _ & H).
  apply bind_Done in H as (out & s4 & Hloop & H).
  apply bind_Done in H as (u6 & s5 & _ & H).
  apply bind_Done in H as (u7 & s6 & ->%modify_inv & [-> ->]%ret_inv).
  apply semTimedWait_loop_result in Hloop as [-> | ->]; [left|right];
    by destruct s5.
Qed.

(** A wrapper that ends with [SCHED_PUT_TURN], and one that ends with
    [BLOCK_TIMER_END]: errno at the return is the errno the native call
    left. *)
Lemma pthreadMutexTryLock_errno opt ins mu s r s' :
  det_region opt s ->
  pthreadMutexTryLock opt ins mu s = Done r s' ->
  exists s1 s2, native (pthread_mutex_trylock mu) s1 = Done r s2
    /\ st_errno s' = st_errno s2.
Proof.
  intros Hdet. unfold pthreadMutexTryLock.
  rewrite bind_eq, (in_non_det_det _ _ Hdet). intros H.
  apply bind_Done in H as (u8 & s1 & _ & H).
  apply bind_Done in H as (u9 & s2 & _ & H).
  apply bind_Done in H as (v & s3 & Hn & H).
  apply bind_Done in H as (u10 & s4 & He & H).
  apply bind_Done in H as (u11 & s5 & ->%assert_inv & H).
  apply bind_Done in H
    as ([] & s6 & Hp%sched_timer_end_errno & [-> ->]%ret_inv).
  exists s2, s3. split; [exact Hn|]. rewrite Hp.
  unfold error_from_errno in He.
  apply bind_Done in He as (u12 & ? & [-> ->]%gets_inv & ->%modify_inv).
  by destruct s3.
Qed.

Lemma recv_errno opt ins sockfd len flags s r s' :
  det_region opt s ->
  __recv opt ins sockfd len flags s = Done r s' ->
  exists s1 s2, native (Runtime__recv sockfd len flags) s1 = Done r s2
    /\ st_errno s' = st_errno s2.
Proof.
  intros Hdet. unfold __recv, BLOCK_TIMER_START. intros H.
  apply bind_Done in H as (u13 & s1 & Hw & H).
  assert (Hdet1 : det_region opt s1).
  { unfold when in Hw. destruct (record_runtime_stat opt).
    - apply modify_inv in Hw. subst. by destruct s.
    - apply ret_inv in Hw as [_ ->]. done. }
  rewrite bind_eq, (in_non_det_det _ _ Hdet1) in H.
  apply bind_Done in H as (b & s2 & _ & H).
  apply bind_Done in H as (u14 & s3 & _ & H).
  apply bind_Done in H as (v & s4 & Hn & H).
  apply bind_Done in H
    as ([] & s5 & Hb%BLOCK_TIMER_END_errno & [-> ->]%ret_inv).
  by exists s3, s4.
Qed.




(** * Further properties *)

(** ** [time_diff] *)

(** X1.  On normalized times [time_diff] is normalized, and it is the
    difference: adding it to [start] gives [end_], in nanoseconds. *)
Theorem time_diff_sound start end_ :
  normalized start -> normalized end_ ->
  normalized (time_diff start end_)
  /\ ns_of (time_diff start end_) = ns_of end_ - ns_of start.
Proof.
  unfold normalized, ns_of, time_diff. intros Hs He.
  destruct (tv_nsec end_ - tv_nsec start <? 0) eqn:E; cbn; lia.
Qed.

Lemma time_diff_sound_witness :
  normalized (time_diff (Timespec 100 900000000) (Timespec 101 100000000))
  /\ ns_of (time_diff (Timespec 100 900000000) (Timespec 101 100000000))
     = 200000000.
Proof.
  apply (time_diff_sound (Timespec 100 900000000) (Timespec 101 100000000));
    unfold normalized; cbn; lia.
Defined.

(** ** The range of the conversion *)

Lemma time2turn_range opt nsec r s s' :
  time2turn opt nsec s = Done r s' -> 0 <= r <= MAX_REL /\ s' = s.
Proof.
  unfold time2turn, MAX_REL, bind, emit, modify, halt, ret.
  destruct (negb (launch_idle_thread opt)); [discriminate|].
  destruct (wrap_u64 (nanosec_per_turn opt) =? 0) eqn:E; [discriminate|].
  apply Z.eqb_neq in E.
  assert (0 <= wrap_u64 nsec) by (apply Z.mod_pos_bound; lia).
  assert (0 < wrap_u64 (nanosec_per_turn opt))
    by (pose proof (Z.mod_pos_bound (nanosec_per_turn opt) (2 ^ 64));
        unfold wrap_u64 in *; lia).
  assert (0 <= wrap_u64 nsec / wrap_u64 (nanosec_per_turn opt))
    by (apply Z.div_pos; lia).
  intros [= <- <-]. split; [|done].
  destruct (_ >? 1000000) eqn:E1; [lia|].
  rewrite wrap_s32_small; lia.
Qed.

(** X2.  Whatever the relative time, a negative one included, a
    conversion that returns gives at least [5 * nthread + 1] turns and at
    most the larger of that and [MAX_REL]; it leaves the state alone. *)
Theorem relTimeToTurn_range opt t s n s' :
  relTimeToTurn opt (Some t) s = Done n s' ->
  0 <= st_nthread s -> 5 * st_nthread s + 1 < 2 ^ 31 ->
  5 * st_nthread s + 1 <= n <= Z.max MAX_REL (5 * st_nthread s + 1)
  /\ s' = s.
Proof.
  intros H Hn0 Hn1. unfold relTimeToTurn in H.
  apply bind_Done in H as (r & s1 & Hr & H).
  apply time2turn_range in Hr as [Hr ->].
  unfold bind, gets, ret in H. injection H as <- <-.
  rewrite wrap_s32_small by lia. split; [|done].
  destruct (r <? 5 * st_nthread s + 1) eqn:E; lia.
Qed.

Lemma relTimeToTurn_range_witness :
  5 * 1 + 1 <= 1000000 <= Z.max MAX_REL (5 * 1 + 1)
  /\ one_thread [] = one_thread [].
Proof.
  apply (relTimeToTurn_range opt_1000 (Timespec (-1) 700000000)
           (one_thread []) 1000000 (one_thread []));
    [reflexivity|cbn; lia|cbn; lia].
Defined.

(** X3.  On relative times that are not negative the conversion is
    monotone: a longer time never gives fewer turns. *)
Theorem relTimeToTurn_monotone opt t1 t2 s n1 n2 s1 s2 :
  relTimeToTurn opt (Some t1) s = Done n1 s1 ->
  relTimeToTurn opt (Some t2) s = Done n2 s2 ->
  0 < nanosec_per_turn opt < 2 ^ 64 ->
  0 <= tv_sec t1 -> 0 <= tv_nsec t1 ->
  0 <= tv_sec t2 -> 0 <= tv_nsec t2 ->
  ns_of t1 <= ns_of t2 < 2 ^ 63 ->
  n1 <= n2.
Proof.
  unfold ns_of. intros H1 H2 Hper Hs1 Hn1 Hs2 Hn2 Hle.
  unfold relTimeToTurn, time2turn, bind, gets, ret, halt, emit, modify
    in H1, H2.
  destruct (negb (launch_idle_thread opt)); [discriminate|].
  rewrite (wrap_u64_small (nanosec_per_turn opt)) in H1, H2 by lia.
  destruct (nanosec_per_turn opt =? 0) eqn:E; [lia|].
  rewrite (wrap_s64_small (tv_sec t1 * 1000000000)) in H1 by lia.
  rewrite (wrap_s64_small (tv_sec t2 * 1000000000)) in H2 by lia.
  rewrite wrap_s64_small, wrap_u64_small in H1, H2 by lia.
  injection H1 as <- _. injection H2 as <- _.
  set (lower := wrap_s32 (5 * st_nthread s + 1)).
  set (q1 := (tv_sec t1 * 1000000000 + tv_nsec t1) / nanosec_per_turn opt).
  set (q2 := (tv_sec t2 * 1000000000 + tv_nsec t2) / nanosec_per_turn opt).
  assert (0 <= q1) by (apply Z.div_pos; lia).
  assert (q1 <= q2) by (apply Z.div_le_mono; lia).
  unfold MAX_REL.
  destruct (q1 >? 1000000) eqn:E1; destruct (q2 >? 1000000) eqn:E2;
    rewrite ?(wrap_s32_small q1), ?(wrap_s32_small q2) by lia;
    repeat match goal with |- context [?a <? ?b] =>
      destruct (a <? b) eqn:?
    end; lia.
Qed.

Lemma relTimeToTurn_monotone_witness : 2000 <= 3000.
Proof.
  apply (relTimeToTurn_monotone opt_1000 (Timespec 0 2000000)
           (Timespec 0 3000000) (one_thread []) 2000 3000
           (one_thread []) (one_thread []));
    try reflexivity; unfold ns_of; cbn; lia.
Defined.

(** ** The log records *)

Lemma wrap_u32_small z : 0 <= z < 2 ^ 32 -> wrap_u32 z = z.
Proof. intros H. unfold wrap_u32. by rewrite Z.mod_small. Qed.

Lemma wrap_s16_small z : - 2 ^ 15 <= z < 2 ^ 15 -> wrap_s16 z = z.
Proof. intros H. unfold wrap_s16. rewrite Z.mod_small; lia. Qed.

Lemma NumExtraArgsRecords_div narg :
  0 <= narg < 2 ^ 31 -> NumExtraArgsRecords narg = narg / 3.
Proof.
  intros H. unfold NumExtraArgsRecords, MAX_INLINE_ARGS, MAX_EXTRA_ARGS.
  rewrite (wrap_u32_small narg) by lia.
  replace (wrap_u32 (wrap_u32 (wrap_u32 (narg - 2) + 3) - 1)) with narg.
  - apply wrap_s32_small.
    assert (0 <= narg / 3) by (apply Z.div_pos; lia).
    assert (narg / 3 <= narg) by (apply Z.div_le_upper_bound; lia).
    lia.
  - unfold wrap_u32.
    rewrite Zplus_mod_idemp_l, Zminus_mod_idemp_l.
    replace (narg - 2 + 3 - 1) with narg by lia.
    by rewrite Z.mod_small by lia.
Qed.

(** X4.  [NumExtraArgsRecords narg] is the least number of extra records
    that, with the two inline slots of the call record, hold [narg]
    arguments. *)
Theorem NumExtraArgsRecords_least narg :
  0 <= narg < 2 ^ 31 ->
  0 <= NumExtraArgsRecords narg
  /\ narg <= MAX_INLINE_ARGS + MAX_EXTRA_ARGS * NumExtraArgsRecords narg
  /\ forall k, 0 <= k ->
       narg <= MAX_INLINE_ARGS + MAX_EXTRA_ARGS * k ->
       NumExtraArgsRecords narg <= k.
Proof.
  intros H. rewrite NumExtraArgsRecords_div by done.
  unfold MAX_INLINE_ARGS, MAX_EXTRA_ARGS.
  pose proof (Z.div_mod narg 3 ltac:(lia)).
  pose proof (Z.mod_pos_bound narg 3 ltac:(lia)).
  repeat split; try lia.
Qed.

Lemma NumExtraArgsRecords_least_witness :
  0 <= NumExtraArgsRecords 6
  /\ 6 <= MAX_INLINE_ARGS + MAX_EXTRA_ARGS * NumExtraArgsRecords 6
  /\ forall k, 0 <= k ->
       6 <= MAX_INLINE_ARGS + MAX_EXTRA_ARGS * k ->
       NumExtraArgsRecords 6 <= k.
Proof. apply (NumExtraArgsRecords_least 6). lia. Defined.
Lemma ExtraArgsRec_numArgsInRec_value p fl n i :
  3 <= n <= 767 -> 1 <= i <= n / 3 ->
  ExtraArgsRec_numArgsInRec (mkCallRecPrefix p fl (i mod 2 ^ 8) n)
  = Z.min (n - 2 - 3 * (i - 1)) 3.
Proof.
  intros Hn Hi.
  pose proof (Z.div_mod n 3 ltac:(lia)).
  pose proof (Z.mod_pos_bound n 3 ltac:(lia)).
  unfold ExtraArgsRec_numArgsInRec, MAX_INLINE_ARGS, MAX_EXTRA_ARGS. cbn.
  rewrite (Z.mod_small i) by lia.
  rewrite (wrap_u32_small n), (wrap_u32_small (n - 2)),
    (wrap_u32_small (i - 1)), (wrap_u32_small ((i - 1) * 3)) by lia.
  rewrite wrap_u32_small, wrap_s16_small by lia.
  rewrite (wrap_s16_small 3) by lia. f_equal. lia.
Qed.

Lemma sumZ_chunks (len : nat) : forall a m,
  0 <= m -> 3 * Z.of_nat len - 2 <= m <= 3 * Z.of_nat len ->
  sumZ (map (fun i => Z.min (m - 3 * (i - a)) 3) (seqZ a (Z.of_nat len))) = m.
Proof.
  induction len as [|len IH]; intros a m H0 H.
  - change (sumZ [] = m). unfold sumZ. cbn. lia.
  - rewrite seqZ_cons by lia. cbn [map sumZ foldr].
    replace (Z.pred (Z.of_nat (S len))) with (Z.of_nat len) by lia.
    destruct len as [|len].
    + change (Z.min (m - 3 * (a - a)) 3 + 0 = m). lia.
    + fold (sumZ (map (fun i => Z.min (m - 3 * (i - a)) 3)
                   (seqZ (Z.succ a) (Z.of_nat (S len))))).
      rewrite (map_ext_in _ (fun i => Z.min (m - 3 - 3 * (i - Z.succ a)) 3)).
      * rewrite IH by lia. lia.
      * intros i _. f_equal. lia.
Qed.

(** X5.  A call with up to 767 arguments (the most the 8-bit [seq] can
    number) is logged without losing or repeating one: the call record
    and its extra records together hold exactly [narg] arguments, every
    extra record holds between one and three, and there are
    [NumExtraArgsRecords narg] of them. *)
Theorem extra_recs_hold_all_args p fl n :
  0 <= n <= 767 ->
  CallRec_numArgsInRec (mkCallRecPrefix p fl 0 n)
  + sumZ (map ExtraArgsRec_numArgsInRec (extra_recs p fl n)) = n
  /\ Forall (fun r => 1 <= ExtraArgsRec_numArgsInRec r <= MAX_EXTRA_ARGS)
            (extra_recs p fl n)
  /\ Z.of_nat (length (extra_recs p fl n)) = NumExtraArgsRecords n.
Proof.
  intros Hn. unfold extra_recs, CallRec_numArgsInRec, MAX_INLINE_ARGS.
  cbn [narg]. rewrite (wrap_s16_small 2) by lia.
  rewrite NumExtraArgsRecords_div by lia.
  pose proof (Z.div_mod n 3 ltac:(lia)).
  pose proof (Z.mod_pos_bound n 3 ltac:(lia)).
  assert (0 <= n / 3) by (apply Z.div_pos; lia).
  split; [|split].
  - destruct (decide (n <= 2)) as [Hsmall|Hbig].
    + replace (n / 3) with 0 by lia. rewrite seqZ_nil by lia.
      unfold sumZ. cbn. lia.
    + rewrite map_map.
      rewrite (map_ext_in _ (fun i => Z.min (n - 2 - 3 * (i - 1)) 3)).
      * rewrite <- (Z2Nat.id (n / 3)) at 1 by lia.
        rewrite sumZ_chunks; lia.
      * intros i Hi. apply list_elem_of_In, elem_of_seqZ in Hi.
        apply ExtraArgsRec_numArgsInRec_value; lia.
  - apply Forall_forall. intros r Hr.
    apply list_elem_of_In, in_map_iff in Hr as (i & <- & Hi).
    apply list_elem_of_In, elem_of_seqZ in Hi.
    rewrite ExtraArgsRec_numArgsInRec_value by lia.
    unfold MAX_EXTRA_ARGS. lia.
  - rewrite length_map, length_seqZ. lia.
Qed.

Lemma extra_recs_hold_all_args_witness :
  CallRec_numArgsInRec (mkCallRecPrefix (mkInsidRec 7 CallRecTy) 0 0 6)
  + sumZ (map ExtraArgsRec_numArgsInRec
            (extra_recs (mkInsidRec 7 CallRecTy) 0 6)) = 6
  /\ Forall (fun r => 1 <= ExtraArgsRec_numArgsInRec r <= MAX_EXTRA_ARGS)
            (extra_recs (mkInsidRec 7 CallRecTy) 0 6)
  /\ Z.of_nat (length (extra_recs (mkInsidRec 7 CallRecTy) 0 6))
     = NumExtraArgsRecords 6.
Proof.
  apply (extra_recs_hold_all_args (mkInsidRec 7 CallRecTy) 0 6). lia.
Defined.

(** X6.  [setInsid] accepts the ids below 2^29 and [INVALID_INSID];
    [getInsid] reads back the id that was set, except for 2^29 - 1: that
    id passes the assertion and is read back as [INVALID_INSID].  The
    type field is not touched. *)
Theorem setInsid_getInsid id r :
  0 <= id < 2 ^ 32 ->
  (is_Some (setInsid id r) <-> id < 2 ^ 29 \/ id = INVALID_INSID)
  /\ forall r', setInsid id r = Some r' ->
       type r' = type r
       /\ getInsid r' = (if id =? 2 ^ 29 - 1 then INVALID_INSID else id).
Proof.
  intros Hid. unfold setInsid, getInsid, validInsid.
  change INVALID_INSID_IN_REC with 536870911.
  change MAX_INSID with 536870912. change INVALID_INSID with 4294967295.
  change (2 ^ INSID_BITS) with 536870912.
  split.
  - destruct (id =? 4294967295) eqn:E1.
    + cbn. split; [lia|]. intros _. by eexists.
    + destruct (id <? 536870912) eqn:E2.
      * split; [lia|]. intros _. by eexists.
      * split; [intros [? [=]]|lia].
  - intros r'. destruct (id =? 4294967295) eqn:E1.
    + cbn. intros [= <-]. cbn. split; [done|].
      change (536870911 `mod` 536870912) with 536870911. cbn.
      destruct (id =? 2 ^ 29 - 1) eqn:E3; lia.
    + destruct (id <? 536870912) eqn:E2; [|discriminate].
      intros [= <-]. cbn. split; [done|].
      rewrite Z.mod_small by lia.
      destruct (id =? 536870911) eqn:E3; cbn.
      * replace (id =? 2 ^ 29 - 1) with true by lia. done.
      * replace (id =? 2 ^ 29 - 1) with false by lia. done.
Qed.

Lemma setInsid_getInsid_witness :
  (is_Some (setInsid 536870911 (mkInsidRec 0 SyncRecTy))
   <-> 536870911 < 2 ^ 29 \/ 536870911 = INVALID_INSID)
  /\ forall r', setInsid 536870911 (mkInsidRec 0 SyncRecTy) = Some r' ->
       type r' = type (mkInsidRec 0 SyncRecTy)
       /\ getInsid r' = (if 536870911 =? 2 ^ 29 - 1 then INVALID_INSID
                         else 536870911).
Proof.
  apply (setInsid_getInsid 536870911 (mkInsidRec 0 SyncRecTy)). lia.
Defined.

(** ** Protocols on traces *)

Section ProtocolFacts.

Context {Q : Type} (step : Q -> event -> option Q).

Lemma accepts_app q evs1 evs2 :
  accepts step q (evs1 ++ evs2)
  = match accepts step q evs1 with
    | Some q' => accepts step q' evs2
    | None => None
    end.
Proof.
  revert q. induction evs1 as [|e evs1 IH]; intros q; cbn; [done|].
  destruct (step q e); [apply IH|done].
Qed.

Lemma obeys_ret {A} nd (a : A) q : obeys step nd (ret a) q q.
Proof.
  intros s Hs. exists [], q. cbn. rewrite app_nil_r.
  do 2 (split; [done|]). by intros ? ? [= _ <-].
Qed.

Lemma obeys_gets {A} nd (f : state -> A) q : obeys step nd (gets f) q q.
Proof.
  intros s Hs. exists [], q. cbn. rewrite app_nil_r.
  do 2 (split; [done|]). by intros ? ? [= _ <-].
Qed.

Lemma obeys_halt {A} nd w q q' : obeys step nd (@halt A w) q q'.
Proof.
  intros s Hs. exists [], q. cbn. rewrite app_nil_r.
  do 2 (split; [done|]). discriminate.
Qed.

Lemma obeys_modify nd f q :
  (forall s, st_trace (f s) = st_trace s
             /\ st_inNonDet (f s) = st_inNonDet s) ->
  obeys step nd (modify f) q q.
Proof.
  intros Hf s Hs. exists [], q. cbn. rewrite app_nil_r.
  destruct (Hf s) as [Ht Hn]. do 2 (split; [done|]).
  intros ? ? [= _ <-]. split; [done|congruence].
Qed.

Lemma obeys_emit nd e q q' :
  step q e = Some q' -> obeys step nd (emit e) q q'.
Proof.
  intros He s Hs. exists [e], q'. cbn. rewrite He.
  do 2 (split; [done|]). by intros ? ? [= _ <-].
Qed.

Lemma obeys_call nd e q q' :
  step q e = Some q' -> obeys step nd (call e) q q'.
Proof.
  intros He s Hs. exists [e], q'. cbn. rewrite He. unfold call.
  destruct s as [? ? ? ? ? ? ? ? ? ? ? ? ? ? scr]. cbn in *.
  destruct scr; cbn; (do 2 (split; [done|])); [discriminate|].
  by intros ? ? [= _ <-].
Qed.

Lemma obeys_bind {A B} nd (m : M A) (k : A -> M B) q1 q2 q3 :
  obeys step nd m q1 q2 -> (forall a, obeys step nd (k a) q2 q3) ->
  obeys step nd (bind m k) q1 q3.
Proof.
  intros Hm Hk s Hs. destruct (Hm s Hs) as (evs1 & qf & T1 & A1 & D1).
  unfold bind. destruct (m s) as [a s1|w s1].
  - destruct (D1 a s1 eq_refl) as [-> Hs1].
    destruct (Hk a s1 Hs1) as (evs2 & qf2 & T2 & A2 & D2).
    exists (evs1 ++ evs2), qf2. cbn in T1. rewrite T2, T1, app_assoc.
    rewrite accepts_app, A1. done.
  - exists evs1, qf. do 2 (split; [done|]). discriminate.
Qed.

Lemma obeys_gets_nd {A} nd (k : bool -> M A) q q' :
  obeys step nd (k nd) q q' -> obeys step nd (bind (gets st_inNonDet) k) q q'.
Proof.
  intros Hk s Hs.
  change (bind (gets st_inNonDet) k s) with (k (st_inNonDet s) s).
  rewrite Hs. by apply Hk.
Qed.

Lemma obeys_in_non_det {A} opt nd (k : bool -> M A) q q' :
  obeys step nd (k (enforce_non_det_annotations opt && nd)) q q' ->
  obeys step nd (bind (in_non_det opt) k) q q'.
Proof.
  intros Hk s Hs.
  change (bind (in_non_det opt) k s)
    with (k (enforce_non_det_annotations opt && st_inNonDet s) s).
  rewrite Hs. by apply Hk.
Qed.

Lemma obeys_assert nd b q : obeys step nd (assert b) q q.
Proof. destruct b; [apply obeys_ret|apply obeys_halt]. Qed.

Lemma obeys_when nd b m q :
  obeys step nd m q q -> obeys step nd (when b m) q q.
Proof. destruct b; [done|intros _; apply obeys_ret]. Qed.

Lemma obeys_loop_n {A} nd n (body : M (option A)) q :
  obeys step nd body q q -> obeys step nd (loop_n n body) q q.
Proof.
  intros Hb. induction n as [|n IH]; cbn [loop_n]; [apply obeys_halt|].
  eapply obeys_bind; [exact Hb|]. intros [a|]; [apply obeys_ret|exact IH].
Qed.

Lemma obeys_loop {A} nd (body : M (option A)) q :
  obeys step nd body q q -> obeys step nd (loop body) q q.
Proof. intros Hb s Hs. unfold loop. by apply obeys_loop_n. Qed.

(** What [obeys] says of the events of a run. *)
Lemma obeys_new_events {A} (m : M A) q q' s :
  obeys step (st_inNonDet s) m q q' ->
  exists qf, accepts step q (new_events s (m s)) = Some qf
    /\ (proceeds (m s) -> qf = q').
Proof.
  intros H. destruct (H s eq_refl) as (evs & qf & T & Acc & D).
  exists qf. unfold new_events. rewrite T, drop_new. split; [done|].
  intros (a & s' & E). by destruct (D a s' E).
Qed.

End ProtocolFacts.

Ltac unfold_wrappers :=
  unfold run_call, pthreadMutexLock, pthreadMutexTryLock,
    pthreadMutexTimedLock, pthreadMutexUnlock, __pthread_rwlock_rdlock,
    __pthread_rwlock_tryrdlock, __pthread_rwlock_trywrlock,
    __pthread_rwlock_unlock, pthreadBarrierInit, pthreadBarrierWait,
    pthreadCondWait, pthreadCondTimedWait, semWait, semTryWait,
    semTimedWait, semPost, __recv, idle_sleep, idle_cond_wait,
    pthreadMutexLockHelper, pthreadMutexLockHelper_body,
    pthreadRWLockRdLockHelper, semTimedWait_body,
    BLOCK_TIMER_START, BLOCK_TIMER_END,
    SCHED_GET_TURN, SCHED_INC_TURN, SCHED_PUT_TURN, sched_timer_start,
    sched_timer_end_fh, sched_timer_end, base_or_now, clock_gettime,
    relTimeToTurn, time2turn, errno_from_error, error_from_errno,
    count_non_det, add_non_det_var, wait, signal, S_wait, S_signal,
    getTurn, putTurn, getTurnCount, incTurnCount, block, wakeup,
    interProStart, interProEnd, idleThreadCondWait, native.

(** One syntactic step of a proof of [obeys]. *)
Ltac obeys_step :=
  cbv beta zeta;
  lazymatch goal with
  | |- obeys _ _ (ret _) _ _ => apply obeys_ret
  | |- obeys _ _ (gets _) _ _ => apply obeys_gets
  | |- obeys _ _ (halt _) _ _ => apply obeys_halt
  | |- obeys _ _ (assert _) _ _ => apply obeys_assert
  | |- obeys _ _ (when _ _) _ _ => apply obeys_when
  | |- obeys _ _ (emit _) _ _ => apply obeys_emit; reflexivity
  | |- obeys _ _ (call _) _ _ => apply obeys_call; reflexivity
  | |- obeys _ _ (modify _) _ _ =>
      apply obeys_modify; intros ?; split; reflexivity
  | |- obeys _ _ (loop _) _ _ => apply obeys_loop
  | |- obeys _ _ (bind (in_non_det _) _) _ _ => apply obeys_in_non_det
  | |- obeys _ _ (bind (gets st_inNonDet) _) _ _ => apply obeys_gets_nd
  | |- obeys _ _ (bind _ _) _ _ => eapply obeys_bind; [|intros ?]
  | H : ?b = _ |- obeys _ _ (if ?b then _ else _) _ _ => rewrite H
  | |- obeys _ _ (match ?x with _ => _ end) _ _ => destruct x
  | |- obeys _ _ _ _ _ => progress unfold_wrappers
  end.

Lemma run_call_turn opt ins c nd :
  obeys turn_step nd (run_call opt ins c) false false.
Proof. destruct c; unfold_wrappers; repeat obeys_step. Qed.

Lemma recv_turn opt ins sockfd len flags nd :
  obeys turn_step nd (__recv opt ins sockfd len flags) false false.
Proof. unfold_wrappers; repeat obeys_step. Qed.

Lemma idle_sleep_turn opt nd : obeys turn_step nd (idle_sleep opt) false false.
Proof. unfold_wrappers; repeat obeys_step. Qed.

Lemma idle_cond_wait_turn nd : obeys turn_step nd idle_cond_wait false false.
Proof. unfold_wrappers; repeat obeys_step. Qed.

(** X7.  The turn protocol.  In every run of every wrapper of the
    generic [RecorderRT<_S>], whatever the options, the state and the
    answers of the environment, and whether the run returns, stops or
    stays pending: [getTurn] and [putTurn] alternate;
    [incTurnCount], [wait], [signal] and the log are used under the turn
    only; no native call that can block is made under the turn;
    [interProStart], [block], [interProEnd] and [wakeup] are called
    without it; and a wrapper that returns has given the turn back. *)
Theorem wrappers_keep_turn_protocol opt ins :
  (forall c, keeps_turn_protocol (run_call opt ins c))
  /\ (forall sockfd len flags,
        keeps_turn_protocol (__recv opt ins sockfd len flags))
  /\ keeps_turn_protocol (idle_sleep opt)
  /\ keeps_turn_protocol idle_cond_wait.
Proof.
  repeat split; intros; intros s; apply obeys_new_events.
  - apply run_call_turn.
  - apply recv_turn.
  - apply idle_sleep_turn.
  - apply idle_cond_wait_turn.
Qed.

(** ** The log records of a call *)

Lemma accepts_log_step q evs q' :
  accepts log_step q evs = Some q' -> q = log_records evs ++ q'.
Proof.
  revert q. induction evs as [|e evs IH]; intros q; cbn.
  - by intros [= ->].
  - destruct e; cbn; try apply IH.
    destruct q as [|r q]; [done|]. case_bool_decide as Hr; [|done].
    intros Hacc. apply IH in Hacc. by subst.
Qed.

Lemma run_call_log opt ins c nd :
  enforce_non_det_annotations opt && nd = false ->
  obeys log_step nd (run_call opt ins c)
        (if log_sync opt then records_of (logged_as c) else []) [].
Proof.
  intros Hdet. destruct (log_sync opt) eqn:Hlog;
    destruct c as [| |? [?|]| | | | | | | | |? ? [?|]| | |? [?|]|];
    unfold_wrappers; repeat obeys_step.
Qed.

Lemma accepts_inc_step q evs q' :
  accepts inc_step q evs = Some q' -> q = (turns_taken evs + q')%nat.
Proof.
  revert q. induction evs as [|e evs IH]; intros q; cbn.
  - by intros [= ->].
  - destruct e; cbn; try apply IH.
    destruct q as [|q]; [done|]. intros Hacc. apply IH in Hacc. by subst.
Qed.

Lemma run_call_inc opt ins c nd :
  enforce_non_det_annotations opt && nd = false ->
  obeys inc_step nd (run_call opt ins c)
        (Z.to_nat (NumRecordsForSync (logged_as c))) 0%nat.
Proof.
  intros Hdet. destruct c as [| |? [?|]| | | | | | | | |? ? [?|]| | |? [?|]|];
    unfold_wrappers; repeat obeys_step.
Qed.

(** X8.  In a deterministic region a call that returns has taken as many
    turns as [NumRecordsForSync] announces records for its op code: two
    for the waits on a barrier or a condition variable, one for every
    other call.  With [log_sync] on it has written exactly these
    records, the first of two marked as first half; with [log_sync] off
    it has written none. *)
Theorem log_records_of_call opt ins c s :
  det_region opt s ->
  proceeds (run_call opt ins c s) ->
  let evs := new_events s (run_call opt ins c s) in
  Z.of_nat (turns_taken evs) = NumRecordsForSync (logged_as c)
  /\ log_records evs
     = (if log_sync opt then records_of (logged_as c) else [])
  /\ (log_sync opt = true ->
      Z.of_nat (length (log_records evs)) = NumRecordsForSync (logged_as c)).
Proof.
  intros Hdet Hp. cbn zeta. split.
  - destruct (obeys_new_events inc_step _ _ _ s
                (run_call_inc opt ins c _ Hdet)) as (qf & Acc & Hq).
    apply accepts_inc_step in Acc. rewrite (Hq Hp), Nat.add_0_r in Acc.
    rewrite <- Acc. by destruct (logged_as c).
  - destruct (obeys_new_events log_step _ _ _ s
                (run_call_log opt ins c _ Hdet)) as (qf & Acc & Hq).
    apply accepts_log_step in Acc. rewrite (Hq Hp), app_nil_r in Acc.
    rewrite <- Acc. split; [done|]. intros ->.
    unfold records_of. by destruct (logged_as c).
Qed.

Lemma log_records_of_call_witness :
  let evs := new_events barrier_of_3_last
     (run_call opt_1000 7 (Call_pthreadBarrierWait 55) barrier_of_3_last) in
  Z.of_nat (turns_taken evs) = 2
  /\ log_records evs
     = [(sf_pthread_barrier_wait, false); (sf_pthread_barrier_wait, true)]
  /\ (log_sync opt_1000 = true -> Z.of_nat (length (log_records evs)) = 2).
Proof.
  apply (log_records_of_call opt_1000 7 (Call_pthreadBarrierWait 55)
           barrier_of_3_last).
  - reflexivity.
  - do 2 eexists. vm_compute. reflexivity.
Defined.

Lemma accepts_args_step q evs q' :
  accepts args_step q evs = Some q' ->
  Forall (fun e => enough_args e = true) evs.
Proof.
  revert q. induction evs as [|e evs IH]; intros q; cbn; [by constructor|].
  unfold args_step at 1. destruct (enough_args e) eqn:E; [|done].
  intros H. constructor; [done|by eapply IH].
Qed.

Lemma run_call_args opt ins c nd :
  obeys args_step nd (run_call opt ins c) tt tt.
Proof. destruct c; unfold_wrappers; repeat obeys_step. Qed.

(** X9.  The log format keeps [NumSyncArgs] arguments of a call, two
    for a wait on a condition variable and one otherwise, which fit the
    [MAX_INLINE_ARGS] slots of a record; every log record a wrapper
    writes, in any run, is given at least that many arguments. *)
Theorem log_records_have_their_args opt ins c s :
  (forall op, 1 <= NumSyncArgs op <= MAX_INLINE_ARGS)
  /\ Forall (fun e => enough_args e = true)
            (new_events s (run_call opt ins c s)).
Proof.
  split; [by intros []|].
  destruct (obeys_new_events args_step _ _ _ s
              (run_call_args opt ins c _)) as (qf & Acc & _).
  by eapply accepts_args_step.
Qed.

(** ** Calls that never wait *)

Lemma accepts_free_step q evs q' :
  accepts free_step q evs = Some q' ->
  Forall (fun e => can_block e = false) evs.
Proof.
  revert q. induction evs as [|e evs IH]; intros q; cbn; [by constructor|].
  unfold free_step at 1. destruct (can_block e) eqn:E; [done|].
  intros H. constructor; [done|by eapply IH].
Qed.

Lemma run_call_free opt ins c nd :
  nonblocking_call c = true ->
  obeys free_step nd (run_call opt ins c) tt tt.
Proof.
  destruct c; try discriminate; intros _; unfold_wrappers;
    repeat obeys_step.
Qed.

(** X10.  The try-operations, the releases and [pthreadBarrierInit] never
    hold the thread up: in no run, in a deterministic region or not, do
    they wait on a channel of the scheduler, leave the run queue or make
    a native call that can block. *)
Theorem nonblocking_calls_never_wait opt ins c s :
  nonblocking_call c = true ->
  Forall (fun e => can_block e = false)
         (new_events s (run_call opt ins c s)).
Proof.
  intros Hc.
  destruct (obeys_new_events free_step _ _ _ s
              (run_call_free opt ins c _ Hc)) as (qf & Acc & _).
  by eapply accepts_free_step.
Qed.

Lemma nonblocking_calls_never_wait_witness :
  Forall (fun e => can_block e = false)
         (new_events (one_thread [quiet 0; quiet EBUSY; quiet 0])
            (run_call opt_1000 7 (Call_pthreadMutexTryLock 55)
               (one_thread [quiet 0; quiet EBUSY; quiet 0]))).
Proof.
  apply (nonblocking_calls_never_wait opt_1000 7 (Call_pthreadMutexTryLock 55)).
  reflexivity.
Defined.

(** ** Non-deterministic regions *)

Lemma accepts_passthrough_step q evs q' :
  accepts passthrough_step q evs = Some q' ->
  Forall (fun e => is_sched e = false) evs
  /\ log_records evs = []
  /\ (q = true -> q' = true)
  /\ natives evs = (if q then 0 else if q' then 1 else 0)%nat.
Proof.
  revert q. induction evs as [|e evs IH]; intros q; cbn.
  - intros [= <-]. split; [constructor|]. do 2 (split; [done|]).
    by destruct q.
  - destruct e as [| | | | | | | | | |op| |]; try done.
    + destruct q; [by destruct op|].
      destruct op; cbn; intros H; destruct (IH _ H) as (F & L & T & N);
        (split; [by constructor|]); (split; [done|]); (split; [done|]);
        rewrite N; try done; by rewrite T.
    + cbn. intros H. destruct (IH _ H) as (F & L & T & N).
      split; [by constructor|]. done.
Qed.

Lemma run_call_passthrough opt ins c nd :
  enforce_non_det_annotations opt && nd = true ->
  obeys passthrough_step nd (run_call opt ins c) false true.
Proof.
  intros Hnd. destruct c as [| |? [?|]| | | | | | | | |? ? [?|]| | |? [?|]|];
    unfold_wrappers; repeat obeys_step.
Qed.

Lemma recv_passthrough opt ins sockfd len flags nd :
  enforce_non_det_annotations opt && nd = true ->
  obeys passthrough_step nd (__recv opt ins sockfd len flags) false true.
Proof. intros Hnd. unfold_wrappers; repeat obeys_step. Qed.

(** X11.  Inside a non-det region every wrapper is a pass-through: in no
    run does it call the scheduler or write a log record, and a call
    that returns has made exactly one native call (a timed wait on a
    condition variable reads the clock before it, when no base time is
    set). *)
Theorem non_det_region_passthrough opt ins s :
  non_det_region opt s ->
  (forall c, passes_through s (run_call opt ins c))
  /\ (forall sockfd len flags,
        passes_through s (__recv opt ins sockfd len flags)).
Proof.
  intros Hnd.
  assert (forall w : M Z, obeys passthrough_step (st_inNonDet s) w false true ->
                          passes_through s w) as H.
  { intros w Ho.
    destruct (obeys_new_events passthrough_step _ _ _ s Ho) as (qf & Acc & Hq).
    apply accepts_passthrough_step in Acc as (F & L & _ & N).
    split; [done|]. split; [done|]. intros Hp. by rewrite N, (Hq Hp). }
  split; intros; apply H.
  - by apply run_call_passthrough.
  - by apply recv_passthrough.
Qed.

Lemma non_det_region_passthrough_witness :
  (forall c, passes_through (in_non_det_region [quiet 0])
               (run_call opt_1000 7 c))
  /\ (forall sockfd len flags,
        passes_through (in_non_det_region [quiet 0])
          (__recv opt_1000 7 sockfd len flags)).
Proof.
  apply (non_det_region_passthrough opt_1000 7 (in_non_det_region [quiet 0])).
  reflexivity.
Defined.

(** ** More symbolic runs *)

Lemma errno_from_error_run s :
  exists s', errno_from_error s = Done tt s' /\ post s s' [] (st_script s)
    /\ st_errno s' = st_error s /\ st_error s' = st_error s.
Proof.
  unfold post. destruct s. cbn. eexists. split; [reflexivity|]. cbn.
  by rewrite app_nil_r.
Qed.

Lemma error_from_errno_run s :
  exists s', error_from_errno s = Done tt s' /\ post s s' [] (st_script s)
    /\ st_error s' = st_errno s /\ st_errno s' = st_errno s.
Proof.
  unfold post. destruct s. cbn. eexists. split; [reflexivity|]. cbn.
  by rewrite app_nil_r.
Qed.

(** ** Unlocking: [__pthread_rwlock_unlock] and [pthreadMutexUnlock] *)

Lemma pthread_rwlock_unlock_run opt ins rwlock s rg rn rp rest :
  det_region opt s ->
  st_script s = rg :: rn :: rp :: rest ->
  exists s' turn,
    __pthread_rwlock_unlock opt ins rwlock s = Done (r_ret rn) s'
    /\ new_events s (Done (r_ret rn) s')
       = EvGetTurn :: EvNative (pthread_rwlock_unlock rwlock)
         :: EvSignal rwlock false
         :: inc_events opt ins sf_pthread_rwlock_unlock turn true
              [rwlock; wrap_u64 (r_ret rn)] ++ [EvPutTurn false]
    /\ st_error s' = default (st_error s) (r_errno rn).
Proof.
  intros Hdet Hs.
  unfold __pthread_rwlock_unlock. rewrite bind_eq, (in_non_det_det _ _ Hdet).
  destruct (SCHED_GET_TURN_post opt s rg _ Hdet Hs) as (s1 & E1 & P1 & R1 & _).
  rewrite bind_eq, E1.
  destruct (errno_from_error_run s1) as (s2 & E2 & P2 & N2 & R2).
  rewrite bind_eq, E2. unfold native. rewrite bind_eq.
  destruct (call_post (EvNative (pthread_rwlock_unlock rwlock)) s2 rn
              (rp :: rest)) as (s3 & E3 & P3 & N3 & _).
  { rewrite (proj1 (proj2 P2)). scr P1. }
  rewrite E3.
  destruct (error_from_errno_run s3) as (s4 & E4 & P4 & R4 & _).
  rewrite bind_eq, E4.
  destruct (emit_post (EvSignal rwlock false) s4 (rp :: rest))
    as (s5 & E5 & P5 & _ & R5 & _).
  { rewrite (proj1 (proj2 P4)). scr P3. }
  unfold signal, S_signal. rewrite bind_eq, E5.
  destruct (SCHED_PUT_TURN_post opt ins sf_pthread_rwlock_unlock
              [rwlock; wrap_u64 (r_ret rn)] s5 rp rest ltac:(scr P5))
    as (s6 & E6 & P6 & _ & R6).
  rewrite bind_eq, E6. exists s6, (st_turnCount s5 + 1).
  split; [reflexivity|].
  pose proof (post_trans _ _ _ _ _ _ _ P1
               (post_trans _ _ _ _ _ _ _ P2
                 (post_trans _ _ _ _ _ _ _ P3
                   (post_trans _ _ _ _ _ _ _ P4
                     (post_trans _ _ _ _ _ _ _ P5 P6))))) as P.
  rewrite (new_events_post _ _ _ _ _ P). split; [reflexivity|].
  by rewrite R6, R5, R4, N3, N2, R1.
Qed.

Lemma pthreadMutexUnlock_fails opt ins mu s rg rn rest :
  det_region opt s ->
  st_script s = rg :: rn :: rest ->
  r_ret rn <> 0 ->
  exists s',
    pthreadMutexUnlock opt ins mu s = Stop AssertFail s'
    /\ new_events s (@Stop Z AssertFail s')
       = [EvGetTurn; EvNative (pthread_mutex_unlock mu)].
Proof.
  intros Hdet Hs Hr.
  unfold pthreadMutexUnlock. rewrite bind_eq, (in_non_det_det _ _ Hdet).
  destruct (SCHED_GET_TURN_post opt s rg _ Hdet Hs) as (s1 & E1 & P1 & _).
  rewrite bind_eq, E1.
  destruct (errno_from_error_post s1 _ ltac:(scr P1)) as (s2 & E2 & P2 & _).
  rewrite bind_eq, E2. unfold native. rewrite bind_eq.
  destruct (call_post (EvNative (pthread_mutex_unlock mu)) s2 rn _
              ltac:(scr P2)) as (s3 & E3 & P3 & _).
  rewrite E3.
  destruct (error_from_errno_post s3 _ ltac:(scr P3)) as (s4 & E4 & P4 & _).
  rewrite bind_eq, E4. rewrite bind_eq. unfold assert.
  apply Z.eqb_neq in Hr. rewrite Hr. eexists. split; [reflexivity|].
  exact (new_events_stop _ _ _ _ _
           (post_trans _ _ _ _ _ _ _ P1
             (post_trans _ _ _ _ _ _ _ P2
               (post_trans _ _ _ _ _ _ _ P3 P4)))).
Qed.

(** X12.  [__pthread_rwlock_unlock] does not check the native unlock: it
    returns whatever [pthread_rwlock_unlock] returned, a failure
    included, after a [signal] on the lock and with the errno of the
    native call in the error cell.  [pthreadMutexUnlock] stops at its
    assertion on the same failure, before any [signal]. *)
Theorem unlock_that_fails opt ins obj s rg rn rp rest :
  det_region opt s ->
  st_script s = rg :: rn :: rp :: rest ->
  (exists s' turn,
     __pthread_rwlock_unlock opt ins obj s = Done (r_ret rn) s'
     /\ new_events s (Done (r_ret rn) s')
        = EvGetTurn :: EvNative (pthread_rwlock_unlock obj)
          :: EvSignal obj false
          :: inc_events opt ins sf_pthread_rwlock_unlock turn true
               [obj; wrap_u64 (r_ret rn)] ++ [EvPutTurn false]
     /\ st_error s' = default (st_error s) (r_errno rn))
  /\ (r_ret rn <> 0 ->
      exists s',
        pthreadMutexUnlock opt ins obj s = Stop AssertFail s'
        /\ new_events s (@Stop Z AssertFail s')
           = [EvGetTurn; EvNative (pthread_mutex_unlock obj)]).
Proof.
  intros Hdet Hs. split.
  - by eapply pthread_rwlock_unlock_run.
  - intros Hr. by eapply pthreadMutexUnlock_fails.
Qed.

Lemma unlock_that_fails_witness :
  let s := one_thread [quiet 0; Response 1 (Some 1) 0; quiet 0] in
  (exists s' turn,
     __pthread_rwlock_unlock opt_1000 7 55 s = Done 1 s'
     /\ new_events s (Done 1 s')
        = EvGetTurn :: EvNative (pthread_rwlock_unlock 55)
          :: EvSignal 55 false
          :: inc_events opt_1000 7 sf_pthread_rwlock_unlock turn true
               [55; wrap_u64 1] ++ [EvPutTurn false]
     /\ st_error s' = 1)
  /\ (1 <> 0 ->
      exists s',
        pthreadMutexUnlock opt_1000 7 55 s = Stop AssertFail s'
        /\ new_events s (@Stop Z AssertFail s')
           = [EvGetTurn; EvNative (pthread_mutex_unlock 55)]).
Proof.
  apply (unlock_that_fails opt_1000 7 55
           (one_thread [quiet 0; Response 1 (Some 1) 0; quiet 0])
           (quiet 0) (Response 1 (Some 1) 0) (quiet 0) []);
    reflexivity.
Defined.

(** ** Misuse of a barrier *)

Lemma pthreadBarrierInit_aborts opt ins barrier cnt s rg rn rest :
  det_region opt s ->
  st_script s = rg :: rn :: rest ->
  r_ret rn <> 0 \/ is_Some (st_barriers s !! barrier) ->
  exists s',
    pthreadBarrierInit opt ins barrier cnt s = Stop AssertFail s'
    /\ st_barriers s' = st_barriers s
    /\ new_events s (@Stop Z AssertFail s')
       = [EvGetTurn; EvNative (pthread_barrier_init barrier cnt)].
Proof.
  intros Hdet Hs Hbad.
  unfold pthreadBarrierInit. rewrite bind_eq, (in_non_det_det _ _ Hdet).
  destruct (SCHED_GET_TURN_post opt s rg _ Hdet Hs) as (s1 & E1 & P1 & _).
  rewrite bind_eq, E1.
  destruct (errno_from_error_post s1 _ ltac:(scr P1)) as (s2 & E2 & P2 & _).
  rewrite bind_eq, E2.
  destruct (call_post (EvNative (pthread_barrier_init barrier cnt)) s2 rn _
              ltac:(scr P2)) as (s3 & E3 & P3 & _).
  unfold native. rewrite bind_eq, E3.
  destruct (error_from_errno_post s3 _ ltac:(scr P3)) as (s4 & E4 & P4 & _).
  rewrite bind_eq, E4. rewrite bind_eq. unfold assert.
  pose proof (post_trans _ _ _ _ _ _ _ P1
               (post_trans _ _ _ _ _ _ _ P2
                 (post_trans _ _ _ _ _ _ _ P3 P4))) as P.
  destruct (r_ret rn =? 0) eqn:Hr.
  - destruct Hbad as [Hbad|[b Hb]]; [lia|]. cbn [ret].
    rewrite bind_eq. cbn [gets]. rewrite bind_eq, (proj2 (proj2 P)), Hb.
    rewrite bool_decide_eq_false_2 by done.
    eexists. split; [reflexivity|]. split; [exact (proj2 (proj2 P))|].
    exact (new_events_stop _ _ _ _ _ P).
  - eexists. split; [reflexivity|]. split; [exact (proj2 (proj2 P))|].
    exact (new_events_stop _ _ _ _ _ P).
Qed.

(** X13.  [pthreadBarrierInit] enters a barrier that is not yet in the
    table with its count and no arrival, and leaves the other barriers
    as they are.  On a barrier that is already in the table, or when the
    native initialisation fails, it stops at an assertion: the native
    call has been made, the table is unchanged, the turn is not given
    back. *)
Theorem pthreadBarrierInit_table opt ins barrier cnt s rg rn rp rest :
  det_region opt s ->
  st_script s = rg :: rn :: rp :: rest ->
  (r_ret rn = 0 -> st_barriers s !! barrier = None ->
   exists s',
     pthreadBarrierInit opt ins barrier cnt s = Done 0 s'
     /\ st_barriers s' !! barrier = Some (Barrier cnt 0)
     /\ forall other, other <> barrier ->
          st_barriers s' !! other = st_barriers s !! other)
  /\ (r_ret rn <> 0 \/ is_Some (st_barriers s !! barrier) ->
      exists s',
        pthreadBarrierInit opt ins barrier cnt s = Stop AssertFail s'
        /\ st_barriers s' = st_barriers s
        /\ new_events s (@Stop Z AssertFail s')
           = [EvGetTurn; EvNative (pthread_barrier_init barrier cnt)]).
Proof.
  intros Hdet Hs. split.
  - intros Hr Hb.
    destruct (pthreadBarrierInit_run opt ins barrier cnt s rg rn rp rest
                Hdet Hb Hs Hr) as (s' & E & B).
    exists s'. split; [done|]. rewrite B. split.
    + apply lookup_insert_eq.
    + intros other Ho. by apply lookup_insert_ne.
  - intros Hbad. by eapply pthreadBarrierInit_aborts.
Qed.

Lemma pthreadBarrierInit_table_witness :
  let s := barrier_of_3_last in
  (0 = 0 -> st_barriers s !! 56 = None ->
   exists s',
     pthreadBarrierInit opt_1000 7 56 2 s = Done 0 s'
     /\ st_barriers s' !! 56 = Some (Barrier 2 0)
     /\ forall other, other <> 56 ->
          st_barriers s' !! other = st_barriers s !! other)
  /\ (0 <> 0 \/ is_Some (st_barriers s !! 56) ->
      exists s',
        pthreadBarrierInit opt_1000 7 56 2 s = Stop AssertFail s'
        /\ st_barriers s' = st_barriers s
        /\ new_events s (@Stop Z AssertFail s')
           = [EvGetTurn; EvNative (pthread_barrier_init 56 2)]).
Proof.
  apply (pthreadBarrierInit_table opt_1000 7 56 2 barrier_of_3_last
           (quiet 0) (quiet 0) (quiet 0) [quiet 0]); reflexivity.
Defined.

(** X14.  [pthreadBarrierWait] on a barrier that is not in the table, or
    on one at which as many threads as its count are already counted,
    stops at an assertion after the first half of the call: the thread
    has taken the turn and counted it, but has made no [wait], no
    [signal] and no [putTurn]. *)
Theorem pthreadBarrierWait_misuse opt ins barrier s rg rest :
  det_region opt s ->
  st_script s = rg :: rest ->
  st_barriers s !! barrier = None
  \/ (exists n a, st_barriers s !! barrier = Some (Barrier n a) /\ n < a + 1) ->
  exists s' turn,
    pthreadBarrierWait opt ins barrier s = Stop AssertFail s'
    /\ new_events s (@Stop Z AssertFail s')
       = EvGetTurn
         :: inc_events opt ins sf_pthread_barrier_wait turn false [barrier].
Proof.
  intros Hdet Hs Hbad.
  unfold pthreadBarrierWait. rewrite bind_eq, (in_non_det_det _ _ Hdet).
  destruct (SCHED_GET_TURN_post opt s rg _ Hdet Hs) as (s1 & E1 & P1 & _).
  rewrite bind_eq, E1.
  destruct (SCHED_INC_TURN_post opt ins sf_pthread_barrier_wait [barrier] s1 _
              ltac:(scr P1)) as (s2 & E2 & P2 & _).
  rewrite bind_eq, E2.
  pose proof (post_trans _ _ _ _ _ _ _ P1 P2) as P.
  rewrite bind_eq. cbn [gets]. rewrite (proj2 (proj2 P)).
  destruct Hbad as [Hb|(n & a & Hb & Hlt)]; rewrite Hb.
  - do 2 eexists. split; [reflexivity|].
    exact (new_events_stop _ _ _ _ _ P).
  - cbn [count narrived].
    destruct (set_barriers_run
                (<[barrier := Barrier n (a + 1)]> (st_barriers s)) s2)
      as (s3 & E3 & T3 & S3 & B3 & _).
    rewrite bind_eq, E3. rewrite bind_eq. unfold assert.
    destruct (a + 1 <=? n) eqn:Hle; [lia|].
    do 2 eexists. split; [reflexivity|].
    unfold new_events. cbn [final_state]. rewrite T3, (proj1 P).
    apply drop_new.
Qed.

Lemma pthreadBarrierWait_misuse_witness :
  exists s' turn,
    pthreadBarrierWait opt_1000 7 56 barrier_of_3_last = Stop AssertFail s'
    /\ new_events barrier_of_3_last (@Stop Z AssertFail s')
       = EvGetTurn
         :: inc_events opt_1000 7 sf_pthread_barrier_wait turn false [56].
Proof.
  apply (pthreadBarrierWait_misuse opt_1000 7 56 barrier_of_3_last
           (quiet 0) [quiet 0; quiet 0; quiet 0]);
    [reflexivity|reflexivity|by left].
Defined.

(** ** Calls that block outside the process *)

Lemma when_call_post (b : bool) e s r tail :
  st_script s = (if b then [r] else []) ++ tail ->
  exists s', when b (call e ;; ret tt) s = Done tt s'
    /\ post s s' (if b then [e] else []) tail
    /\ (b = false -> st_errno s' = st_errno s).
Proof.
  intros Hs. destruct b; cbn [when].
  - destruct (call_post e s r tail Hs) as (s1 & E1 & P1 & _).
    rewrite bind_eq, E1. eexists. split; [reflexivity|]. done.
  - exists s. split; [reflexivity|]. split; [|done].
    unfold post. by rewrite app_nil_r.
Qed.

Lemma stat_inter_post opt s :
  exists s',
    when (record_runtime_stat opt)
      (modify (fun s => set_nInterProcSyncOp (st_nInterProcSyncOp s + 1) s)) s
    = Done tt s'
    /\ post s s' [] (st_script s)
    /\ st_inNonDet s' = st_inNonDet s
    /\ st_nInterProcSyncOp s'
       = st_nInterProcSyncOp s + (if record_runtime_stat opt then 1 else 0).
Proof.
  unfold post. destruct (record_runtime_stat opt), s; cbn;
    (eexists; split; [reflexivity|]; cbn; rewrite app_nil_r);
    repeat split; lia.
Qed.

(** X15.  In a deterministic region [__recv] never takes the turn.  It
    asks [interProStart] and leaves the run queue with [block] exactly
    when the answer is true, makes the native call, asks [interProEnd]
    and calls [wakeup] exactly when that answer is true; it returns what
    the native call returned and writes no log record. *)
Theorem recv_run opt ins sockfd len flags s r1 rb rn r2 rw rest :
  det_region opt s ->
  st_script s = block_script r1 rb rn r2 rw rest ->
  exists s',
    __recv opt ins sockfd len flags s = Done (r_ret rn) s'
    /\ new_events s (Done (r_ret rn) s')
       = block_events (Runtime__recv sockfd len flags)
           (negb (r_ret r1 =? 0)) (negb (r_ret r2 =? 0))
    /\ st_script s' = rest.
Proof.
  unfold block_script, block_events. intros Hdet Hs.
  unfold __recv, BLOCK_TIMER_START.
  destruct (stat_inter_post opt s) as (s0 & E0 & P0 & N0 & _).
  rewrite bind_eq, E0.
  assert (det_region opt s0) as Hdet0 by (unfold det_region; by rewrite N0).
  rewrite bind_eq, (in_non_det_det _ _ Hdet0).
  destruct (call_post EvInterProStart s0 r1 _
              ltac:(by rewrite (proj1 (proj2 P0)))) as (s1 & E1 & P1 & _).
  rewrite bind_eq. unfold interProStart at 1. rewrite bind_eq, E1. cbn [ret].
  destruct (when_call_post (negb (r_ret r1 =? 0)) EvBlock s1 rb _
              ltac:(scr P1)) as (s2 & E2 & P2 & _).
  unfold block. rewrite bind_eq, E2.
  destruct (call_post (EvNative (Runtime__recv sockfd len flags)) s2 rn _
              ltac:(scr P2)) as (s3 & E3 & P3 & _).
  unfold native. rewrite bind_eq, E3.
  unfold BLOCK_TIMER_END. rewrite bind_eq, bind_eq. cbn [gets].
  destruct (call_post EvInterProEnd s3 r2 _ ltac:(scr P3))
    as (s4 & E4 & P4 & _).
  rewrite bind_eq. unfold interProEnd at 1. rewrite bind_eq, E4. cbn [ret].
  destruct (when_call_post (negb (r_ret r2 =? 0)) EvWakeup s4 rw _
              ltac:(scr P4)) as (s5 & E5 & P5 & _).
  unfold wakeup. rewrite bind_eq, E5.
  destruct (set_errno_post (st_errno s3) s5 _ ltac:(scr P5))
    as (s6 & E6 & P6 & _).
  rewrite E6. cbn [ret]. eexists. split; [reflexivity|].
  pose proof (post_trans _ _ _ _ _ _ _ P0
               (post_trans _ _ _ _ _ _ _ P1
                 (post_trans _ _ _ _ _ _ _ P2
                   (post_trans _ _ _ _ _ _ _ P3
                     (post_trans _ _ _ _ _ _ _ P4
                       (post_trans _ _ _ _ _ _ _ P5 P6)))))) as P.
  rewrite (new_events_post _ _ _ _ _ P). split; [|scr P].
  by destruct (negb (r_ret r1 =? 0)), (negb (r_ret r2 =? 0)).
Qed.

Lemma recv_run_witness :
  let s := one_thread [quiet 1; quiet 0; quiet 64; quiet 0] in
  exists s',
    __recv opt_1000 7 3 64 0 s = Done 64 s'
    /\ new_events s (Done 64 s')
       = block_events (Runtime__recv 3 64 0) true false
    /\ st_script s' = [].
Proof.
  apply (recv_run opt_1000 7 3 64 0
           (one_thread [quiet 1; quiet 0; quiet 64; quiet 0])
           (quiet 1) (quiet 0) (quiet 64) (quiet 0) (quiet 0) []);
    reflexivity.
Defined.

(** ** [semWait] *)

Lemma semWait_body_advances sem : advances (semWait_body sem).
Proof.
  intros s s'. unfold semWait_body, native, bind.
  destruct (call _ s) as [r s1|] eqn:E; [|discriminate].
  apply call_script in E.
  destruct (r =? 0); [discriminate|]. unfold gets, assert.
  destruct (st_errno s1 =? EAGAIN); cbn; [|discriminate].
  unfold wait, S_wait.
  destruct (call _ s1) as [r' s2|] eqn:E'; [|discriminate].
  apply call_script in E'. cbn. intros [= <-]. lia.
Qed.

(** A round that finds the semaphore taken is followed by a fresh try,
    whatever the wait answers. *)
Lemma semWait_retry sem s rb rw rest :
  st_script s = rb :: rw :: rest ->
  sem_busy (rb, rw) ->
  loop (semWait_body sem) s =
    loop (semWait_body sem)
         (after_round (sem_trywait sem) sem NO_TIMEOUT s)
  /\ st_script (after_round (sem_trywait sem) sem NO_TIMEOUT s) = rest.
Proof.
  intros Hs [Hb He]. cbn in Hb, He.
  destruct (call_cons (EvNative (sem_trywait sem)) s _ _ Hs)
    as (E1 & S1 & _ & N1).
  destruct (call_cons (EvWait sem NO_TIMEOUT) _ _ _ S1) as (E2 & S2 & _).
  split; [|exact S2].
  rewrite loop_unfold by apply semWait_body_advances.
  unfold semWait_body at 1, native, wait, S_wait, bind.
  rewrite E1. apply Z.eqb_neq in Hb. rewrite Hb. unfold gets, assert.
  rewrite N1, He. cbn. rewrite E2. reflexivity.
Qed.

Lemma semWait_rounds sem rounds tail s :
  st_script s = flat rounds ++ tail ->
  Forall sem_busy rounds ->
  loop (semWait_body sem) s =
    loop (semWait_body sem)
         (after_rounds (length rounds) (sem_trywait sem) sem NO_TIMEOUT s)
  /\ st_script (after_rounds (length rounds) (sem_trywait sem) sem
                  NO_TIMEOUT s) = tail.
Proof.
  revert s. induction rounds as [|[rb rw] rounds IH]; intros s Hs Hall.
  - done.
  - apply Forall_cons in Hall as [Hr Hall]. cbn in Hs.
    destruct (semWait_retry sem s rb rw _ Hs Hr) as [E Hscr].
    cbn [length after_rounds]. rewrite E. by apply IH.
Qed.

Lemma semWait_acquired sem s r0 rest :
  st_script s = r0 :: rest -> r_ret r0 = 0 ->
  loop (semWait_body sem) s =
    Done tt (after_call (EvNative (sem_trywait sem)) s).
Proof.
  intros Hs H0.
  destruct (call_cons (EvNative (sem_trywait sem)) s _ _ Hs) as (E1 & _).
  rewrite loop_unfold by apply semWait_body_advances.
  unfold semWait_body at 1, native, bind.
  rewrite E1, H0. reflexivity.
Qed.

(** X16.  [semWait] gives up on no answer of [wait]: after a
    [sem_trywait] that fails with [EAGAIN] it waits and tries again,
    even when the wait reports [ETIMEDOUT], and it returns 0 right after
    the first [sem_trywait] that succeeds. *)
Theorem semWait_tries_until_acquired opt ins sem s rg rounds r0 rp rest :
  det_region opt s ->
  st_script s = rg :: flat rounds ++ r0 :: rp :: rest ->
  Forall sem_busy rounds ->
  r_ret r0 = 0 ->
  exists s' turn,
    semWait opt ins sem s = Done 0 s'
    /\ new_events s (Done 0 s')
       = EvGetTurn
         :: lock_events (sem_trywait sem) sem NO_TIMEOUT (length rounds) true
         ++ inc_events opt ins sf_sem_wait turn true [sem]
         ++ [EvPutTurn false]
    /\ st_script s' = rest.
Proof.
  intros Hdet Hs Hall H0.
  unfold semWait. rewrite bind_eq, (in_non_det_det _ _ Hdet).
  destruct (SCHED_GET_TURN_post opt s rg _ Hdet Hs) as (s1 & E1 & P1 & _).
  rewrite bind_eq, E1. rewrite bind_eq.
  change (loop _ s1) with (loop (semWait_body sem) s1).
  destruct (semWait_rounds sem rounds _ s1 ltac:(scr P1) Hall) as [E Hscr].
  pose proof (after_rounds_post (sem_trywait sem) sem NO_TIMEOUT rounds _ s1
                ltac:(scr P1)) as P2.
  rewrite E, (semWait_acquired sem _ r0 _ Hscr H0).
  pose proof (after_call_post (EvNative (sem_trywait sem)) _ _ _ Hscr) as P3.
  destruct (SCHED_PUT_TURN_post opt ins sf_sem_wait [sem] _ rp rest
              ltac:(scr P3)) as (s4 & E4 & P4 & _).
  rewrite bind_eq, E4. do 2 eexists. split; [reflexivity|].
  pose proof (post_trans _ _ _ _ _ _ _ P1
               (post_trans _ _ _ _ _ _ _ (post_trans _ _ _ _ _ _ _ P2 P3) P4))
    as P.
  rewrite (new_events_post _ _ _ _ _ P). split; [reflexivity|scr P].
Qed.

Lemma semWait_tries_until_acquired_witness :
  let s := one_thread [quiet 0; Response (-1) (Some EAGAIN) 0;
                       quiet ETIMEDOUT; quiet 0; quiet 0] in
  exists s' turn,
    semWait opt_1000 7 55 s = Done 0 s'
    /\ new_events s (Done 0 s')
       = EvGetTurn
         :: lock_events (sem_trywait 55) 55 NO_TIMEOUT 1 true
         ++ inc_events opt_1000 7 sf_sem_wait turn true [55]
         ++ [EvPutTurn false]
    /\ st_script s' = [].
Proof.
  apply (semWait_tries_until_acquired opt_1000 7 55
           (one_thread [quiet 0; Response (-1) (Some EAGAIN) 0;
                        quiet ETIMEDOUT; quiet 0; quiet 0])
           (quiet 0) [(Response (-1) (Some EAGAIN) 0, quiet ETIMEDOUT)]
           (quiet 0) (quiet 0) []).
  - reflexivity.
  - reflexivity.
  - repeat constructor; cbn; discriminate.
  - reflexivity.
Defined.

(** ** [semTryWait] *)

(** X17.  [semTryWait] makes one [sem_trywait] under the turn, with
    errno set from the error cell, and never waits.  It returns what the
    native call returned when that is 0 or when errno is then [EAGAIN],
    leaving that errno in the error cell; a failure with another errno
    stops the process at the assertion, the turn still held. *)
Theorem semTryWait_run opt ins sem s rg rn rp rest :
  det_region opt s ->
  st_script s = rg :: rn :: rp :: rest ->
  let e := default (st_error s) (r_errno rn) in
  (r_ret rn = 0 \/ e = EAGAIN ->
   exists s' turn,
     semTryWait opt ins sem s = Done (r_ret rn) s'
     /\ new_events s (Done (r_ret rn) s')
        = EvGetTurn :: EvNative (sem_trywait sem)
          :: inc_events opt ins sf_sem_trywait turn true
               [sem; wrap_u64 (r_ret rn)] ++ [EvPutTurn false]
     /\ st_error s' = e)
  /\ (r_ret rn <> 0 -> e <> EAGAIN ->
      exists s',
        semTryWait opt ins sem s = Stop AssertFail s'
        /\ new_events s (@Stop Z AssertFail s')
           = [EvGetTurn; EvNative (sem_trywait sem)]).
Proof.
  intros Hdet Hs e.
  unfold semTryWait. rewrite bind_eq, (in_non_det_det _ _ Hdet).
  destruct (SCHED_GET_TURN_post opt s rg _ Hdet Hs) as (s1 & E1 & P1 & R1 & _).
  rewrite bind_eq, E1.
  destruct (errno_from_error_run s1) as (s2 & E2 & P2 & N2 & R2).
  rewrite bind_eq, E2. unfold native. rewrite bind_eq.
  destruct (call_post (EvNative (sem_trywait sem)) s2 rn (rp :: rest))
    as (s3 & E3 & P3 & N3 & _).
  { rewrite (proj1 (proj2 P2)). scr P1. }
  rewrite E3.
  destruct (error_from_errno_run s3) as (s4 & E4 & P4 & R4 & N4).
  rewrite bind_eq, E4.
  assert (st_errno s4 = e) as He by (by rewrite N4, N3, N2, R1).
  pose proof (post_trans _ _ _ _ _ _ _ P1
               (post_trans _ _ _ _ _ _ _ P2
                 (post_trans _ _ _ _ _ _ _ P3 P4))) as P14.
  assert (st_script s4 = rp :: rest) as S4.
  { rewrite (proj1 (proj2 P4)). scr P3. }
  split.
  - intros Hok.
    assert ((if negb (r_ret rn =? 0)
             then e0 <- gets st_errno ;; assert (e0 =? EAGAIN)
             else ret tt) s4 = Done tt s4) as E5.
    { destruct (r_ret rn =? 0) eqn:Hr; [done|]. cbn [negb].
      destruct Hok as [Hok|Hok]; [lia|].
      rewrite bind_eq. cbn [gets]. rewrite He, Hok. reflexivity. }
    rewrite bind_eq, E5.
    destruct (SCHED_PUT_TURN_post opt ins sf_sem_trywait
                [sem; wrap_u64 (r_ret rn)] s4 rp rest S4)
      as (s6 & E6 & P6 & _ & R6).
    rewrite bind_eq, E6. exists s6, (st_turnCount s4 + 1).
    split; [reflexivity|].
    rewrite (new_events_post _ _ _ _ _ (post_trans _ _ _ _ _ _ _ P14 P6)).
    split; [reflexivity|]. by rewrite R6, R4, N3, N2, R1.
  - intros Hr Hne. apply Z.eqb_neq in Hr, Hne. rewrite bind_eq, Hr.
    cbn [negb]. rewrite bind_eq. cbn [gets]. rewrite He, Hne.
    eexists. split; [reflexivity|].
    exact (new_events_stop _ _ _ _ _ P14).
Qed.

Lemma semTryWait_run_witness :
  let s := one_thread [quiet 0; Response (-1) (Some EAGAIN) 0; quiet 0] in
  let e := EAGAIN in
  (-1 = 0 \/ e = EAGAIN ->
   exists s' turn,
     semTryWait opt_1000 7 55 s = Done (-1) s'
     /\ new_events s (Done (-1) s')
        = EvGetTurn :: EvNative (sem_trywait 55)
          :: inc_events opt_1000 7 sf_sem_trywait turn true
               [55; wrap_u64 (-1)] ++ [EvPutTurn false]
     /\ st_error s' = e)
  /\ (-1 <> 0 -> e <> EAGAIN ->
      exists s',
        semTryWait opt_1000 7 55 s = Stop AssertFail s'
        /\ new_events s (@Stop Z AssertFail s')
           = [EvGetTurn; EvNative (sem_trywait 55)]).
Proof.
  apply (semTryWait_run opt_1000 7 55
           (one_thread [quiet 0; Response (-1) (Some EAGAIN) 0; quiet 0])
           (quiet 0) (Response (-1) (Some EAGAIN) 0) (quiet 0) []);
    reflexivity.
Defined.

(** ** [pthreadCondWait] *)

(** X18.  [pthreadCondWait] in a deterministic region: under the turn
    the mutex is released natively and its waiters are signalled, the
    first half of the call is counted and logged, and only then the
    thread waits on the condition variable, without a deadline; woken
    up, it takes the mutex again as [pthreadMutexLock] does and ends the
    second half.  The native condition variable is not used.  The call
    returns 0 whatever the native unlock and the wait returned. *)
Theorem pthreadCondWait_run opt ins cv mu s rg ru rw rounds r0 rp rest :
  det_region opt s ->
  st_script s = rg :: ru :: rw :: flat rounds ++ r0 :: rp :: rest ->
  Forall mutex_retry rounds ->
  r_ret r0 = 0 ->
  exists s' turn1 turn2,
    pthreadCondWait opt ins cv mu s = Done 0 s'
    /\ new_events s (Done 0 s')
       = [EvGetTurn; EvNative (pthread_mutex_unlock mu); EvSignal mu false]
         ++ inc_events opt ins sf_pthread_cond_wait turn1 false [cv; mu]
         ++ [EvWait cv NO_TIMEOUT]
         ++ lock_events (pthread_mutex_trylock mu) mu NO_TIMEOUT
              (length rounds) true
         ++ inc_events opt ins sf_pthread_cond_wait turn2 true [cv; mu]
         ++ [EvPutTurn false]
    /\ st_script s' = rest.
Proof.
  intros Hdet Hs Hall H0.
  unfold pthreadCondWait. rewrite bind_eq, (in_non_det_det _ _ Hdet).
  destruct (SCHED_GET_TURN_post opt s rg _ Hdet Hs) as (s1 & E1 & P1 & _).
  rewrite bind_eq, E1.
  destruct (call_post (EvNative (pthread_mutex_unlock mu)) s1 ru _
              ltac:(scr P1)) as (s2 & E2 & P2 & _).
  unfold native. rewrite bind_eq, E2.
  destruct (emit_post (EvSignal mu false) s2 _ ltac:(scr P2))
    as (s3 & E3 & P3 & _).
  unfold S_signal. rewrite bind_eq, E3.
  destruct (SCHED_INC_TURN_post opt ins sf_pthread_cond_wait [cv; mu] s3 _
              ltac:(scr P3)) as (s4 & E4 & P4 & _).
  rewrite bind_eq, E4.
  destruct (call_post (EvWait cv NO_TIMEOUT) s4 rw _ ltac:(scr P4))
    as (s5 & E5 & P5 & _).
  unfold S_wait. rewrite bind_eq, E5.
  destruct (errno_from_error_post s5 _ ltac:(scr P5)) as (s6 & E6 & P6 & _).
  rewrite bind_eq, E6.
  destruct (pthreadMutexLockHelper_locked_post mu NO_TIMEOUT s6 rounds r0
              (rp :: rest) ltac:(scr P6) Hall H0) as (s7 & E7 & P7).
  rewrite bind_eq, E7.
  destruct (error_from_errno_post s7 _ ltac:(scr P7)) as (s8 & E8 & P8 & _).
  rewrite bind_eq, E8.
  destruct (SCHED_PUT_TURN_post opt ins sf_pthread_cond_wait [cv; mu] s8 rp
              rest ltac:(scr P8)) as (s9 & E9 & P9 & _).
  rewrite bind_eq, E9. do 3 eexists. split; [reflexivity|].
  pose proof
    (post_trans _ _ _ _ _ _ _ P1
      (post_trans _ _ _ _ _ _ _ P2
        (post_trans _ _ _ _ _ _ _ P3
          (post_trans _ _ _ _ _ _ _ P4
            (post_trans _ _ _ _ _ _ _ P5
              (post_trans _ _ _ _ _ _ _ P6
                (post_trans _ _ _ _ _ _ _ P7
                  (post_trans _ _ _ _ _ _ _ P8 P9)))))))) as P.
  rewrite (new_events_post _ _ _ _ _ P). split; [reflexivity|scr P].
Qed.

Lemma pthreadCondWait_run_witness :
  let s := one_thread [quiet 0; quiet 1; quiet ETIMEDOUT; quiet EBUSY;
                       quiet 0; quiet 0; quiet 0] in
  exists s' turn1 turn2,
    pthreadCondWait opt_1000 7 5 6 s = Done 0 s'
    /\ new_events s (Done 0 s')
       = [EvGetTurn; EvNative (pthread_mutex_unlock 6); EvSignal 6 false]
         ++ inc_events opt_1000 7 sf_pthread_cond_wait turn1 false [5; 6]
         ++ [EvWait 5 NO_TIMEOUT]
         ++ lock_events (pthread_mutex_trylock 6) 6 NO_TIMEOUT 1 true
         ++ inc_events opt_1000 7 sf_pthread_cond_wait turn2 true [5; 6]
         ++ [EvPutTurn false]
    /\ st_script s' = [].
Proof.
  apply (pthreadCondWait_run opt_1000 7 5 6
           (one_thread [quiet 0; quiet 1; quiet ETIMEDOUT; quiet EBUSY;
                        quiet 0; quiet 0; quiet 0])
           (quiet 0) (quiet 1) (quiet ETIMEDOUT)
           [(quiet EBUSY, quiet 0)] (quiet 0) (quiet 0) []).
  - reflexivity.
  - reflexivity.
  - repeat constructor; cbn; discriminate.
  - reflexivity.
Defined.

(** ** [idle_sleep] *)

Lemma incTurnCount_run s :
  exists s', incTurnCount s = Done (st_turnCount s + 1) s'
    /\ post s s' [EvIncTurnCount] (st_script s)
    /\ st_turnCount s' = st_turnCount s + 1.
Proof.
  unfold post. destruct s. cbn. eexists. split; [reflexivity|]. cbn. done.
Qed.

(** X19.  [idle_sleep] takes the turn, counts one turn, logs it under
    instruction 0 when [log_sync] is on and gives the turn back: the
    turn count grows by one, besides what the other threads add while
    the idle thread waits for the turn and after it has given it back.
    When the new count no longer fits an [int] the idle thread stops at
    its assertion, the turn still held. *)
Theorem idle_sleep_run opt s rg rp rest :
  st_script s = rg :: rp :: rest ->
  let turn := wrap_s32 (st_turnCount s + Z.of_nat (r_turns rg) + 1) in
  (0 <= turn ->
   exists s',
     idle_sleep opt s = Done tt s'
     /\ new_events s (Done tt s')
        = [EvGetTurn; EvIncTurnCount]
          ++ (if log_sync opt then [EvLogSync 0 sf_tern_idle turn true []]
              else [])
          ++ [EvPutTurn false]
     /\ st_turnCount s'
        = st_turnCount s + Z.of_nat (r_turns rg) + 1 + Z.of_nat (r_turns rp))
  /\ (turn < 0 ->
      exists s',
        idle_sleep opt s = Stop AssertFail s'
        /\ new_events s (@Stop unit AssertFail s')
           = [EvGetTurn; EvIncTurnCount]).
Proof.
  intros Hs turn. unfold idle_sleep.
  destruct (getTurn_post s rg _ Hs) as (s1 & E1 & P1 & T1 & _).
  rewrite bind_eq, E1.
  destruct (incTurnCount_run s1) as (s2 & E2 & P2 & T2).
  rewrite bind_eq, E2, T1. fold turn. cbv zeta. rewrite bind_eq.
  unfold assert.
  pose proof (post_trans _ _ _ _ _ _ _ P1 P2) as P12.
  assert (st_script s2 = rp :: rest) as S2.
  { rewrite (proj1 (proj2 P2)). scr P1. }
  split.
  - intros Ht. rewrite (proj2 (Z.geb_le _ _) Ht). cbn [ret].
    assert (exists s3,
      when (log_sync opt) (emit (EvLogSync 0 sf_tern_idle turn true [])) s2
      = Done tt s3
      /\ post s2 s3 (if log_sync opt
                     then [EvLogSync 0 sf_tern_idle turn true []] else [])
              (rp :: rest)
      /\ st_turnCount s3 = st_turnCount s2) as (s3 & E3 & P3 & T3).
    { destruct (log_sync opt); cbn [when].
      - destruct (emit_post (EvLogSync 0 sf_tern_idle turn true []) s2 _ S2)
          as (s3 & E3 & P3 & _ & _ & T3 & _). by exists s3.
      - exists s2. split; [reflexivity|]. unfold post.
        by rewrite app_nil_r. }
    rewrite bind_eq, E3.
    destruct (call_post (EvPutTurn false) s3 rp rest ltac:(scr P3))
      as (s4 & E4 & P4 & _ & _ & T4 & _).
    unfold putTurn. rewrite bind_eq, E4. cbn [ret].
    eexists. split; [reflexivity|].
    rewrite (new_events_post _ _ _ _ _
               (post_trans _ _ _ _ _ _ _ P12
                 (post_trans _ _ _ _ _ _ _ P3 P4))).
    split; [reflexivity|]. rewrite T4, T3, T2, T1. lia.
  - intros Ht. destruct (turn >=? 0) eqn:Hge.
    { apply Z.geb_le in Hge. lia. }
    eexists. split; [reflexivity|].
    exact (new_events_stop _ _ _ _ _ P12).
Qed.

Lemma idle_sleep_run_witness :
  let s := one_thread [quiet 0; Response 0 None 3] in
  let turn := wrap_s32 (10 + 0 + 1) in
  (0 <= turn ->
   exists s',
     idle_sleep opt_1000 s = Done tt s'
     /\ new_events s (Done tt s')
        = [EvGetTurn; EvIncTurnCount]
          ++ [EvLogSync 0 sf_tern_idle turn true []]
          ++ [EvPutTurn false]
     /\ st_turnCount s' = 10 + 0 + 1 + 3)
  /\ (turn < 0 ->
      exists s',
        idle_sleep opt_1000 s = Stop AssertFail s'
        /\ new_events s (@Stop unit AssertFail s')
           = [EvGetTurn; EvIncTurnCount]).
Proof.
  apply (idle_sleep_run opt_1000 (one_thread [quiet 0; Response 0 None 3])
           (quiet 0) (Response 0 None 3) []).
  reflexivity.
Defined.

(** ** The conversion on times that are not negative *)

Lemma relTimeToTurn_nonneg_witness :
  relTimeToTurn opt_1000 (Some (Timespec 0 2000000)) (one_thread [])
  = Done (spec_turns 1000 1 (0 * 1000000000 + 2000000)) (one_thread []).
Proof.
  apply (relTimeToTurn_nonneg opt_1000 (Timespec 0 2000000) (one_thread []));
    cbn; lia.
Defined.

(** ** The lock helpers *)

Lemma run_helper_loop h obj t :
  run_helper h obj t = loop (lock_round (try_op_of h obj) obj t).
Proof. by destruct h. Qed.

Lemma lock_round_advances op chan t : advances (lock_round op chan t).
Proof.
  intros s s'. unfold lock_round, native, bind.
  destruct (call _ s) as [r s1|] eqn:E; [|discriminate].
  apply call_script in E.
  destruct (r =? 0); [discriminate|]. unfold assert.
  destruct (r =? EBUSY); cbn; [|discriminate].
  unfold wait, S_wait.
  destruct (call _ s1) as [r' s2|] eqn:E'; [|discriminate].
  apply call_script in E'.
  destruct (r' =? ETIMEDOUT); cbn; [discriminate|]. intros [= <-]. lia.
Qed.

Lemma lock_loop_rounds op chan t rounds tail s :
  st_script s = flat rounds ++ tail ->
  Forall mutex_retry rounds ->
  loop (lock_round op chan t) s
  = loop (lock_round op chan t) (after_rounds (length rounds) op chan t s).
Proof.
  revert s. induction rounds as [|[rb rw] rounds IH]; intros s Hs Hall.
  - done.
  - apply Forall_cons in Hall as [[Hb Hw] Hall]. cbn in Hs, Hb, Hw.
    destruct (call_cons (EvNative op) s _ _ Hs) as (E1 & S1 & _).
    destruct (call_cons (EvWait chan t) _ _ _ S1) as (E2 & S2 & _).
    cbn [length after_rounds]. rewrite <- IH by done.
    rewrite loop_unfold by apply lock_round_advances.
    unfold lock_round at 1, native, wait, S_wait, bind.
    rewrite E1, Hb. cbn. rewrite E2.
    apply Z.eqb_neq in Hw. by rewrite Hw.
Qed.

(** X20.  The three lock helpers ([pthreadMutexLockHelper] and the read
    and write helpers of the read-write lock) are one loop: as long as
    the try-operation answers [EBUSY] and the wait does not time out,
    the helper tries again.  It returns 0 after the first try that
    succeeds, [ETIMEDOUT] after the first wait that times out, without
    another try, and stops at the assertion on a try that fails with
    another code. *)
Theorem lock_helper_result h obj t s rounds tail :
  st_script s = flat rounds ++ tail ->
  Forall mutex_retry rounds ->
  (forall r0 rest, tail = r0 :: rest -> r_ret r0 = 0 ->
     exists s', run_helper h obj t s = Done 0 s'
       /\ post s s' (lock_events (try_op_of h obj) obj t (length rounds) true)
               rest)
  /\ (forall rb rt rest, tail = rb :: rt :: rest ->
        r_ret rb = EBUSY -> r_ret rt = ETIMEDOUT ->
        exists s', run_helper h obj t s = Done ETIMEDOUT s'
          /\ post s s'
               (lock_events (try_op_of h obj) obj t (length rounds) false)
               rest)
  /\ (forall rbad rest, tail = rbad :: rest ->
        r_ret rbad <> 0 -> r_ret rbad <> EBUSY ->
        exists s', run_helper h obj t s = Stop AssertFail s'
          /\ post s s'
               (lock_events (try_op_of h obj) obj t (length rounds) true)
               rest).
Proof.
  intros Hs Hall. rewrite run_helper_loop.
  set (op := try_op_of h obj).
  rewrite (lock_loop_rounds op obj t rounds tail s Hs Hall).
  pose proof (after_rounds_post op obj t rounds tail s Hs) as P1.
  set (s1 := after_rounds (length rounds) op obj t s) in *.
  rewrite loop_unfold by apply lock_round_advances.
  unfold lock_round at 1 3 5, native, bind. unfold lock_events.
  split; [|split].
  - intros r0 rest -> H0.
    destruct (call_post (EvNative op) s1 r0 rest ltac:(scr P1))
      as (s2 & E2 & P2 & _).
    rewrite E2, H0. eexists. split; [reflexivity|].
    exact (post_trans _ _ _ _ _ _ _ P1 P2).
  - intros rb rt rest -> Hb Ht.
    destruct (call_post (EvNative op) s1 rb _ ltac:(scr P1))
      as (s2 & E2 & P2 & _).
    destruct (call_post (EvWait obj t) s2 rt rest ltac:(scr P2))
      as (s3 & E3 & P3 & _).
    rewrite E2, Hb. cbn. unfold wait, S_wait. rewrite E3, Ht.
    eexists. split; [reflexivity|].
    exact (post_trans _ _ _ _ _ _ _ P1 (post_trans _ _ _ _ _ _ _ P2 P3)).
  - intros rbad rest -> H0 Hb.
    destruct (call_post (EvNative op) s1 rbad rest ltac:(scr P1))
      as (s2 & E2 & P2 & _).
    apply Z.eqb_neq in H0, Hb. rewrite E2, H0. unfold assert. rewrite Hb.
    eexists. split; [reflexivity|].
    exact (post_trans _ _ _ _ _ _ _ P1 P2).
Qed.

Lemma lock_helper_result_witness :
  let s := one_thread [quiet EBUSY; quiet 0; quiet EBUSY; quiet ETIMEDOUT] in
  let tail := [quiet EBUSY; quiet ETIMEDOUT] in
  (forall r0 rest, tail = r0 :: rest -> r_ret r0 = 0 ->
     exists s', run_helper Helper_wrlock 55 20 s = Done 0 s'
       /\ post s s' (lock_events (pthread_rwlock_trywrlock 55) 55 20 1 true)
               rest)
  /\ (forall rb rt rest, tail = rb :: rt :: rest ->
        r_ret rb = EBUSY -> r_ret rt = ETIMEDOUT ->
        exists s', run_helper Helper_wrlock 55 20 s = Done ETIMEDOUT s'
          /\ post s s'
               (lock_events (pthread_rwlock_trywrlock 55) 55 20 1 false)
               rest)
  /\ (forall rbad rest, tail = rbad :: rest ->
        r_ret rbad <> 0 -> r_ret rbad <> EBUSY ->
        exists s', run_helper Helper_wrlock 55 20 s = Stop AssertFail s'
          /\ post s s'
               (lock_events (pthread_rwlock_trywrlock 55) 55 20 1 true)
               rest).
Proof.
  apply (lock_helper_result Helper_wrlock 55 20
           (one_thread [quiet EBUSY; quiet 0; quiet EBUSY; quiet ETIMEDOUT])
           [(quiet EBUSY, quiet 0)] [quiet EBUSY; quiet ETIMEDOUT]).
  - reflexivity.
  - repeat constructor; cbn; discriminate.
Defined.

(** ** The end of a thread *)

(** X21.  [sched_thread_end] counts one turn, logs it when asked to and
    gives the turn back with [putTurn(true)], the end of the thread;
    errno is afterwards what it was before, whatever [putTurn] did to
    it. *)
Theorem sched_thread_end_run log ins syncop th s rp rest :
  st_script s = rp :: rest ->
  exists s',
    sched_thread_end log ins syncop th s = Done tt s'
    /\ new_events s (Done tt s')
       = EvIncTurnCount
         :: (if log then [EvLogSync ins syncop (st_turnCount s + 1) true [th]]
             else [])
         ++ [EvPutTurn true]
    /\ st_errno s' = st_errno s
    /\ st_turnCount s' = st_turnCount s + 1 + Z.of_nat (r_turns rp).
Proof.
  intros Hs. unfold sched_thread_end. rewrite bind_eq. cbn [gets].
  destruct (incTurnCount_run s) as (s1 & E1 & P1 & T1).
  assert (exists s2,
    (if log then
       incTurnCount ;; turn <- getTurnCount ;;
       emit (EvLogSync ins syncop turn true [th])
     else incTurnCount ;; ret tt) s = Done tt s2
    /\ post s s2 (EvIncTurnCount
                  :: (if log
                      then [EvLogSync ins syncop (st_turnCount s + 1) true [th]]
                      else [])) (rp :: rest)
    /\ st_turnCount s2 = st_turnCount s + 1) as (s2 & E2 & P2 & T2).
  { destruct log.
    - rewrite bind_eq, E1. rewrite bind_eq. cbn [getTurnCount gets].
      rewrite T1.
      destruct (emit_post (EvLogSync ins syncop (st_turnCount s + 1) true [th])
                  s1 (rp :: rest)) as (s2 & E2 & P2 & _ & _ & T2 & _).
      { rewrite (proj1 (proj2 P1)). done. }
      exists s2. split; [done|]. split; [|by rewrite T2].
      exact (post_trans _ _ _ _ _ _ _ P1 P2).
    - rewrite bind_eq, E1. exists s1. split; [reflexivity|].
      split; [|done]. by rewrite <- Hs. }
  rewrite bind_eq, E2.
  destruct (call_post (EvPutTurn true) s2 rp rest ltac:(scr P2))
    as (s3 & E3 & P3 & _ & _ & T3 & _).
  unfold putTurn. rewrite bind_eq, bind_eq, E3. cbn [ret].
  destruct (set_errno_post (st_errno s) s3 _ ltac:(scr P3))
    as (s4 & E4 & P4 & N4 & _).
  pose proof (modify_inv _ _ _ _ E4) as Hs4.
  rewrite E4. eexists. split; [reflexivity|].
  rewrite (new_events_post _ _ _ _ _
             (post_trans _ _ _ _ _ _ _ P2
               (post_trans _ _ _ _ _ _ _ P3 P4))).
  split; [by rewrite app_nil_r, <- app_comm_cons|]. split; [done|].
  rewrite Hs4. cbn. by rewrite T3, T2.
Qed.

Lemma sched_thread_end_run_witness :
  exists s',
    sched_thread_end true 7 sf_tern_idle 1 putTurn_clobbers_errno = Done tt s'
    /\ new_events putTurn_clobbers_errno (Done tt s')
       = EvIncTurnCount :: [EvLogSync 7 sf_tern_idle (10 + 1) true [1]]
         ++ [EvPutTurn true]
    /\ st_errno s' = 5
    /\ st_turnCount s' = 10 + 1 + 3.
Proof.
  apply (sched_thread_end_run true 7 sf_tern_idle 1 putTurn_clobbers_errno
           (Response 0 (Some 99) 3) []).
  reflexivity.
Defined.

(** ** No busy waiting *)

Lemma settles_ret {A} (a : A) : settles (ret a).
Proof. intros s s'. discriminate. Qed.

Lemma settles_gets {A} (f : state -> A) : settles (gets f).
Proof. intros s s'. discriminate. Qed.

Lemma settles_modify f : settles (modify f).
Proof. intros s s'. discriminate. Qed.

Lemma settles_emit e : settles (emit e).
Proof. intros s s'. discriminate. Qed.

Lemma settles_halt {A} w : w <> Pending -> settles (@halt A w).
Proof. intros Hw s s'. unfold halt. intros [= -> _]. done. Qed.

Lemma settles_assert b : settles (assert b).
Proof. destruct b; [apply settles_ret|by apply settles_halt]. Qed.

Lemma settles_when b m : settles m -> settles (when b m).
Proof. destruct b; [done|intros _; apply settles_ret]. Qed.

Lemma settles_call e : settles (call e).
Proof.
  intros s s'. unfold call.
  destruct s as [? ? ? ? ? ? ? ? ? ? ? ? ? ? scr]. cbn.
  destruct scr; [|discriminate]. by intros [= <-].
Qed.

Lemma settles_bind {A B} (m : M A) (k : A -> M B) :
  settles m -> (forall a, settles (k a)) -> settles (bind m k).
Proof.
  intros Hm Hk s s'. unfold bind.
  destruct (m s) as [a s1|w s1] eqn:E.
  - apply Hk.
  - intros [= -> ->]. by eapply Hm.
Qed.

Lemma settles_in_non_det {A} opt (k : bool -> M A) :
  (forall nd, settles (k nd)) -> settles (bind (in_non_det opt) k).
Proof. intros Hk s s'. apply Hk. Qed.

Lemma settles_loop_n {A} (body : M (option A)) :
  advances body -> settles body ->
  forall n s s', (length (st_script s) < n)%nat ->
    loop_n n body s = Stop Pending s' -> st_script s' = [].
Proof.
  intros Hadv Hb. induction n as [|n IH]; intros s s' Hn; [lia|].
  cbn [loop_n]. unfold bind.
  destruct (body s) as [[a|] s1|w s1] eqn:E.
  - discriminate.
  - apply Hadv in E. apply IH. lia.
  - intros [= -> ->]. by eapply Hb.
Qed.

Lemma settles_loop {A} (body : M (option A)) :
  advances body -> settles body -> settles (loop body).
Proof.
  intros Hadv Hb s s'. unfold loop. apply settles_loop_n; [done|done|lia].
Qed.

Lemma lock_round_settles op chan t : settles (loop (lock_round op chan t)).
Proof.
  apply settles_loop; [apply lock_round_advances|].
  unfold lock_round, native, wait, S_wait.
  apply settles_bind; [apply settles_call|]. intros r.
  destruct (r =? 0); [apply settles_ret|].
  apply settles_bind; [apply settles_assert|]. intros _.
  apply settles_bind; [apply settles_call|]. intros r'.
  destruct (r' =? ETIMEDOUT); apply settles_ret.
Qed.

Lemma semWait_body_settles sem : settles (loop (semWait_body sem)).
Proof.
  apply settles_loop; [apply semWait_body_advances|].
  unfold semWait_body, native, wait, S_wait.
  apply settles_bind; [apply settles_call|]. intros r.
  destruct (r =? 0); [apply settles_ret|].
  apply settles_bind; [apply settles_gets|]. intros e.
  apply settles_bind; [apply settles_assert|]. intros _.
  apply settles_bind; [apply settles_call|]. intros _. apply settles_ret.
Qed.

Lemma semTimedWait_body_settles sem t :
  settles (loop (semTimedWait_body sem t)).
Proof.
  apply settles_loop; [apply semTimedWait_body_advances|].
  unfold semTimedWait_body, native, S_wait.
  apply settles_bind; [apply settles_call|]. intros r.
  destruct (r =? 0); [apply settles_ret|].
  apply settles_bind; [apply settles_gets|]. intros e.
  apply settles_bind; [apply settles_assert|]. intros _.
  apply settles_bind; [apply settles_call|]. intros r'.
  destruct (r' =? ETIMEDOUT); [|apply settles_ret].
  apply settles_bind; [apply settles_modify|]. intros _. apply settles_ret.
Qed.

(** The wrappers, unfolded down to their loops. *)
Ltac unfold_to_loops :=
  unfold run_call, pthreadMutexLock, pthreadMutexTryLock,
    pthreadMutexTimedLock, pthreadMutexUnlock, __pthread_rwlock_rdlock,
    __pthread_rwlock_tryrdlock, __pthread_rwlock_trywrlock,
    __pthread_rwlock_unlock, pthreadBarrierInit, pthreadBarrierWait,
    pthreadCondWait, pthreadCondTimedWait, semWait, semTryWait,
    semTimedWait, semPost, __recv, idle_sleep, idle_cond_wait,
    BLOCK_TIMER_START, BLOCK_TIMER_END,
    SCHED_GET_TURN, SCHED_INC_TURN, SCHED_PUT_TURN, sched_timer_start,
    sched_timer_end_fh, sched_timer_end, base_or_now, clock_gettime,
    relTimeToTurn, time2turn, errno_from_error, error_from_errno,
    count_non_det, add_non_det_var, signal, S_signal,
    getTurn, putTurn, getTurnCount, incTurnCount, block, wakeup,
    interProStart, interProEnd, idleThreadCondWait, native, S_wait.

Ltac settles_step :=
  cbv beta zeta;
  lazymatch goal with
  | |- settles (ret _) => apply settles_ret
  | |- settles (gets _) => apply settles_gets
  | |- settles (modify _) => apply settles_modify
  | |- settles (emit _) => apply settles_emit
  | |- settles (halt _) => apply settles_halt; discriminate
  | |- settles (assert _) => apply settles_assert
  | |- settles (when _ _) => apply settles_when
  | |- settles (call _) => apply settles_call
  | |- settles (pthreadMutexLockHelper ?mu ?t) =>
      exact (lock_round_settles (pthread_mutex_trylock mu) mu t)
  | |- settles (pthreadRWLockRdLockHelper ?rw ?t) =>
      exact (lock_round_settles (pthread_rwlock_tryrdlock rw) rw t)
  | |- settles (loop (semTimedWait_body ?sem ?t)) =>
      apply semTimedWait_body_settles
  | |- settles (loop _) => apply semWait_body_settles
  | |- settles (bind (in_non_det _) _) =>
      apply settles_in_non_det; intros ?
  | |- settles (bind _ _) => apply settles_bind; [|intros ?]
  | |- settles (match ?x with _ => _ end) => destruct x
  | |- settles _ => progress unfold_to_loops
  end.

Lemma run_call_settles opt ins c : settles (run_call opt ins c).
Proof. destruct c; repeat settles_step. Qed.


(** ** The wrappers specialised for [RecordSerializer] *)

Ltac unfold_serializer :=
  unfold run_serializer_call, RecordSerializer.pthreadBarrierWait,
    RecordSerializer.pthreadCondWait, RecordSerializer.pthreadCondTimedWait.

Lemma run_serializer_call_inc opt lock ins c nd :
  enforce_non_det_annotations opt && nd = false ->
  obeys inc_step nd (run_serializer_call opt lock ins c)
        (Z.to_nat (NumRecordsForSync (serializer_op c)
                   + serializer_extra_turns c)) 0%nat.
Proof. intros Hdet. destruct c; unfold_serializer; repeat obeys_step. Qed.

Lemma run_serializer_call_log opt lock ins c nd :
  enforce_non_det_annotations opt && nd = false ->
  obeys log_step nd (run_serializer_call opt lock ins c)
        (if log_sync opt then records_of (serializer_op c) else []) [].
Proof.
  intros Hdet. destruct (log_sync opt) eqn:Hlog; destruct c;
    unfold_serializer; repeat obeys_step.
Qed.

(** X24.  The specialisations for [RecordSerializer] write the two log
    records of a wait on a barrier or a condition variable, as the
    generic wrappers do, but [pthreadBarrierWait] and [pthreadCondWait]
    take three turns for them, one more than they write records;
    [pthreadCondTimedWait] takes two. *)
Theorem serializer_turns_and_records opt lock ins c s :
  det_region opt s ->
  proceeds (run_serializer_call opt lock ins c s) ->
  let evs := new_events s (run_serializer_call opt lock ins c s) in
  Z.of_nat (turns_taken evs)
  = NumRecordsForSync (serializer_op c) + serializer_extra_turns c
  /\ log_records evs
     = (if log_sync opt then records_of (serializer_op c) else []).
Proof.
  intros Hdet Hp. cbn zeta. split.
  - destruct (obeys_new_events inc_step _ _ _ s
                (run_serializer_call_inc opt lock ins c _ Hdet))
      as (qf & Acc & Hq).
    apply accepts_inc_step in Acc. rewrite (Hq Hp), Nat.add_0_r in Acc.
    rewrite <- Acc. by destruct c.
  - destruct (obeys_new_events log_step _ _ _ s
                (run_serializer_call_log opt lock ins c _ Hdet))
      as (qf & Acc & Hq).
    apply accepts_log_step in Acc. rewrite (Hq Hp), app_nil_r in Acc.
    by rewrite <- Acc.
Qed.

Lemma serializer_turns_and_records_witness :
  let s := one_thread [quiet 0; quiet 0; quiet 0; quiet 0;
                       quiet PTHREAD_BARRIER_SERIAL_THREAD; quiet 0;
                       quiet 0] in
  let evs := new_events s
    (run_serializer_call opt_1000 99 7 (Serializer_pthreadBarrierWait 55) s)
  in
  Z.of_nat (turns_taken evs) = 2 + 1
  /\ log_records evs
     = [(sf_pthread_barrier_wait, false); (sf_pthread_barrier_wait, true)].
Proof.
  apply (serializer_turns_and_records opt_1000 99 7
           (Serializer_pthreadBarrierWait 55)
           (one_thread [quiet 0; quiet 0; quiet 0; quiet 0;
                        quiet PTHREAD_BARRIER_SERIAL_THREAD; quiet 0;
                        quiet 0])).
  - reflexivity.
  - do 2 eexists. vm_compute. reflexivity.
Defined.

Lemma SCHED_GET_TURN_aborts opt s :
  non_det_region opt s -> SCHED_GET_TURN opt s = Stop AssertFail s.
Proof.
  unfold non_det_region. intros H.
  apply andb_true_iff in H as [He Hn].
  unfold SCHED_GET_TURN, sched_timer_start.
  rewrite bind_eq. cbn [gets]. rewrite bind_eq, He, Hn. reflexivity.
Qed.

(** X25.  The specialisations have no pass-through: called inside a
    non-det region, with the annotations enforced, each stops at the
    assertion of [sched_timer_start] before it has made any call. *)
Theorem serializer_in_non_det_region opt lock ins c s :
  non_det_region opt s ->
  run_serializer_call opt lock ins c s = Stop AssertFail s.
Proof.
  intros Hnd. destruct c; unfold_serializer;
    by rewrite bind_eq, (SCHED_GET_TURN_aborts _ _ Hnd).
Qed.

Lemma serializer_in_non_det_region_witness :
  run_serializer_call opt_1000 99 7 (Serializer_pthreadCondWait 5 6)
    (in_non_det_region [quiet 0])
  = Stop AssertFail (in_non_det_region [quiet 0]).
Proof.
  apply (serializer_in_non_det_region opt_1000 99 7
           (Serializer_pthreadCondWait 5 6) (in_non_det_region [quiet 0])).
  reflexivity.
Defined.

Lemma serializer_barrier_turn opt ins barrier nd :
  obeys turn_step nd (RecordSerializer.pthreadBarrierWait opt ins barrier)
        false false.
Proof. unfold_serializer; repeat obeys_step. Qed.

Lemma assert_true_inv b s a s' : assert b s = Done a s' -> b = true.
Proof. by destruct b. Qed.


(** X27.  [pthreadCondTimedWait] for [RecordSerializer] in a
    deterministic region: between its [getTurn] and its [putTurn] it
    releases the mutex natively, ends the first half and waits at the
    native condition variable, on the lock of the scheduler and with
    the deadline it was given, a null one included; then it takes the
    mutex again with the lock helper.  It returns what the native wait
    returned when that is 0 or [ETIMEDOUT], and stops at the assertion
    on any other answer, the mutex not taken again. *)
Theorem serializer_cond_timedwait_run opt lock ins cv mu abstime s
    rg ru rc rounds r0 rp rest :
  det_region opt s ->
  st_script s = rg :: ru :: rc :: flat rounds ++ r0 :: rp :: rest ->
  Forall mutex_retry rounds ->
  r_ret r0 = 0 ->
  (r_ret rc = 0 \/ r_ret rc = ETIMEDOUT ->
   exists s' turn1 turn2,
     RecordSerializer.pthreadCondTimedWait opt lock ins cv mu abstime s
     = Done (r_ret rc) s'
     /\ new_events s (Done (r_ret rc) s')
        = [EvGetTurn; EvNative (pthread_mutex_unlock mu)]
          ++ inc_events opt ins sf_pthread_cond_timedwait turn1 false
               [cv; mu]
          ++ [EvNative (pthread_cond_timedwait cv lock abstime)]
          ++ lock_events (pthread_mutex_trylock mu) mu NO_TIMEOUT
               (length rounds) true
          ++ inc_events opt ins sf_pthread_cond_timedwait turn2 true
               [cv; mu; wrap_u64 (r_ret rc)]
          ++ [EvPutTurn false])
  /\ (r_ret rc <> 0 -> r_ret rc <> ETIMEDOUT ->
      exists s' turn1,
        RecordSerializer.pthreadCondTimedWait opt lock ins cv mu abstime s
        = Stop AssertFail s'
        /\ new_events s (@Stop Z AssertFail s')
           = [EvGetTurn; EvNative (pthread_mutex_unlock mu)]
             ++ inc_events opt ins sf_pthread_cond_timedwait turn1 false
                  [cv; mu]
             ++ [EvNative (pthread_cond_timedwait cv lock abstime)]).
Proof.
  intros Hdet Hs Hall H0.
  unfold RecordSerializer.pthreadCondTimedWait.
  destruct (SCHED_GET_TURN_post opt s rg _ Hdet Hs) as (s1 & E1 & P1 & _).
  rewrite bind_eq, E1.
  destruct (call_post (EvNative (pthread_mutex_unlock mu)) s1 ru _
              ltac:(scr P1)) as (s2 & E2 & P2 & _).
  unfold native. rewrite bind_eq, E2.
  destruct (SCHED_INC_TURN_post opt ins sf_pthread_cond_timedwait [cv; mu]
              s2 _ ltac:(scr P2)) as (s3 & E3 & P3 & _).
  rewrite bind_eq, E3.
  destruct (errno_from_error_post s3 _ ltac:(scr P3)) as (s4 & E4 & P4 & _).
  rewrite bind_eq, E4.
  destruct (call_post (EvNative (pthread_cond_timedwait cv lock abstime)) s4
              rc _ ltac:(scr P4)) as (s5 & E5 & P5 & _).
  rewrite bind_eq, E5.
  destruct (error_from_errno_post s5 _ ltac:(scr P5)) as (s6 & E6 & P6 & _).
  rewrite bind_eq, E6. rewrite bind_eq. unfold assert.
  pose proof
    (post_trans _ _ _ _ _ _ _ P1
      (post_trans _ _ _ _ _ _ _ P2
        (post_trans _ _ _ _ _ _ _ P3
          (post_trans _ _ _ _ _ _ _ P4
            (post_trans _ _ _ _ _ _ _ P5 P6))))) as P16.
  split.
  - intros Hok.
    assert ((r_ret rc =? 0) || (r_ret rc =? ETIMEDOUT) = true) as ->.
    { apply orb_true_iff. destruct Hok as [->| ->]; auto. }
    cbn [ret].
    destruct (pthreadMutexLockHelper_locked_post mu NO_TIMEOUT s6 rounds r0
                (rp :: rest) ltac:(scr P6) Hall H0) as (s7 & E7 & P7).
    rewrite bind_eq, E7.
    destruct (SCHED_PUT_TURN_post opt ins sf_pthread_cond_timedwait
                [cv; mu; wrap_u64 (r_ret rc)] s7 rp rest ltac:(scr P7))
      as (s8 & E8 & P8 & _).
    rewrite bind_eq, E8. do 3 eexists. split; [reflexivity|].
    rewrite (new_events_post _ _ _ _ _
               (post_trans _ _ _ _ _ _ _ P16
                 (post_trans _ _ _ _ _ _ _ P7 P8))).
    cbn [app]. rewrite ?app_nil_r, <- ?app_assoc. cbn [app].
    by rewrite ?app_nil_r.
  - intros Hn0 Hnt. apply Z.eqb_neq in Hn0, Hnt. rewrite Hn0, Hnt.
    cbn [orb]. do 2 eexists. split; [reflexivity|].
    rewrite (new_events_stop _ _ _ _ _ P16).
    cbn [app]. rewrite ?app_nil_r, <- ?app_assoc. cbn [app].
    by rewrite ?app_nil_r.
Qed.

Lemma serializer_cond_timedwait_run_witness :
  let s := one_thread [quiet 0; quiet 0; quiet ETIMEDOUT; quiet 0; quiet 0] in
  (ETIMEDOUT = 0 \/ ETIMEDOUT = ETIMEDOUT ->
   exists s' turn1 turn2,
     RecordSerializer.pthreadCondTimedWait opt_1000 99 7 5 6 None s
     = Done ETIMEDOUT s'
     /\ new_events s (Done ETIMEDOUT s')
        = [EvGetTurn; EvNative (pthread_mutex_unlock 6)]
          ++ inc_events opt_1000 7 sf_pthread_cond_timedwait turn1 false
               [5; 6]
          ++ [EvNative (pthread_cond_timedwait 5 99 None)]
          ++ lock_events (pthread_mutex_trylock 6) 6 NO_TIMEOUT 0 true
          ++ inc_events opt_1000 7 sf_pthread_cond_timedwait turn2 true
               [5; 6; wrap_u64 ETIMEDOUT]
          ++ [EvPutTurn false])
  /\ (ETIMEDOUT <> 0 -> ETIMEDOUT <> ETIMEDOUT ->
      exists s' turn1,
        RecordSerializer.pthreadCondTimedWait opt_1000 99 7 5 6 None s
        = Stop AssertFail s'
        /\ new_events s (@Stop Z AssertFail s')
           = [EvGetTurn; EvNative (pthread_mutex_unlock 6)]
             ++ inc_events opt_1000 7 sf_pthread_cond_timedwait turn1 false
                  [5; 6]
             ++ [EvNative (pthread_cond_timedwait 5 99 None)]).
Proof.
  apply (serializer_cond_timedwait_run opt_1000 99 7 5 6 None
           (one_thread [quiet 0; quiet 0; quiet ETIMEDOUT; quiet 0; quiet 0])
           (quiet 0) (quiet 0) (quiet ETIMEDOUT) [] (quiet 0) (quiet 0) []).
  - reflexivity.
  - reflexivity.
  - constructor.
  - reflexivity.
Defined.
